(** * Curated Medium list scraper: the scroll-extraction engine, verified

    A shallow embedding of [medium_scraper.py] and [utils.py].

    Conventions of the embedding.
    - A Python [str] is a Rocq [string]; every character is read as the code
      point of the same number (the texts are Latin-1 texts).
    - Python's [int] is [Z] (or [nat] for the loop counters, which only count
      up from zero).  The interpreter's optional cap on the number of digits
      accepted by [int(str)] is a run-time setting and is not part of the
      model.
    - A [float] is an IEEE binary64 number; only the non-negative ones can
      arise here and they are kept as exact dyadic numbers, each operation
      rounding to nearest-even as the hardware does.
    - Code that can raise returns a [py_result]; code that mutates [self] or
      the files threads a [World]. *)

From Stdlib Require Import ZArith Lia List Bool Ascii String.
From stdpp Require Import base decidable relations list gmap strings sets.

Open Scope Z_scope.

(** ** Exceptions *)

Inductive pyexn :=
  | ValueError
  | OverflowError
  | ZeroDivisionError
  | DriverError          (* an error raised by the page driver *)
  | KeyboardInterrupt    (* BaseException only *)
  | CancelledError.      (* BaseException only *)

(** [except Exception] catches everything but the two interrupts. *)
Definition is_Exception (e : pyexn) : bool :=
  match e with
  | KeyboardInterrupt | CancelledError => false
  | _ => true
  end.

Inductive py_result (A : Type) :=
  | Ok (a : A)
  | Raise (e : pyexn).
Arguments Ok {A} a.
Arguments Raise {A} e.

(** ** Strings *)

Module Str.

Definition code (c : ascii) : Z := Z.of_N (N_of_ascii c).

Definition chars (s : string) : list ascii := list_ascii_of_string s.
Definition of_chars (l : list ascii) : string := string_of_list_ascii l.

(** [\d] of a [str] pattern, on Latin-1: the ten decimal digits. *)
Definition is_decimal (c : ascii) : bool := (48 <=? code c) && (code c <=? 57).

(** [str.isdigit] holds in addition for the superscripts one, two, three. *)
Definition is_digit_char (c : ascii) : bool :=
  is_decimal c || (code c =? 178) || (code c =? 179) || (code c =? 185).

(** [str.isspace] on Latin-1. *)
Definition is_space (c : ascii) : bool :=
  ((9 <=? code c) && (code c <=? 13)) || ((28 <=? code c) && (code c <=? 32))
  || (code c =? 133) || (code c =? 160).

Fixpoint lstrip_chars (l : list ascii) : list ascii :=
  match l with
  | c :: l' => if is_space c then lstrip_chars l' else l
  | [] => []
  end.

Definition strip_chars (l : list ascii) : list ascii :=
  rev (lstrip_chars (rev (lstrip_chars l))).

(** [s.strip()] *)
Definition strip (s : string) : string := of_chars (strip_chars (chars s)).

(** [s.startswith(p)] *)
Definition startswith (p s : string) : bool := String.prefix p s.

(** [c in s] *)
Definition contains (c : ascii) (s : string) : bool :=
  existsb (Ascii.eqb c) (chars s).

(** [s.replace(c, '')] for a one-character [c]. *)
Definition remove_char (c : ascii) (s : string) : string :=
  of_chars (List.filter (fun d => negb (Ascii.eqb c d)) (chars s)).

(** [s.split(sep)] for a one-character separator: never empty. *)
Fixpoint split_chars (sep : ascii) (l : list ascii) : list (list ascii) :=
  match l with
  | [] => [[]]
  | c :: l' =>
      if Ascii.eqb c sep then [] :: split_chars sep l'
      else match split_chars sep l' with
           | w :: ws => (c :: w) :: ws
           | [] => [[c]]
           end
  end.

Definition split (sep : ascii) (s : string) : list string :=
  List.map of_chars (split_chars sep (chars s)).

(** [s.isdigit()] *)
Definition isdigit (s : string) : bool :=
  match chars s with
  | [] => false
  | l => forallb is_digit_char l
  end.

Definition all_decimal (s : string) : bool := forallb is_decimal (chars s).

(** Value of a run of decimal digits. *)
Definition digits_value (l : list ascii) : Z :=
  fold_left (fun acc c => 10 * acc + (code c - 48)) l 0.

(** [int(s)] for a string on which [isdigit] holds: the superscripts are
    digits for [isdigit] but not for [int]. *)
Definition int_of_digits (s : string) : py_result Z :=
  if all_decimal s then Ok (digits_value (chars s)) else Raise ValueError.

(** [re.findall(r'\d+', s)]: the maximal runs of decimal digits. *)
Fixpoint digit_runs_aux (cur : list ascii) (l : list ascii) : list (list ascii) :=
  match l with
  | [] => match cur with [] => [] | _ => [rev cur] end
  | c :: l' =>
      if is_decimal c then digit_runs_aux (c :: cur) l'
      else match cur with
           | [] => digit_runs_aux [] l'
           | _ => rev cur :: digit_runs_aux [] l'
           end
  end.

Definition digit_runs (s : string) : list (list ascii) := digit_runs_aux [] (chars s).

(** ASCII part of [str.upper]. *)
Definition upper_char (c : ascii) : ascii :=
  if (97 <=? code c) && (code c <=? 122)
  then ascii_of_N (Z.to_N (code c - 32)) else c.

End Str.

(** ** Floating point: the non-negative binary64 numbers *)

Module Float.

Inductive t :=
  | Finite (m e : Z)     (* the number m * 2^e, 0 <= m *)
  | Inf.

Definition round_half_even (num den : Z) : Z :=
  let q := num / den in
  let r := num mod den in
  if 2 * r <? den then q
  else if den <? 2 * r then q + 1
  else if Z.even q then q else q + 1.

(** [2^t <= p/q] *)
Definition ge_pow2 (p q t : Z) : bool :=
  if 0 <=? t then q * 2 ^ t <=? p else q <=? p * 2 ^ (- t).

(** The binary64 number nearest to [p/q] ([0 <= p], [0 < q]), ties to even;
    53 significant bits, least exponent -1074, overflow to infinity. *)
Definition of_ratio (p q : Z) : t :=
  if p =? 0 then Finite 0 0
  else
    let t := Z.log2 p - Z.log2 q in
    let E := if ge_pow2 p q t then t else t - 1 in
    let e := Z.max (E - 52) (-1074) in
    let m := if 0 <=? e then round_half_even p (q * 2 ^ e)
             else round_half_even (p * 2 ^ (- e)) q in
    if (0 <? m) && (1024 <=? Z.log2 m + e) then Inf else Finite m e.

(** [x * k] for a float [x] and an [int] [k] that is exact as a float. *)
Definition mul_int (x : t) (k : Z) : t :=
  match x with
  | Inf => Inf
  | Finite m e =>
      if 0 <=? e then of_ratio (m * k * 2 ^ e) 1
      else of_ratio (m * k) (2 ^ (- e))
  end.

(** [int(x)] *)
Definition to_int (x : t) : py_result Z :=
  match x with
  | Inf => Raise OverflowError
  | Finite m e => Ok (if 0 <=? e then m * 2 ^ e else m / 2 ^ (- e))
  end.

(** [float(s)] for a text over the digits, the point and letters: the
    decimal forms [d+], [d+.], [d+.d+], [.d+] are numbers, anything else is a
    [ValueError]. *)
Definition of_string (s : string) : py_result t :=
  match Str.split "."%char s with
  | [ip] =>
      if Str.all_decimal ip && negb (String.eqb ip "")
      then Ok (of_ratio (Str.digits_value (Str.chars ip)) 1)
      else Raise ValueError
  | [ip; fp] =>
      if Str.all_decimal ip && Str.all_decimal fp
         && negb (String.eqb ip "" && String.eqb fp "")
      then Ok (of_ratio (Str.digits_value (Str.chars ip ++ Str.chars fp))
                 (10 ^ Z.of_nat (String.length fp)))
      else Raise ValueError
  | _ => Raise ValueError
  end.

End Float.

(** ** [utils.parse_number] and [MediumScraper._parse_number] *)

(** [re.sub(r'[^\d\.KMkm]', '', text.upper())] *)
Definition keeps_number_char (c : ascii) : bool :=
  Str.is_decimal c || Ascii.eqb c "."%char
  || Ascii.eqb c "K"%char || Ascii.eqb c "M"%char
  || Ascii.eqb c "k"%char || Ascii.eqb c "m"%char.

Definition clean_number_text (text : string) : string :=
  Str.of_chars (List.filter keeps_number_char (List.map Str.upper_char (Str.chars text))).

(** [int(float(s) * k)], the [ValueError] of [float] caught by the
    [except (ValueError, TypeError)] clause. *)
Definition scaled_int (s : string) (k : option Z) : py_result Z :=
  match Float.of_string s with
  | Raise _ => Ok 0
  | Ok x =>
      Float.to_int (match k with Some k => Float.mul_int x k | None => x end)
  end.

Definition parse_number (text : string) : py_result Z :=
  if String.eqb text "" then Ok 0
  else
    let clean_text := clean_number_text text in
    if String.eqb clean_text "" then Ok 0
    else if Str.contains "K"%char clean_text
    then scaled_int (Str.remove_char "K"%char clean_text) (Some 1000)
    else if Str.contains "M"%char clean_text
    then scaled_int (Str.remove_char "M"%char clean_text) (Some 1000000)
    else scaled_int clean_text None.

(** The method of the scraper has the same body, without the type test. *)
Definition _parse_number (text : string) : py_result Z := parse_number text.

(** ** [MediumScraper._parse_claps] *)

Definition nl : ascii := ascii_of_N 10.

(** [[line.strip() for line in text.split('\n') if line.strip()]] *)
Definition claps_lines (text : string) : list string :=
  List.filter (fun l => negb (String.eqb l ""))
    (List.map Str.strip (Str.split nl text)).

(** [[int(m) for m in re.findall(r'\d+', text) if int(m) >= 10]] *)
Definition claps_numbers (text : string) : list Z :=
  List.filter (fun n => 10 <=? n) (List.map Str.digits_value (Str.digit_runs text)).

(** [max(numbers)] of a non-empty list; the numbers are not negative. *)
Definition max_list (l : list Z) : Z := fold_right Z.max 0 l.

Definition enumerate {A} (l : list A) : list (nat * A) := combine (seq 0 (length l)) l.

(** The [except (ValueError, TypeError)] clause turns a failing [int] into 0. *)
Definition int_or_zero (s : string) : Z :=
  match Str.int_of_digits s with Ok v => v | Raise _ => 0 end.

(** "Fallback: find the largest number that's not too small" *)
Definition claps_fallback (text : string) : Z :=
  match claps_numbers text with
  | [] => 0
  | numbers => max_list numbers
  end.

Definition _parse_claps (text : string) : Z :=
  if String.eqb text "" then 0
  else
    let lines := claps_lines text in
    match (if (3 <=? length lines)%nat then
             match lines !! 1%nat with
             | Some middle_line => if Str.isdigit middle_line then Some middle_line else None
             | None => None
             end
           else None) with
    | Some middle_line => int_or_zero middle_line
    | None =>
        match (if (length lines =? 3)%nat then
                 List.find (fun il => Str.isdigit (snd il) && (fst il =? 1)%nat)
                   (enumerate lines)
               else None) with
        | Some il => int_or_zero (snd il)
        | None => claps_fallback text
        end
    end.


(** ** The library: [urllib.parse.urljoin]

    Written after CPython 3.11's [urllib/parse.py], for [str] arguments.  The
    check that a bracketed host is an IP literal ([_check_bracketed_host],
    which goes through the [ipaddress] module) is the parameter
    [ip_literal_ok]. *)

Module Urllib.

Definition lower_char (c : ascii) : ascii :=
  if (65 <=? Str.code c) && (Str.code c <=? 90)
  then ascii_of_N (Z.to_N (Str.code c + 32)) else c.

Definition is_alpha (c : ascii) : bool :=
  ((65 <=? Str.code c) && (Str.code c <=? 90))
  || ((97 <=? Str.code c) && (Str.code c <=? 122)).

(** [scheme_chars] *)
Definition is_scheme_char (c : ascii) : bool :=
  is_alpha c || Str.is_decimal c
  || Ascii.eqb c "+"%char || Ascii.eqb c "-"%char || Ascii.eqb c "."%char.

Definition uses_relative : list string :=
  [""; "ftp"; "http"; "gopher"; "nntp"; "imap"; "wais"; "file"; "https";
   "shttp"; "mms"; "prospero"; "rtsp"; "rtspu"; "sftp"; "svn"; "svn+ssh";
   "ws"; "wss"].

Definition uses_netloc : list string :=
  [""; "ftp"; "http"; "gopher"; "nntp"; "telnet"; "imap"; "wais"; "file";
   "mms"; "https"; "shttp"; "snews"; "prospero"; "rtsp"; "rtspu"; "rsync";
   "svn"; "svn+ssh"; "sftp"; "nfs"; "git"; "git+ssh"; "ws"; "wss"].

Definition uses_params : list string :=
  [""; "ftp"; "hdl"; "prospero"; "http"; "imap"; "https"; "shttp"; "rtsp";
   "rtspu"; "sip"; "sips"; "mms"; "sftp"; "tel"].

Definition mem (s : string) (l : list string) : bool := existsb (String.eqb s) l.

(** The characters before the first one satisfying [p], and the rest from
    that character on. *)
Fixpoint break (p : ascii -> bool) (l : list ascii) : list ascii * list ascii :=
  match l with
  | [] => ([], [])
  | c :: l' => if p c then ([], l) else let (a, b) := break p l' in (c :: a, b)
  end.

(** [s.partition(c)]: before, whether [c] was found, after. *)
Definition partition (c : ascii) (l : list ascii) : list ascii * bool * list ascii :=
  match break (Ascii.eqb c) l with
  | (a, _ :: b) => (a, true, b)
  | (a, []) => (a, false, [])
  end.

(** [s.rpartition(c)[2]] *)
Definition after_last (c : ascii) (l : list ascii) : list ascii :=
  rev (fst (break (Ascii.eqb c) (rev l))).

Definition has (c : ascii) (l : list ascii) : bool := existsb (Ascii.eqb c) l.

(** [_WHATWG_C0_CONTROL_OR_SPACE] *)
Definition is_c0_or_space (c : ascii) : bool := Str.code c <=? 32.

Fixpoint lstrip_c0 (l : list ascii) : list ascii :=
  match l with
  | c :: l' => if is_c0_or_space c then lstrip_c0 l' else l
  | [] => []
  end.

(** [_UNSAFE_URL_BYTES_TO_REMOVE] *)
Definition is_unsafe (c : ascii) : bool :=
  (Str.code c =? 9) || (Str.code c =? 13) || (Str.code c =? 10).

Record split_result := SplitResult {
  sr_scheme : string; sr_netloc : string; sr_url : string;
  sr_query : string; sr_fragment : string }.

Record parse_result := ParseResult {
  scheme : string; netloc : string; path : string; params : string;
  query : string; fragment : string }.

Section WithIpLiterals.

Variable ip_literal_ok : string -> bool.

Definition _check_bracketed_netloc (netloc : list ascii) : bool :=
  let hostname_and_port := after_last "@"%char netloc in
  match partition "["%char hostname_and_port with
  | (before_bracket, true, bracketed) =>
      match before_bracket with
      | _ :: _ => false
      | [] =>
          match partition "]"%char bracketed with
          | (hostname, _, port) =>
              match port with
              | c :: _ => if Ascii.eqb c ":"%char
                          then ip_literal_ok (Str.of_chars hostname) else false
              | [] => ip_literal_ok (Str.of_chars hostname)
              end
          end
      end
  | (_, false, _) =>
      match partition ":"%char hostname_and_port with
      | (hostname, _, _) => ip_literal_ok (Str.of_chars hostname)
      end
  end.

Definition urlsplit (url0 scheme0 : string) : py_result split_result :=
  let url := List.filter (fun c => negb (is_unsafe c)) (lstrip_c0 (Str.chars url0)) in
  let scheme0 :=
    Str.of_chars (List.filter (fun c => negb (is_unsafe c))
      (rev (lstrip_c0 (rev (lstrip_c0 (Str.chars scheme0)))))) in
  let '(scheme, url) :=
    match break (Ascii.eqb ":"%char) url with
    | (c :: pre, _ :: rest) =>
        if is_alpha c && forallb is_scheme_char (c :: pre)
        then (Str.of_chars (List.map lower_char (c :: pre)), rest)
        else (scheme0, url)
    | _ => (scheme0, url)
    end in
  let split_rest (netloc : string) (url : list ascii) :=
    let '(url, _, fragment) := partition "#"%char url in
    let '(url, _, query) := partition "?"%char url in
    Ok (SplitResult scheme netloc (Str.of_chars url)
          (Str.of_chars query) (Str.of_chars fragment)) in
  match url with
  | c1 :: c2 :: rest =>
      if Ascii.eqb c1 "/"%char && Ascii.eqb c2 "/"%char then
        let '(netloc, url) :=
          break (fun c => Ascii.eqb c "/"%char || Ascii.eqb c "?"%char
                          || Ascii.eqb c "#"%char) rest in
        if xorb (has "["%char netloc) (has "]"%char netloc) then Raise ValueError
        else if has "["%char netloc && negb (_check_bracketed_netloc netloc)
        then Raise ValueError
        else split_rest (Str.of_chars netloc) url
      else split_rest "" url
  | _ => split_rest "" url
  end.

Definition _splitparams (url : list ascii) : list ascii * list ascii :=
  if has "/"%char url then
    let last_seg := after_last "/"%char url in
    let head := firstn (length url - length last_seg) url in
    match partition ";"%char last_seg with
    | (a, true, b) => (head ++ a, b)
    | (_, false, _) => (url, [])
    end
  else
    match partition ";"%char url with
    | (a, _, b) => (a, b)
    end.

Definition urlparse (url scheme0 : string) : py_result parse_result :=
  match urlsplit url scheme0 with
  | Raise e => Raise e
  | Ok r =>
      let '(url, params) :=
        if mem (sr_scheme r) uses_params && has ";"%char (Str.chars (sr_url r))
        then _splitparams (Str.chars (sr_url r))
        else (Str.chars (sr_url r), []) in
      Ok (ParseResult (sr_scheme r) (sr_netloc r) (Str.of_chars url)
            (Str.of_chars params) (sr_query r) (sr_fragment r))
  end.

Definition nonempty (s : string) : bool := negb (String.eqb s "").

Definition urlunsplit (scheme netloc url query fragment : string) : string :=
  let url :=
    if nonempty netloc
       || (nonempty scheme && mem scheme uses_netloc && negb (Str.startswith "//" url))
    then
      let url := if nonempty url && negb (Str.startswith "/" url)
                 then String.append "/" url else url in
      String.append "//" (String.append netloc url)
    else url in
  let url := if nonempty scheme
             then String.append scheme (String.append ":" url) else url in
  let url := if nonempty query
             then String.append url (String.append "?" query) else url in
  if nonempty fragment then String.append url (String.append "#" fragment) else url.

Definition urlunparse (p : parse_result) : string :=
  let url := if nonempty (params p)
             then String.append (path p) (String.append ";" (params p))
             else path p in
  urlunsplit (scheme p) (netloc p) url (query p) (fragment p).

(** [segments[1:-1] = filter(None, segments[1:-1])] *)
Definition drop_inner_empty (segments : list string) : list string :=
  match segments with
  | first :: rest =>
      match rev rest with
      | last :: inner_rev =>
          first :: List.filter nonempty (rev inner_rev) ++ [last]
      | [] => segments
      end
  | [] => []
  end.

(** The loop over the segments; [resolved_path] is kept reversed. *)
Fixpoint resolve (segments : list string) (resolved_rev : list string) : list string :=
  match segments with
  | [] => rev resolved_rev
  | seg :: segments' =>
      if String.eqb seg ".." then resolve segments' (tail resolved_rev)
      else if String.eqb seg "." then resolve segments' resolved_rev
      else resolve segments' (seg :: resolved_rev)
  end.

Definition urljoin (base url : string) : py_result string :=
  if String.eqb base "" then Ok url
  else if String.eqb url "" then Ok base
  else
    match urlparse base "" with
    | Raise e => Raise e
    | Ok b =>
        match urlparse url (scheme b) with
        | Raise e => Raise e
        | Ok u =>
            if negb (String.eqb (scheme u) (scheme b))
               || negb (mem (scheme u) uses_relative)
            then Ok url
            else if mem (scheme u) uses_netloc && nonempty (netloc u)
            then Ok (urlunparse u)
            else
              let netloc' := if mem (scheme u) uses_netloc then netloc b else netloc u in
              if negb (nonempty (path u)) && negb (nonempty (params u)) then
                Ok (urlunparse
                      (ParseResult (scheme u) netloc' (path b) (params b)
                         (if nonempty (query u) then query u else query b)
                         (fragment u)))
              else
                let base_parts := Str.split "/"%char (path b) in
                let base_parts :=
                  match rev base_parts with
                  | last :: others => if nonempty last then rev others else base_parts
                  | [] => base_parts
                  end in
                let segments :=
                  if Str.startswith "/" (path u) then Str.split "/"%char (path u)
                  else drop_inner_empty (base_parts ++ Str.split "/"%char (path u)) in
                let resolved_path := resolve segments [] in
                let resolved_path :=
                  match rev segments with
                  | last :: _ =>
                      if String.eqb last "." || String.eqb last ".."
                      then resolved_path ++ [""] else resolved_path
                  | [] => resolved_path
                  end in
                let joined := String.concat "/" resolved_path in
                Ok (urlunparse
                      (ParseResult (scheme u) netloc'
                         (if nonempty joined then joined else "/")
                         (params u) (query u) (fragment u)))
        end
    end.

End WithIpLiterals.

End Urllib.

Open Scope string_scope.
Open Scope list_scope.

(** ** Data model *)

Record Article := mkArticle {
  title : string;
  snippet : string;
  author : string;
  publication : string;
  date : string;
  claps : Z;
  responses : Z;
  url : string;
  extracted_at : string }.

(** [[a.url for a in articles]] *)
Definition urls_of (articles : list Article) : list string := List.map url articles.

(** The content of [checkpoint.json]. *)
Record Checkpoint := mkCheckpoint {
  cp_timestamp : string;
  cp_total_articles : nat;
  cp_scraped_urls : list string;
  cp_articles : list Article }.

Inductive file_state :=
  | Missing                    (* no file *)
  | Corrupt                    (* a file that does not load *)
  | Stored (cp : Checkpoint).

(** One article element as the page driver shows it: for each selector the
    matched descendant, if any, with the text or attribute read from it. *)
Record Element := mkElement {
  el_title : option string;
  el_snippet : option string;
  el_author : option (string * option string);   (* inner text, href *)
  el_publication : option string;
  el_date : option (option string * string);     (* datetime, inner text *)
  el_claps : option string;
  el_responses : option string;
  el_link : option (option string) }.            (* [data-href]: its data-href *)

(** A rendered node: its element, and what the driver raises, if anything,
    when the node is probed and when its fields are read. *)
Record Node := mkNode {
  node_el : Element;
  probe_fault : option pyexn;
  extract_fault : option pyexn }.

Inductive event :=
  | EvInitBrowser
  | EvNavigate
  | EvQuery (count : nat)
  | EvExtract (result : option string)      (* the url of the record made *)
  | EvProgress (articles : list Article)
  | EvCheckpoint (cp : Checkpoint)
  | EvScroll (fast : bool)
  | EvSummary
  | EvCleanup.

(** The scraper object and the outside it acts on. *)
Record World := mkWorld {
  save_interval : nat;
  scraped_urls : gset string;
  checkpoint_file : file_state;
  events : list event }.

(** The page driver and the clock, scripted. *)
Record Env := mkEnv {
  env_now : string;
  env_init : option pyexn;
  env_nav : py_result bool;
  env_feed : nat -> py_result (list Node);
  env_scroll : nat -> option pyexn }.

Definition log (e : event) (w : World) : World :=
  mkWorld (save_interval w) (scraped_urls w) (checkpoint_file w) (events w ++ [e]).

Definition record_url (u : string) (w : World) : World :=
  mkWorld (save_interval w) ({[ u ]} ∪ scraped_urls w) (checkpoint_file w) (events w).

Definition site_origin : string := "https://medium.com".

(** The url the scroll loop computes before extraction. *)
Definition probe_url (data_href : string) : string :=
  if Str.startswith "/" data_href then site_origin +:+ data_href
  else if Str.startswith "http" data_href then data_href
  else site_origin +:+ "/" +:+ data_href.

(** [if data_href:] on an attribute that may be absent. *)
Definition truthy (a : option string) : option string :=
  match a with
  | Some s => if String.eqb s "" then None else Some s
  | None => None
  end.

(** The [data-href] of the node, when there is a link container with a
    non-empty attribute. *)
Definition data_href_of (el : Element) : option string :=
  match el_link el with
  | Some a => truthy a
  | None => None
  end.

Inductive StopReason :=
  | ActualEnd      (* no new elements loaded for 10 scrolls *)
  | NoArticles     (* no articles could be extracted *)
  | ScrollLimit    (* scroll limit, may not have reached the end *)
  | MaxAttempts.   (* the while condition on scroll_attempts *)

Inductive loop_end :=
  | Halted (r : StopReason)
  | Raised (e : pyexn)
  | OutOfFuel.

Record LoopState := mkLoop {
  articles_found : list Article;
  consecutive_no_new_content : nat;
  consecutive_all_known_content : nat;
  consecutive_no_scroll_progress : nat;
  scroll_attempts : nat;
  last_article_count : nat }.

Record Tally := mkTally {
  articles_extracted : nat;
  articles_already_known : nat;
  articles_failed : nat }.

Definition max_consecutive_empty : nat := 5.
Definition max_scroll_attempts : nat := 5000.
Definition no_progress_limit : nat := 10.

(** [max(200, existing_count // 15 + 100)] *)
Definition dynamic_limit (existing_count : nat) : nat :=
  Nat.max 200 (existing_count / 15 + 100).

Section Scraper.

(** [urllib.parse.urljoin] *)
Variable urljoin : string -> string -> py_result string.


(** *** [MediumScraper._extract_article_data] *)

(** The url part of the extractor. *)
Definition extract_url (data_href : string) : py_result string :=
  if Str.startswith "/" data_href then Ok (site_origin +:+ data_href)
  else if Str.startswith "http" data_href then Ok data_href
  else urljoin site_origin data_href.

Definition text_or (default : string) (t : option string) : string :=
  Str.strip (match t with Some s => s | None => default end).

Definition author_of (a : option (string * option string)) : string :=
  match a with
  | None => ""
  | Some (text, href) =>
      let author_text := Str.strip text in
      let author_href := match href with Some h => h | None => "" end in
      if Str.contains "@"%char author_href then author_text
      else if String.eqb author_text "" then ""
      else match Str.split nl author_text with
           | first :: _ => first
           | [] => ""
           end
  end.

Definition date_of (d : option (option string * string)) : string :=
  match d with
  | None => ""
  | Some (date_attr, date_text) =>
      match truthy date_attr with
      | Some a => a
      | None => Str.strip date_text
      end
  end.

(** The body of the [try]: the fields in the order the code reads them. *)
Definition extract_fields (now : string) (el : Element) : py_result Article :=
  let title := text_or "No title" (el_title el) in
  let snippet := text_or "" (el_snippet el) in
  let author := author_of (el_author el) in
  let publication := text_or "" (el_publication el) in
  let date := date_of (el_date el) in
  let claps := match el_claps el with
               | Some t => _parse_claps (Str.strip t)
               | None => 0%Z
               end in
  match (match el_responses el with
         | Some t => _parse_number (Str.strip t)
         | None => Ok 0%Z
         end) with
  | Raise e => Raise e
  | Ok responses =>
      match (match data_href_of el with
             | Some data_href => extract_url data_href
             | None => Ok ""
             end) with
      | Raise e => Raise e
      | Ok u =>
          Ok (mkArticle title snippet author publication date claps responses u now)
      end
  end.

(** [None] is the extraction failure; only what is not an [Exception]
    leaves the function. *)
Definition _extract_article_data (env : Env) (n : Node) (w : World)
  : py_result (option Article) * World :=
  match (match extract_fault n with
         | Some e => Raise e
         | None => extract_fields (env_now env) (node_el n)
         end) with
  | Ok a => (Ok (Some a), log (EvExtract (Some (url a))) (record_url (url a) w))
  | Raise e =>
      if is_Exception e then (Ok None, log (EvExtract None) w)
      else (Raise e, log (EvExtract None) w)
  end.

(** *** The checkpoint manager *)

Definition _save_progress (articles : list Article) (w : World) : World :=
  match articles with
  | [] => w
  | _ => log (EvProgress articles) w
  end.

Definition checkpoint_data (env : Env) (articles : list Article) (w : World) : Checkpoint :=
  mkCheckpoint (env_now env) (length articles) (elements (scraped_urls w)) articles.

Definition _save_checkpoint (env : Env) (articles : list Article) (w : World) : World :=
  let cp := checkpoint_data env articles w in
  mkWorld (save_interval w) (scraped_urls w) (Stored cp) (events w ++ [EvCheckpoint cp]).

Definition _load_checkpoint (w : World) : list Article * World :=
  match checkpoint_file w with
  | Missing => ([], w)
  | Corrupt => ([], w)
  | Stored cp =>
      (cp_articles cp,
       mkWorld (save_interval w) (list_to_set (cp_scraped_urls cp))
         (checkpoint_file w) (events w))
  end.

(** *** [MediumScraper._scroll_and_load_content] *)

(** The state of the [for] loop over the rendered nodes. *)
Definition batch : Type := World * list Article * Tally.

Definition count_failed (t : Tally) : Tally :=
  mkTally (articles_extracted t) (articles_already_known t) (S (articles_failed t)).
Definition count_known (t : Tally) : Tally :=
  mkTally (articles_extracted t) (S (articles_already_known t)) (articles_failed t).
Definition count_extracted (t : Tally) : Tally :=
  mkTally (S (articles_extracted t)) (articles_already_known t) (articles_failed t).

(** Whether the probe finds the node known. *)
Definition probed_known (n : Node) (w : World) : bool :=
  match data_href_of (node_el n) with
  | Some data_href => bool_decide (probe_url data_href ∈ scraped_urls w)
  | None => false
  end.

(** One turn of the [for] loop; [Some e] is an exception leaving it. *)
Definition process_node (env : Env) (n : Node) (b : batch) : option pyexn * batch :=
  let '(w, found, t) := b in
  match probe_fault n with
  | Some e =>
      if is_Exception e then (None, (w, found, count_failed t))
      else (Some e, b)
  | None =>
      if probed_known n w then (None, (w, found, count_known t))
      else
        match _extract_article_data env n w with
        | (Raise e, w') =>
            if is_Exception e then (None, (w', found, count_failed t))
            else (Some e, (w', found, t))
        | (Ok None, w') => (None, (w', found, count_failed t))
        | (Ok (Some article_data), w') =>
            if bool_decide (url article_data ∈ urls_of found)
            then (None, (w', found, count_failed t))
            else (None, (w', found ++ [article_data], count_extracted t))
        end
  end.

Fixpoint process_nodes (env : Env) (nodes : list Node) (b : batch) : option pyexn * batch :=
  match nodes with
  | [] => (None, b)
  | n :: nodes' =>
      match process_node env n b with
      | (None, b') => process_nodes env nodes' b'
      | (Some e, b') => (Some e, b')
      end
  end.

(** The counter of iterations without a new element. *)
Definition update_no_progress (current_count : nat) (ls : LoopState) : LoopState :=
  if (current_count =? last_article_count ls)%nat
  then mkLoop (articles_found ls) (consecutive_no_new_content ls)
         (consecutive_all_known_content ls)
         (S (consecutive_no_scroll_progress ls)) (scroll_attempts ls)
         (last_article_count ls)
  else mkLoop (articles_found ls) (consecutive_no_new_content ls)
         (consecutive_all_known_content ls) 0 (scroll_attempts ls) current_count.

(** "Smart stopping logic": the two other counters. *)
Definition update_counters (new_articles_count known : nat) (ls : LoopState) : LoopState :=
  if (new_articles_count =? 0)%nat then
    if (0 <? known)%nat
    then mkLoop (articles_found ls) 0 (S (consecutive_all_known_content ls))
           (consecutive_no_scroll_progress ls) (scroll_attempts ls)
           (last_article_count ls)
    else mkLoop (articles_found ls) (S (consecutive_no_new_content ls)) 0
           (consecutive_no_scroll_progress ls) (scroll_attempts ls)
           (last_article_count ls)
  else mkLoop (articles_found ls) 0 0 (consecutive_no_scroll_progress ls)
         (scroll_attempts ls) (last_article_count ls).

(** "Check if we've reached the end": the [if]/[elif] chain of breaks. *)
Definition stop_check (max_consecutive_all_known : nat) (ls : LoopState) : option StopReason :=
  if (no_progress_limit <=? consecutive_no_scroll_progress ls)%nat then Some ActualEnd
  else if (max_consecutive_empty <=? consecutive_no_new_content ls)%nat then Some NoArticles
  else if (max_consecutive_all_known <=? consecutive_all_known_content ls)%nat
  then Some ScrollLimit
  else None.

(** The condition of the [while]. *)
Definition while_cond (max_consecutive_all_known : nat) (ls : LoopState) : bool :=
  (consecutive_no_new_content ls <? max_consecutive_empty)%nat
  && (consecutive_all_known_content ls <? max_consecutive_all_known)%nat
  && (scroll_attempts ls <? max_scroll_attempts)%nat.

Definition with_found (found : list Article) (ls : LoopState) : LoopState :=
  mkLoop found (consecutive_no_new_content ls) (consecutive_all_known_content ls)
    (consecutive_no_scroll_progress ls) (scroll_attempts ls) (last_article_count ls).

Definition next_attempt (ls : LoopState) : LoopState :=
  mkLoop (articles_found ls) (consecutive_no_new_content ls)
    (consecutive_all_known_content ls) (consecutive_no_scroll_progress ls)
    (S (scroll_attempts ls)) (last_article_count ls).

Inductive iter_end :=
  | Continue
  | Break (r : StopReason)
  | Throw (e : pyexn).

(** The two saves at the end of an iteration. *)
Definition save_steps (env : Env) (new_articles_count : nat) (found : list Article)
    (w : World) : option pyexn * World :=
  match save_interval w with
  | O => (Some ZeroDivisionError, w)
  | S _ =>
      let w := if (length found mod save_interval w =? 0)%nat
               then _save_progress found w else w in
      let w := if (0 <? new_articles_count)%nat && (0 <? length found)%nat
               then _save_checkpoint env found w else w in
      (None, w)
  end.

(** The body of the [while]. *)
Definition scroll_iteration (env : Env) (max_consecutive_all_known : nat)
    (w : World) (ls : LoopState) : iter_end * World * LoopState :=
  match env_feed env (scroll_attempts ls) with
  | Raise e => (Throw e, w, ls)
  | Ok current_articles =>
      let w := log (EvQuery (length current_articles)) w in
      let initial_count := length (articles_found ls) in
      match process_nodes env current_articles (w, articles_found ls, mkTally 0 0 0) with
      | (Some e, (w, found, _)) => (Throw e, w, with_found found ls)
      | (None, (w, found, t)) =>
          let ls := with_found found ls in
          let new_articles_count := (length found - initial_count)%nat in
          let ls := update_no_progress (length current_articles) ls in
          let ls := update_counters new_articles_count (articles_already_known t) ls in
          match save_steps env new_articles_count found w with
          | (Some e, w) => (Throw e, w, ls)
          | (None, w) =>
              match stop_check max_consecutive_all_known ls with
              | Some r => (Break r, w, ls)
              | None =>
                  let ls := next_attempt ls in
                  let fast := (0 <? articles_already_known t)%nat
                              && (articles_extracted t =? 0)%nat in
                  let w := log (EvScroll fast) w in
                  match env_scroll env (scroll_attempts ls) with
                  | Some e =>
                      if is_Exception e then (Continue, w, ls) else (Throw e, w, ls)
                  | None => (Continue, w, ls)
                  end
              end
          end
      end
  end.

Fixpoint scroll_loop (fuel : nat) (env : Env) (max_consecutive_all_known : nat)
    (w : World) (ls : LoopState) : loop_end * World * LoopState :=
  if while_cond max_consecutive_all_known ls then
    match fuel with
    | O => (OutOfFuel, w, ls)
    | S fuel' =>
        match scroll_iteration env max_consecutive_all_known w ls with
        | (Continue, w', ls') => scroll_loop fuel' env max_consecutive_all_known w' ls'
        | (Break r, w', ls') => (Halted r, w', ls')
        | (Throw e, w', ls') => (Raised e, w', ls')
        end
    end
  else (Halted MaxAttempts, w, ls).

(** The counters start at zero; each turn of the [while] that goes on adds
    one to [scroll_attempts], so [max_scroll_attempts] turns are enough. *)
Definition _scroll_and_load_content (env : Env) (existing_articles : list Article)
    (w : World) : loop_end * World * LoopState :=
  let articles_found := existing_articles in
  let existing_count := length articles_found in
  scroll_loop max_scroll_attempts env (dynamic_limit existing_count) w
    (mkLoop articles_found 0 0 0 0 0).

(** *** [MediumScraper.scrape_list] and [main] *)

Definition _navigate_to_list (env : Env) (w : World) : py_result bool * World :=
  let w := log EvNavigate w in
  match env_nav env with
  | Ok b => (Ok b, w)
  | Raise e => if is_Exception e then (Ok false, w) else (Raise e, w)
  end.

(** "Merge with existing articles (avoid duplicates)" *)
Definition merge (articles scraped_articles : list Article) : list Article :=
  let existing_urls : gset string := list_to_set (urls_of articles) in
  let new_articles :=
    List.filter (fun a => negb (bool_decide (url a ∈ existing_urls))) scraped_articles in
  articles ++ new_articles.

Definition _generate_summary (articles : list Article) (w : World) : World :=
  match articles with
  | [] => w
  | _ => log EvSummary w
  end.

(** The body of the [try] of [scrape_list]. *)
Definition session (env : Env) (articles : list Article) (w : World)
  : py_result (list Article) * World :=
  let w := log EvInitBrowser w in
  match env_init env with
  | Some e => (Raise e, w)
  | None =>
      match _navigate_to_list env w with
      | (Raise e, w) => (Raise e, w)
      | (Ok false, w) => (Ok articles, w)
      | (Ok true, w) =>
          match _scroll_and_load_content env articles w with
          | (Raised e, w, _) => (Raise e, w)
          | (OutOfFuel, w, _) => (Raise CancelledError, w)   (* never: [scroll_loop_fuel] *)
          | (Halted _, w, ls) =>
              let articles := merge articles (articles_found ls) in
              let w := _save_progress articles w in
              let w := _save_checkpoint env articles w in
              let w := _generate_summary articles w in
              (Ok articles, w)
          end
      end
  end.

Definition _cleanup (w : World) : World := log EvCleanup w.

(** [except Exception] logs and raises again, [finally] cleans up. *)
Definition scrape_list (env : Env) (resume : bool) (w : World)
  : py_result (list Article) * World :=
  let '(articles, w) := if resume then _load_checkpoint w else ([], w) in
  let '(r, w) := session env articles w in
  (r, _cleanup w).

Inductive exit_message :=
  | Completed (total : nat)
  | InterruptedByUser
  | Failed.

(** A fresh scraper with the settings of [main]. *)
Definition fresh_scraper (file : file_state) : World := mkWorld 50 ∅ file [].

(** [main] prints one of three messages, or lets the exception through. *)
Definition main (env : Env) (file : file_state) : py_result exit_message * World :=
  match scrape_list env true (fresh_scraper file) with
  | (Ok articles, w) => (Ok (Completed (length articles)), w)
  | (Raise KeyboardInterrupt, w) => (Ok InterruptedByUser, w)
  | (Raise e, w) => if is_Exception e then (Ok Failed, w) else (Raise e, w)
  end.

End Scraper.

Arguments max_scroll_attempts : simpl never.
Arguments max_consecutive_empty : simpl never.
Arguments no_progress_limit : simpl never.
Arguments process_node : simpl never.
Arguments scroll_iteration : simpl never.
Arguments _extract_article_data : simpl never.
Arguments save_steps : simpl never.

(** * Sample inputs *)

(** [int_literal_ok]-independent instance of the library. *)
Definition urljoin_with (ip_literal_ok : string -> bool) : string -> string -> py_result string :=
  Urllib.urljoin ip_literal_ok.

(** A one followed by 309 zeros: more than the largest binary64 number. *)
Definition huge_count : string := "1" +:+ Str.of_chars (repeat "0"%char 309).


(** A node with a title and a [data-href], read without faults. *)
Definition plain_node (href : string) : Node :=
  mkNode (mkElement (Some "A title") None None None None None None (Some (Some href)))
    None None.

(** A node without link container. *)
Definition unlinked_node : Node :=
  mkNode (mkElement (Some "A title") None None None None None None None) None None.


Definition quiet_env (feed : nat -> py_result (list Node)) : Env :=
  mkEnv "2025-01-01T00:00:00" None (Ok true) feed (fun _ => None).

Definition url_a : string := "https://medium.com/a".
Definition article_a : Article := mkArticle "A title" "" "" "" "" 0 0 url_a "2024-12-31T00:00:00".

(** A scraper that has [article_a] in its ledger. *)
Definition world_a : World := mkWorld 50 {[ url_a ]} Missing [].

(** The same known node at every iteration. *)
Definition static_env : Env := quiet_env (fun _ => Ok [plain_node "/a"]).

(** The known node once or twice, in turn. *)
Definition alternating_env : Env :=
  quiet_env (fun k => Ok (if Nat.even k then [plain_node "/a"]
                          else [plain_node "/a"; plain_node "/a"])).

(** The library with every bracketed host taken for an IP literal. *)
Definition sample_urljoin : string -> string -> py_result string :=
  urljoin_with (fun _ => true).

(** One known node and a loop state at its first iteration. *)
Definition first_iteration : LoopState := mkLoop [article_a] 0 0 0 0 0.

(** The same unlinked node at every iteration. *)
Definition unlinked_env : Env := quiet_env (fun _ => Ok [unlinked_node]).


(** The urls of the records made by the extractor, in the order of the
    calls. *)
Definition extracted_urls (evs : list event) : list string :=
  omap (fun e => match e with EvExtract (Some u) => Some u | _ => None end) evs.

Definition checkpoints_written (evs : list event) : list Checkpoint :=
  omap (fun e => match e with EvCheckpoint cp => Some cp | _ => None end) evs.

(** The record the extractor makes of a node, if it makes one. *)
Definition record_of (urljoin : string -> string -> py_result string) (env : Env)
    (n : Node) : option Article :=
  match extract_fault n with
  | Some _ => None
  | None =>
      match extract_fields urljoin (env_now env) (node_el n) with
      | Ok a => Some a
      | Raise _ => None
      end
  end.

(** The records of a snapshot, in the order of the nodes. *)
Definition records_of (urljoin : string -> string -> py_result string) (env : Env)
    (nodes : list Node) : list Article :=
  omap (record_of urljoin env) nodes.

(** The same new node rendered twice in one snapshot. *)
Definition doubled_snapshot : list Node := [plain_node "/n1"; plain_node "/n1"].

(** The state after a first pass over [doubled_snapshot]. *)
Definition after_first_pass : batch :=
  (process_nodes sample_urljoin static_env doubled_snapshot
     (fresh_scraper Missing, [], mkTally 0 0 0)).2.



(** The loop over the unlinked node. *)
Definition unlinked_loop : loop_end * World * LoopState :=
  _scroll_and_load_content sample_urljoin unlinked_env [] (fresh_scraper Missing).

(** * Further predicates and samples *)

(** The floats that are not negative. *)
Definition float_nonneg (x : Float.t) : Prop :=
  match x with
  | Float.Finite m _ => (0 <= m)%Z
  | Float.Inf => True
  end.

(** The unit letters and what they multiply by. *)
Definition unit_factor (c : ascii) : option Z :=
  if Ascii.eqb c "K" || Ascii.eqb c "k" then Some 1000%Z
  else if Ascii.eqb c "M" || Ascii.eqb c "m" then Some 1000000%Z
  else None.

(** [p/q < 2^k] *)
Definition lt_pow2 (p q k : Z) : Prop :=
  if (0 <=? k)%Z then (p < q * 2 ^ k)%Z else (p * 2 ^ (- k) < q)%Z.

(** The floats a text of at most 300 characters can denote. *)
Definition float_small (x : Float.t) : Prop :=
  match x with
  | Float.Finite m e => (0 <= m <= 2 ^ 53)%Z /\ (e <= 945)%Z
  | Float.Inf => False
  end.


(** A node whose faults, if any, are ordinary exceptions. *)
Definition benign_node (n : Node) : Prop :=
  (forall e, probe_fault n = Some e -> is_Exception e = true)
  /\ (forall e, extract_fault n = Some e -> is_Exception e = true).

(** A library that raises ordinary exceptions only. *)
Definition benign_urljoin (urljoin : string -> string -> py_result string) : Prop :=
  forall base u e, urljoin base u = Raise e -> is_Exception e = true.

(** The nodes counted by the three counters of an iteration. *)
Definition tally_total (t : Tally) : nat :=
  (articles_extracted t + articles_already_known t + articles_failed t)%nat.

(** What a step that does not touch the checkpoint leaves as it was. *)
Definition file_untouched (w w' : World) : Prop :=
  checkpoint_file w' = checkpoint_file w
  /\ save_interval w' = save_interval w
  /\ checkpoints_written (events w') = checkpoints_written (events w).

(** The checkpoint holds the list, or there is nothing new to hold. *)
Definition saved_or_unchanged (w0 : World) (existing : list Article)
    (w : World) (found : list Article) : Prop :=
  (found = existing /\ checkpoint_file w = checkpoint_file w0)
  \/ (exists cp, checkpoint_file w = Stored cp /\ cp_articles cp = found).

(** A new node rendered again and again. *)
Definition repeating_env : Env := quiet_env (fun _ => Ok [plain_node "/n1"]).

(** Counting the calls made to the page driver. *)
Definition is_scroll (e : event) : bool :=
  match e with EvScroll _ => true | _ => false end.

Definition is_query (e : event) : bool :=
  match e with EvQuery _ => true | _ => false end.

Definition count_events (p : event -> bool) (w : World) : nat :=
  length (List.filter p (events w)).

(** A kind of event that only the loop itself logs. *)
Definition loop_event (p : event -> bool) : Prop :=
  (forall r, p (EvExtract r) = false)
  /\ (forall a, p (EvProgress a) = false)
  /\ (forall cp, p (EvCheckpoint cp) = false).

(** * Further code of [medium_scraper.py]: the statistics of [_generate_summary] *)

(** [sorted(l, key=key, reverse=True)]: stable, the largest key first. *)
Fixpoint insert_desc {A} (key : A -> Z) (x : A) (l : list A) : list A :=
  match l with
  | [] => [x]
  | y :: l' => if (key y <=? key x)%Z then x :: l else y :: insert_desc key x l'
  end.

Definition sorted_desc {A} (key : A -> Z) (l : list A) : list A :=
  fold_right (insert_desc key) [] l.

(** [counts[k] = counts.get(k, 0) + 1], the dictionary kept in insertion
    order. *)
Fixpoint bump (k : string) (counts : list (string * Z)) : list (string * Z) :=
  match counts with
  | [] => [(k, 1%Z)]
  | (k', n) :: rest =>
      if String.eqb k' k then (k', (n + 1)%Z) :: rest else (k', n) :: bump k rest
  end.

(** One turn of the loop that fills [author_counts]: [if article.author:]. *)
Definition count_author (counts : list (string * Z)) (article : Article)
  : list (string * Z) :=
  if String.eqb (author article) "" then counts else bump (author article) counts.

Definition author_counts (articles : list Article) : list (string * Z) :=
  fold_left count_author articles [].

Definition total_articles (articles : list Article) : nat := length articles.

(** [len(set(article.author for article in articles if article.author))] *)
Definition unique_authors (articles : list Article) : nat :=
  size (list_to_set (List.filter (fun s => negb (String.eqb s ""))
                       (List.map author articles)) : gset string).

(** [sorted(author_counts.items(), key=lambda x: x[1], reverse=True)[:10]] *)
Definition top_authors (articles : list Article) : list (string * Z) :=
  firstn 10 (sorted_desc snd (author_counts articles)).

(** [sorted(articles, key=lambda x: x.claps, reverse=True)[:10]] *)
Definition top_claps (articles : list Article) : list Article :=
  firstn 10 (sorted_desc claps articles).

(** Largest key first: no entry has a larger key than an entry before it. *)
Fixpoint descending {A} (key : A -> Z) (l : list A) : Prop :=
  match l with
  | [] => True
  | x :: l' => Forall (fun y => (key y <= key x)%Z) l' /\ descending key l'
  end.

(** [counts.get(k, 0)] *)
Fixpoint count_of (k : string) (counts : list (string * Z)) : Z :=
  match counts with
  | [] => 0%Z
  | (k', n) :: rest => if String.eqb k' k then n else count_of k rest
  end.

(** The number of articles of an author. *)
Definition articles_by (k : string) (articles : list Article) : Z :=
  Z.of_nat (length (List.filter (fun a => String.eqb (author a) k) articles)).

(** Four articles: two by Ada, one by Bob, one unsigned. *)
Definition sample_records : list Article :=
  [mkArticle "t1" "" "Ada" "" "" 5 0 "u1" "";
   mkArticle "t2" "" "" "" "" 9 1 "u2" "";
   mkArticle "t3" "" "Bob" "" "" 9 2 "u3" "";
   mkArticle "t4" "" "Ada" "" "" 1 0 "u4" ""].

(** [sum(n for _, n in counts)] *)
Definition total_count (counts : list (string * Z)) : Z :=
  fold_right Z.add 0%Z (List.map snd counts).

(** The number of articles that have an author. *)
Definition signed_articles (articles : list Article) : Z :=
  Z.of_nat (length (List.filter (fun a => negb (String.eqb (author a) "")) articles)).

(** * Further code of [utils.py] *)

(** ** More of [str] and [re] *)

Module Text.

(** [str.lower], on Latin-1: the letters A-Z and the accented capitals
    (all of U+00C0..U+00DE but the multiplication sign) move by 32. *)
Definition lower_char (c : ascii) : ascii :=
  let n := Str.code c in
  if ((65 <=? n)%Z && (n <=? 90)%Z)
     || ((192 <=? n)%Z && (n <=? 222)%Z && negb (n =? 215)%Z)
  then ascii_of_N (Z.to_N (n + 32)) else c.

Definition lower (s : string) : string :=
  Str.of_chars (List.map lower_char (Str.chars s)).

(** [s.split()]: the maximal runs of characters that are not whitespace. *)
Fixpoint words (l : list ascii) : list (list ascii) :=
  match l with
  | [] => []
  | c :: l' =>
      if Str.is_space c then words l'
      else match l' with
           | d :: _ =>
               if Str.is_space d then [c] :: words l'
               else match words l' with
                    | w :: ws => (c :: w) :: ws
                    | [] => [[c]]
                    end
           | [] => [[c]]
           end
  end.

(** [' '.join(ws)] *)
Fixpoint join (ws : list (list ascii)) : list ascii :=
  match ws with
  | [] => []
  | w :: ws' =>
      match ws' with
      | [] => w
      | _ :: _ => w ++ " "%char :: join ws'
      end
  end.

(** [re.sub(r'C+', ' ', s)] for a character class [C]: every maximal run of
    characters of the class becomes one space. *)
Fixpoint squeeze (p : ascii -> bool) (l : list ascii) : list ascii :=
  match l with
  | [] => []
  | c :: l' =>
      if p c then
        match l' with
        | d :: _ => if p d then squeeze p l' else " "%char :: squeeze p l'
        | [] => [" "%char]
        end
      else c :: squeeze p l'
  end.

(** [s[:n]] *)
Definition slice_to (n : Z) (l : list ascii) : list ascii :=
  if (0 <=? n)%Z then firstn (Z.to_nat n) l
  else firstn (length l - Z.to_nat (- n)) l.

(** What is before the last [sep], when there is one. *)
Fixpoint before_last (sep : ascii) (l : list ascii) : option (list ascii) :=
  match l with
  | [] => None
  | c :: l' =>
      match before_last sep l' with
      | Some h => Some (c :: h)
      | None => if Ascii.eqb c sep then Some [] else None
      end
  end.

(** [s.rsplit(sep, 1)[0]] *)
Definition rsplit_head (sep : ascii) (l : list ascii) : list ascii :=
  match before_last sep l with
  | Some h => h
  | None => l
  end.

End Text.

(** ** [utils.clean_text] *)

(** The class [[\r\n\t]] *)
Definition is_line_break (c : ascii) : bool :=
  (Str.code c =? 13)%Z || (Str.code c =? 10)%Z || (Str.code c =? 9)%Z.

(** [if max_length and len(cleaned) > max_length] *)
Definition too_long (max_length : option Z) (cleaned : list ascii) : bool :=
  match max_length with
  | Some n => negb (n =? 0)%Z && (n <? Z.of_nat (length cleaned))%Z
  | None => false
  end.

Definition clean_text (text : string) (max_length : option Z) : string :=
  if String.eqb text "" then ""
  else
    let cleaned := Text.join (Text.words (Str.chars text)) in
    let cleaned := Text.squeeze Str.is_space cleaned in
    let cleaned := Text.squeeze is_line_break cleaned in
    let cleaned := Str.strip_chars cleaned in
    match max_length with
    | Some n =>
        if too_long max_length cleaned
        then Str.of_chars (Text.rsplit_head " " (Text.slice_to n cleaned)) +:+ "..."
        else Str.of_chars cleaned
    | None => Str.of_chars cleaned
    end.

(** A word: a non-empty run of characters none of which is whitespace. *)
Definition is_word (w : list ascii) : Prop :=
  w <> [] /\ forallb (fun c => negb (Str.is_space c)) w = true.

(** ** The library: [hashlib.sha256]

    SHA-256 (FIPS 180-4) over the UTF-8 encoding of a Latin-1 text, with
    32-bit words as numbers below [2^32]. *)

Module Sha256.

Definition w32 (x : Z) : Z := Z.land x 4294967295.

Definition add32 (x y : Z) : Z := w32 (x + y).

Definition rotr (n x : Z) : Z :=
  Z.lor (Z.shiftr x n) (w32 (Z.shiftl x (32 - n))).

Definition ch (x y z : Z) : Z :=
  Z.lxor (Z.land x y) (Z.land (Z.lxor x 4294967295) z).

Definition maj (x y z : Z) : Z :=
  Z.lxor (Z.lxor (Z.land x y) (Z.land x z)) (Z.land y z).

Definition big_sigma0 (x : Z) : Z := Z.lxor (Z.lxor (rotr 2 x) (rotr 13 x)) (rotr 22 x).
Definition big_sigma1 (x : Z) : Z := Z.lxor (Z.lxor (rotr 6 x) (rotr 11 x)) (rotr 25 x).
Definition small_sigma0 (x : Z) : Z := Z.lxor (Z.lxor (rotr 7 x) (rotr 18 x)) (Z.shiftr x 3).
Definition small_sigma1 (x : Z) : Z := Z.lxor (Z.lxor (rotr 17 x) (rotr 19 x)) (Z.shiftr x 10).

(** The primes below [n]. *)
Definition is_prime (k : Z) : bool :=
  forallb (fun d => negb (k mod Z.of_nat d =? 0)%Z) (seq 2 (Z.to_nat k - 2)).

Definition primes_below (n : nat) : list Z :=
  List.filter is_prime (List.map Z.of_nat (seq 2 (n - 2))).

(** The integer cube root of a number below [2^108]. *)
Definition cube_root (x : Z) : Z :=
  fold_left
    (fun r b => let r' := (r + 2 ^ Z.of_nat b)%Z in
                if (r' * r' * r' <=? x)%Z then r' else r)
    (rev (seq 0 36)) 0%Z.

(** The first 32 bits of the fractional parts of the cube roots of the first
    64 primes. *)
Definition round_constants : list Z :=
  Eval vm_compute in
    List.map (fun p => w32 (cube_root (p * 2 ^ 96))) (primes_below 312).

(** The first 32 bits of the fractional parts of the square roots of the
    first 8 primes. *)
Definition initial_hash : list Z :=
  Eval vm_compute in
    List.map (fun p => w32 (Z.sqrt (p * 2 ^ 64))) (primes_below 20).

(** [s.encode('utf-8')] for a Latin-1 text. *)
Definition utf8 (s : string) : list Z :=
  List.flat_map
    (fun c => let n := Str.code c in
              if (n <? 128)%Z then [n]
              else [Z.lor 192 (Z.shiftr n 6); Z.lor 128 (Z.land n 63)])
    (Str.chars s).

(** The big-endian bytes of a number, [k] of them. *)
Fixpoint be_bytes (k : nat) (x : Z) : list Z :=
  match k with
  | O => []
  | S k' => Z.land (Z.shiftr x (8 * Z.of_nat k')) 255 :: be_bytes k' x
  end.

Definition padded (msg : list Z) : list Z :=
  let len := Z.of_nat (length msg) in
  let zeros := Z.to_nat ((55 - len) mod 64) in
  msg ++ [128%Z] ++ repeat 0%Z zeros ++ be_bytes 8 (8 * len).

(** The words of a list of bytes, four bytes to a word. *)
Fixpoint words_of (n : nat) (bytes : list Z) : list Z :=
  match n with
  | O => []
  | S n' =>
      match bytes with
      | a :: b :: c :: d :: rest =>
          (Z.lor (Z.shiftl a 24) (Z.lor (Z.shiftl b 16) (Z.lor (Z.shiftl c 8) d)))
          :: words_of n' rest
      | _ => []
      end
  end.

(** The message schedule, newest word first. *)
Fixpoint schedule (n : nat) (w_rev : list Z) : list Z :=
  match n with
  | O => w_rev
  | S n' =>
      let at_ (i : nat) := nth i w_rev 0%Z in
      schedule n'
        (add32 (add32 (small_sigma1 (at_ 1%nat)) (at_ 6%nat))
               (add32 (small_sigma0 (at_ 14%nat)) (at_ 15%nat)) :: w_rev)
  end.

Definition round (st : list Z) (kw : Z * Z) : list Z :=
  match st with
  | [a; b; c; d; e; f; g; h] =>
      let t1 := add32 (add32 (add32 h (big_sigma1 e)) (add32 (ch e f g) (fst kw))) (snd kw) in
      let t2 := add32 (big_sigma0 a) (maj a b c) in
      [add32 t1 t2; a; b; c; add32 d t1; e; f; g]
  | _ => st
  end.

Definition compress (h : list Z) (block : list Z) : list Z :=
  let w := rev (schedule 48 (rev block)) in
  let st := fold_left round (combine round_constants w) h in
  List.map (fun p => add32 (fst p) (snd p)) (combine h st).

Fixpoint blocks (n : nat) (ws : list Z) (h : list Z) : list Z :=
  match n with
  | O => h
  | S n' => blocks n' (skipn 16 ws) (compress h (firstn 16 ws))
  end.

Definition digest (msg : list Z) : list Z :=
  let bytes := padded msg in
  let ws := words_of (length bytes / 4) bytes in
  blocks (length ws / 16) ws initial_hash.

Definition hex_digit (x : Z) : ascii :=
  ascii_of_N (Z.to_N (if (x <? 10)%Z then 48 + x else 87 + x)).

(** The eight hexadecimal digits of a word. *)
Definition hex_word (x : Z) : list ascii :=
  List.map (fun i => hex_digit (Z.land (Z.shiftr x (4 * Z.of_nat i)) 15))
    [7; 6; 5; 4; 3; 2; 1; 0]%nat.

(** [hashlib.sha256(s.encode('utf-8')).hexdigest()] *)
Definition hexdigest (s : string) : string :=
  Str.of_chars (List.flat_map hex_word (digest (utf8 s))).

End Sha256.

(** [hashlib.sha256(content.encode('utf-8')).hexdigest()[:16]] *)
Definition sha256_hex16 (content : string) : string :=
  Str.of_chars (firstn 16 (Str.chars (Sha256.hexdigest content))).

(** ** [utils.generate_article_hash] and [utils.deduplicate_articles] *)

(** The values of an article dictionary: texts and numbers. *)
Inductive pyval :=
  | PStr (s : string)
  | PInt (n : Z).

Definition pyval_to_sum (v : pyval) : string + Z :=
  match v with PStr s => inl s | PInt n => inr n end.

Definition pyval_of_sum (x : string + Z) : pyval :=
  match x with inl s => PStr s | inr n => PInt n end.

#[global] Instance pyval_eq_dec : EqDecision pyval.
Proof. solve_decision. Defined.

#[global] Instance pyval_countable : Countable pyval :=
  inj_countable' pyval_to_sum pyval_of_sum
    (fun v => match v with PStr _ => eq_refl | PInt _ => eq_refl end).

(** An article dictionary. *)
Definition dict : Type := gmap string pyval.

(** [d.get(key, '')] *)
Definition dict_get (d : dict) (key : string) : pyval := default (PStr "") (d !! key).

(** The state of the loop of [deduplicate_articles]. *)
Record Seen := mkSeen {
  seen_urls : gset pyval;
  seen_hashes : gset string;
  unique_articles : list dict }.

(** [None] is the [AttributeError] of [.lower()] on a field that is not a
    text. *)
Definition generate_article_hash (title author url : pyval) : option string :=
  match title, author, url with
  | PStr title, PStr author, PStr url =>
      let content := Str.strip (Text.lower title) +:+ Str.strip (Text.lower author)
                     +:+ Str.strip (Text.lower url) in
      Some (sha256_hex16 content)
  | _, _, _ => None
  end.

(** The hash the loop computes for an article. *)
Definition content_hash (article : dict) : option string :=
  generate_article_hash (dict_get article "title") (dict_get article "author") (dict_get article "url").

(** One turn of the [for] loop. *)
Definition dedup_step (st : Seen) (article : dict) : option Seen :=
  let url := dict_get article "url" in
  if bool_decide (url ∈ seen_urls st) then Some st
  else
    match content_hash article with
    | None => None
    | Some h =>
        if bool_decide (h ∈ seen_hashes st) then Some st
        else Some (mkSeen ({[ url ]} ∪ seen_urls st) ({[ h ]} ∪ seen_hashes st)
                     (unique_articles st ++ [article]))
    end.

Fixpoint dedup_loop (articles : list dict) (st : Seen) : option Seen :=
  match articles with
  | [] => Some st
  | article :: rest =>
      match dedup_step st article with
      | Some st' => dedup_loop rest st'
      | None => None
      end
  end.

Definition deduplicate_articles (articles : list dict) : option (list dict) :=
  option_map unique_articles (dedup_loop articles (mkSeen ∅ ∅ [])).

(** The sets of the loop are those of the list it has built. *)
Definition seen_of (st : Seen) : Prop :=
  (forall u, u ∈ seen_urls st <-> exists a, a ∈ unique_articles st /\ dict_get a "url" = u)
  /\ (forall h, h ∈ seen_hashes st
                <-> exists a, a ∈ unique_articles st /\ content_hash a = Some h).

(** No url and no hash occurs twice in the list. *)
Definition distinct (l : list dict) : Prop :=
  forall i j a b, l !! i = Some a -> l !! j = Some b -> i <> j ->
                  dict_get a "url" <> dict_get b "url"
                  /\ content_hash a <> content_hash b.

(** Every field the function reads is a text, or is absent. *)
Definition text_fields (a : dict) : Prop :=
  exists t au u, dict_get a "title" = PStr t /\ dict_get a "author" = PStr au
                 /\ dict_get a "url" = PStr u.

(** Four articles: the second has the url of the first, the third its
    content up to case and outer blanks. *)
Definition article_one : dict :=
  {[ "title" := PStr "Proofs"; "author" := PStr "Ada";
     "url" := PStr "https://medium.com/p/1"; "claps" := PInt 12 ]}.

Definition article_two : dict :=
  {[ "title" := PStr "Proofs again"; "url" := PStr "https://medium.com/p/1" ]}.

Definition article_three : dict :=
  {[ "title" := PStr " PROOFS"; "author" := PStr "ada ";
     "url" := PStr "HTTPS://medium.com/p/1 " ]}.

Definition article_four : dict :=
  {[ "title" := PStr "Programs"; "author" := PStr "Ada";
     "url" := PStr "https://medium.com/p/2" ]}.

Definition sample_articles : list dict :=
  [article_one; article_two; article_three; article_four].

(** * Properties *)

(** The loop of [_scroll_and_load_content], its locals put in place. *)
Lemma scroll_and_load_content_unfold urljoin env existing w :
  _scroll_and_load_content urljoin env existing w
  = scroll_loop urljoin max_scroll_attempts env (dynamic_limit (length existing)) w
      (mkLoop existing 0 0 0 0 0).
Proof. reflexivity. Qed.

(** ** The numeric-field parser *)

Lemma parse_number_examples :
  parse_number "1.2K" = Ok 1200%Z /\ parse_number "5M" = Ok 5000000%Z
  /\ parse_number "" = Ok 0%Z /\ parse_number "abc" = Ok 0%Z
  /\ parse_number "123" = Ok 123%Z.
Proof. repeat split; vm_compute; reflexivity. Qed.

(** The product is a binary64 product, truncated: 1.005 * 1000 is a little
    less than 1005. *)
Lemma parse_number_rounds : parse_number "1.005K" = Ok 1004%Z.
Proof. vm_compute. reflexivity. Qed.

Lemma scaled_int_raises s k e : scaled_int s k = Raise e -> e = OverflowError.
Proof.
  unfold scaled_int. destruct (Float.of_string s) as [x|]; [|discriminate].
  destruct k as [k|]; [destruct (Float.mul_int x k)|destruct x];
    simpl; congruence.
Qed.

(** The only exception that leaves the parser is the [OverflowError] of
    [int] applied to an infinite float. *)
Lemma parse_number_raises_only_overflow text e :
  parse_number text = Raise e -> e = OverflowError.
Proof.
  unfold parse_number.
  repeat match goal with
         | |- context [if ?b then _ else _] => destruct b
         end; try discriminate; apply scaled_int_raises.
Qed.

(** C5: the parser is meant never to raise, yet on a numeric text beyond the
    range of binary64 the conversion [int(float(...))] raises
    [OverflowError], which the [except (ValueError, TypeError)] clause does
    not catch; both copies of the parser do so. *)
Theorem parse_number_overflow :
  parse_number huge_count = Raise OverflowError
  /\ _parse_number huge_count = Raise OverflowError
  /\ parse_number ("2" +:+ Str.of_chars (repeat "0"%char 306) +:+ "K") = Raise OverflowError.
Proof. repeat split; vm_compute; reflexivity. Qed.

(** ** The claps parser *)













(** ** URL resolution *)






Section UrlResolution.

Variable urljoin : string -> string -> py_result string.






(** On the two branches that do not go through the library the probe of the
    scroll loop and the extractor compute the same url. *)
Lemma probe_agrees_off_library h :
  Str.startswith "/" h || Str.startswith "http" h = true ->
  extract_url urljoin h = Ok (probe_url h).
Proof.
  unfold extract_url, probe_url. intros H.
  destruct (Str.startswith "/" h); [reflexivity|].
  simpl in H. rewrite H. reflexivity.
Qed.

End UrlResolution.




(** C10: the probe is meant to compute the url the extractor will compute,
    and where the extractor resolves through [urljoin] the probe only puts
    the origin and a slash in front: on a reference with a dot segment the
    two differ. *)
Theorem probe_differs_from_extractor :
  probe_url "./post" = "https://medium.com/./post"
  /\ (forall ok, extract_url (urljoin_with ok) "./post" = Ok "https://medium.com/post")
  /\ (forall ok, extract_url (urljoin_with ok) "./post" <> Ok (probe_url "./post")).
Proof.
  split; [reflexivity|].
  split; intros ok; vm_compute; [reflexivity|discriminate].
Qed.

(** ** Checkpoint round trip *)


(** ** The scroll-extraction loop as a transition system

    Whatever the loop does to the scraper, the files and the record list is
    a sequence of four kinds of steps. *)

Definition is_checkpoint (e : event) : bool :=
  match e with EvCheckpoint _ => true | _ => false end.

Inductive step : World * list Article -> World * list Article -> Prop :=
  | step_log w f e :
      is_checkpoint e = false -> step (w, f) (log e w, f)
  | step_record w f a :
      url a ∈ urls_of f -> step (w, f) (record_url (url a) w, f)
  | step_append w f a :
      url a ∉ urls_of f -> step (w, f) (record_url (url a) w, f ++ [a])
  | step_checkpoint env w f :
      step (w, f) (_save_checkpoint env f w, f).

Definition steps := rtc step.

Lemma steps_log w f e : is_checkpoint e = false -> steps (w, f) (log e w, f).
Proof. intros. apply rtc_once. constructor. assumption. Qed.

Lemma steps_trans a b c : steps a b -> steps b c -> steps a c.
Proof. apply rtc_trans. Qed.

Section LoopSteps.

Variable urljoin : string -> string -> py_result string.
Variable env : Env.

Lemma extract_article_data_steps n w r w' :
  _extract_article_data urljoin env n w = (r, w') ->
  match r with
  | Ok (Some a) =>
      w' = log (EvExtract (Some (url a))) (record_url (url a) w)
  | _ => w' = log (EvExtract None) w
  end.
Proof.
  unfold _extract_article_data.
  destruct (match extract_fault n with Some e => Raise e | None => _ end) as [a|e].
  - intros [= <- <-]. reflexivity.
  - destruct (is_Exception e); intros [= <- <-]; reflexivity.
Qed.

Lemma process_node_steps n w f t o w' f' t' :
  process_node urljoin env n (w, f, t) = (o, (w', f', t')) ->
  steps (w, f) (w', f').
Proof.
  unfold process_node.
  destruct (probe_fault n) as [e|].
  { destruct (is_Exception e); intros [= <- <- <- <-]; apply rtc_refl. }
  destruct (probed_known n w).
  { intros [= <- <- <- <-]. apply rtc_refl. }
  destruct (_extract_article_data urljoin env n w) as [r w1] eqn:E.
  apply extract_article_data_steps in E.
  destruct r as [[a|]|e].
  - subst w1. destruct (bool_decide (url a ∈ urls_of f)) eqn:D.
    + apply bool_decide_eq_true in D. intros [= <- <- <- <-].
      eapply rtc_l; [apply step_record, D|]. apply steps_log. reflexivity.
    + apply bool_decide_eq_false in D. intros [= <- <- <- <-].
      eapply rtc_l; [apply step_append, D|]. apply steps_log. reflexivity.
  - subst w1. intros [= <- <- <- <-]. apply steps_log. reflexivity.
  - subst w1. destruct (is_Exception e); intros [= <- <- <- <-];
      apply steps_log; reflexivity.
Qed.

Lemma process_nodes_steps nodes w f t o w' f' t' :
  process_nodes urljoin env nodes (w, f, t) = (o, (w', f', t')) ->
  steps (w, f) (w', f').
Proof.
  revert w f t. induction nodes as [|n nodes IH]; simpl; intros w f t.
  - intros [= <- <- <- <-]. apply rtc_refl.
  - destruct (process_node urljoin env n (w, f, t)) as [[e|] [[w1 f1] t1]] eqn:E;
      apply process_node_steps in E.
    + intros [= <- <- <- <-]. exact E.
    + intros H. apply IH in H. eapply steps_trans; eassumption.
Qed.

Lemma save_progress_steps f w : steps (w, f) (_save_progress f w, f).
Proof.
  unfold _save_progress. destruct f; [apply rtc_refl|apply steps_log; reflexivity].
Qed.

Lemma save_steps_steps n f w o w' :
  save_steps env n f w = (o, w') -> steps (w, f) (w', f).
Proof.
  unfold save_steps. destruct (save_interval w) eqn:Ei.
  - intros [= <- <-]. apply rtc_refl.
  - intros [= <- <-].
    destruct (_ =? _)%nat; destruct (_ && _).
    + eapply steps_trans; [apply save_progress_steps|apply rtc_once, step_checkpoint].
    + apply save_progress_steps.
    + apply rtc_once, step_checkpoint.
    + apply rtc_refl.
Qed.

Lemma scroll_iteration_steps K w ls r w' ls' :
  scroll_iteration urljoin env K w ls = (r, w', ls') ->
  steps (w, articles_found ls) (w', articles_found ls').
Proof.
  unfold scroll_iteration.
  destruct (env_feed env (scroll_attempts ls)) as [nodes|e].
  2:{ intros [= <- <- <-]. apply rtc_refl. }
  destruct (process_nodes urljoin env nodes _) as [o [[w1 f1] t1]] eqn:E.
  apply process_nodes_steps in E.
  assert (steps (w, articles_found ls) (w1, f1)) as H1.
  { eapply steps_trans; [|exact E]. apply steps_log. reflexivity. }
  destruct o as [e|].
  { intros [= <- <- <-]. exact H1. }
  destruct (save_steps env _ f1 w1) as [o w2] eqn:Es.
  apply save_steps_steps in Es.
  assert (steps (w, articles_found ls) (w2, f1)) as H2
      by (eapply steps_trans; eassumption).
  destruct o as [e|].
  { intros [= <- <- <-].
    unfold update_counters, update_no_progress.
    repeat match goal with |- context [if ?b then _ else _] => destruct b end;
      exact H2. }
  assert (forall ls0, articles_found ls0 = f1 ->
          steps (w, articles_found ls) (w2, articles_found ls0)) as H3
      by (intros ls0 ->; exact H2).
  assert (articles_found
            (update_counters (length f1 - length (articles_found ls))
               (articles_already_known t1)
               (update_no_progress (length nodes) (with_found f1 ls))) = f1) as Hf.
  { unfold update_counters, update_no_progress.
    repeat match goal with |- context [if ?b then _ else _] => destruct b end;
      reflexivity. }
  destruct (stop_check K _) as [reason|].
  { intros [= <- <- <-]. apply H3, Hf. }
  assert (forall ls0 wx, articles_found ls0 = f1 ->
          steps (w, articles_found ls)
                (log (EvScroll wx) w2, articles_found (next_attempt ls0))) as H4.
  { intros ls0 wx <-. simpl. eapply steps_trans; [apply H3; reflexivity|].
    apply steps_log. reflexivity. }
  destruct (env_scroll env _) as [e|]; [destruct (is_Exception e)|];
    intros [= <- <- <-]; apply H4, Hf.
Qed.

Lemma scroll_loop_steps fuel K w ls r w' ls' :
  scroll_loop urljoin fuel env K w ls = (r, w', ls') ->
  steps (w, articles_found ls) (w', articles_found ls').
Proof.
  revert w ls. induction fuel as [|fuel IH]; simpl; intros w ls.
  - destruct (while_cond K ls); intros [= <- <- <-]; apply rtc_refl.
  - destruct (while_cond K ls); [|intros [= <- <- <-]; apply rtc_refl].
    destruct (scroll_iteration urljoin env K w ls) as [[it w1] ls1] eqn:E.
    apply scroll_iteration_steps in E.
    destruct it.
    + intros H. apply IH in H. eapply steps_trans; eassumption.
    + intros [= <- <- <-]. exact E.
    + intros [= <- <- <-]. exact E.
Qed.

End LoopSteps.

(** ** Invariants of the transition system *)

(** The ledger written in a checkpoint and the urls of its records are the
    same set. *)
Definition cp_consistent (cp : Checkpoint) : Prop :=
  list_to_set (cp_scraped_urls cp) =@{gset string} list_to_set (urls_of (cp_articles cp)).

Definition event_ok (e : event) : Prop :=
  match e with
  | EvCheckpoint cp => cp_consistent cp
  | _ => True
  end.

Definition ledger_matches (w : World) (f : list Article) : Prop :=
  scraped_urls w = list_to_set (urls_of f).

(** The records added to [base], none of them with a url of [base]. *)
Definition extends (base f : list Article) : Prop :=
  exists new, f = base ++ new /\ Forall (fun a => url a ∉ urls_of base) new.

Definition disk_behind (w : World) (f : list Article) : Prop :=
  forall cp, checkpoint_file w = Stored cp -> cp_articles cp `prefix_of` f.

Lemma urls_of_snoc f a : urls_of (f ++ [a]) = urls_of f ++ [url a].
Proof. unfold urls_of. rewrite map_app. reflexivity. Qed.

Lemma steps_invariant (P : World * list Article -> Prop) :
  (forall x y, step x y -> P x -> P y) ->
  forall x y, steps x y -> P x -> P y.
Proof. intros Hstep x y H. induction H; eauto. Qed.

Lemma step_ledger w f w' f' :
  step (w, f) (w', f') -> ledger_matches w f -> ledger_matches w' f'.
Proof.
  unfold ledger_matches. intros Hs. inversion Hs; subst; simpl; intros Hl.
  - exact Hl.
  - rewrite Hl. apply set_eq. intros x.
    rewrite elem_of_union, elem_of_singleton, !elem_of_list_to_set.
    split; [intros [->|]; assumption|auto].
  - rewrite Hl, urls_of_snoc, list_to_set_app_L. apply set_eq. intros x.
    rewrite !elem_of_union, elem_of_singleton, !elem_of_list_to_set,
      list_elem_of_singleton. tauto.
  - exact Hl.
Qed.

Lemma steps_ledger w f w' f' :
  steps (w, f) (w', f') -> ledger_matches w f -> ledger_matches w' f'.
Proof.
  intros H.
  exact (steps_invariant (fun x => ledger_matches (fst x) (snd x))
           (fun x y => match x, y with (a, b), (c, d) => step_ledger a b c d end) _ _ H).
Qed.

Lemma step_events_ok w f w' f' :
  step (w, f) (w', f') ->
  ledger_matches w f /\ Forall event_ok (events w) ->
  ledger_matches w' f' /\ Forall event_ok (events w').
Proof.
  intros Hs [Hl He]. split; [eapply step_ledger; eassumption|].
  inversion Hs; subst; simpl; try assumption.
  - apply Forall_app. split; [assumption|]. constructor; [|constructor].
    destruct e; try exact I. discriminate.
  - apply Forall_app. split; [assumption|]. constructor; [|constructor].
    unfold event_ok, cp_consistent, checkpoint_data. simpl.
    rewrite list_to_set_elements_L. exact Hl.
Qed.

Lemma steps_events_ok w f w' f' :
  steps (w, f) (w', f') ->
  ledger_matches w f -> Forall event_ok (events w) ->
  ledger_matches w' f' /\ Forall event_ok (events w').
Proof.
  intros H Hl He.
  apply (steps_invariant
           (fun x => ledger_matches (fst x) (snd x) /\ Forall event_ok (events (fst x)))
           (fun x y => match x, y with (a, b), (c, d) => step_events_ok a b c d end)
           _ _ H).
  split; assumption.
Qed.

Record grows (w : World) (f : list Article) (w' : World) (f' : list Article) : Prop := {
  grows_ledger : scraped_urls w ⊆ scraped_urls w';
  grows_found : f `prefix_of` f';
  grows_interval : save_interval w' = save_interval w;
  grows_events : events w `prefix_of` events w' }.

Lemma grows_refl w f : grows w f w f.
Proof. split; reflexivity. Qed.

Lemma grows_trans w1 f1 w2 f2 w3 f3 :
  grows w1 f1 w2 f2 -> grows w2 f2 w3 f3 -> grows w1 f1 w3 f3.
Proof.
  intros [A1 B1 C1 D1] [A2 B2 C2 D2]. split.
  - etransitivity; eassumption.
  - etransitivity; eassumption.
  - congruence.
  - etransitivity; eassumption.
Qed.

Lemma step_grows w f w' f' : step (w, f) (w', f') -> grows w f w' f'.
Proof.
  intros Hs. inversion Hs; subst; split; simpl;
    try reflexivity; try apply union_subseteq_r;
    try (apply prefix_app_r; reflexivity).
Qed.

Lemma steps_grows w f w' f' : steps (w, f) (w', f') -> grows w f w' f'.
Proof.
  intros H.
  apply (steps_invariant (fun x => grows w f (fst x) (snd x))
           (fun x y => match x, y with
                       | (a, b), (c, d) => fun Hs Hg => grows_trans _ _ _ _ _ _ Hg (step_grows a b c d Hs)
                       end) _ _ H).
  apply grows_refl.
Qed.

Lemma step_nodup w f w' f' :
  step (w, f) (w', f') -> NoDup (urls_of f) -> NoDup (urls_of f').
Proof.
  inversion 1; subst; try tauto.
  intros Hn. rewrite urls_of_snoc. apply NoDup_app. split; [assumption|].
  split; [|apply NoDup_singleton].
  intros x Hx Hx'. apply list_elem_of_singleton in Hx'. subst. contradiction.
Qed.

Lemma steps_nodup w f w' f' :
  steps (w, f) (w', f') -> NoDup (urls_of f) -> NoDup (urls_of f').
Proof.
  intros H.
  exact (steps_invariant (fun x => NoDup (urls_of (snd x)))
           (fun x y => match x, y with (a, b), (c, d) => step_nodup a b c d end) _ _ H).
Qed.

Lemma extends_refl base : extends base base.
Proof. exists []. rewrite app_nil_r. split; [reflexivity|constructor]. Qed.

Lemma extends_urls base f x : extends base f -> x ∈ urls_of base -> x ∈ urls_of f.
Proof.
  intros (new & -> & _) Hx. unfold urls_of in *. rewrite map_app.
  apply elem_of_app. left. exact Hx.
Qed.

Lemma step_extends base w f w' f' :
  step (w, f) (w', f') -> extends base f -> extends base f'.
Proof.
  inversion 1; subst; try tauto.
  intros He. pose proof He as (new & -> & Hnew).
  exists (new ++ [a]). split; [rewrite app_assoc; reflexivity|].
  apply Forall_app. split; [assumption|]. constructor; [|constructor].
  intros Hin. match goal with H : _ ∉ _ |- _ => apply H end.
  eapply extends_urls; eassumption.
Qed.

Lemma steps_extends base w f w' f' :
  steps (w, f) (w', f') -> extends base f -> extends base f'.
Proof.
  intros H.
  exact (steps_invariant (fun x => extends base (snd x))
           (fun x y => match x, y with (a, b), (c, d) => step_extends base a b c d end) _ _ H).
Qed.



Lemma filter_none {A} (p : A -> bool) (l : list A) :
  (forall a, In a l -> p a = false) -> List.filter p l = [].
Proof.
  induction l as [|x l IH]; simpl; intros H; [reflexivity|].
  rewrite (H x (or_introl eq_refl)). apply IH. intros a Ha. apply H. right. exact Ha.
Qed.

(** The merge of [scrape_list] gives back the list of the loop. *)
Lemma merge_extends base f : extends base f -> merge base f = f.
Proof.
  intros (new & -> & Hnew). unfold merge. f_equal.
  rewrite List.filter_app.
  assert (List.filter (fun a => negb (bool_decide (url a ∈@{gset string} list_to_set (urls_of base)))) base = []) as ->.
  { apply filter_none. intros a Ha.
    apply negb_false_iff, bool_decide_eq_true, elem_of_list_to_set.
    apply list_elem_of_In, in_map, Ha. }
  simpl. induction Hnew as [|a new Ha _ IH]; simpl; [reflexivity|].
  rewrite IH.
  assert (bool_decide (url a ∈@{gset string} list_to_set (urls_of base)) = false) as ->; [|reflexivity].
  apply bool_decide_eq_false. rewrite elem_of_list_to_set. exact Ha.
Qed.

(** ** One iteration of the loop *)

Ltac case_ifs :=
  repeat match goal with
         | |- context [if ?b then _ else _] => destruct b eqn:?
         end.

(** The state after the counters of an iteration are brought up to date. *)
Definition counted (current_count new_articles_count known : nat)
    (found : list Article) (ls : LoopState) : LoopState :=
  update_counters new_articles_count known
    (update_no_progress current_count (with_found found ls)).

Lemma counted_attempts c n k f ls :
  scroll_attempts (counted c n k f ls) = scroll_attempts ls.
Proof. unfold counted, update_counters, update_no_progress. case_ifs; reflexivity. Qed.

Lemma counted_found c n k f ls : articles_found (counted c n k f ls) = f.
Proof. unfold counted, update_counters, update_no_progress. case_ifs; reflexivity. Qed.

Section Iteration.

Variable urljoin : string -> string -> py_result string.
Variable env : Env.

(** What an iteration that reads a snapshot and gets through its nodes
    leaves as loop state: the counted state, one attempt further when the
    loop goes on. *)
Lemma scroll_iteration_state K w ls r w' ls' nodes w1 found t :
  env_feed env (scroll_attempts ls) = Ok nodes ->
  process_nodes urljoin env nodes
    (log (EvQuery (length nodes)) w, articles_found ls, mkTally 0 0 0)
  = (None, (w1, found, t)) ->
  scroll_iteration urljoin env K w ls = (r, w', ls') ->
  let ls2 := counted (length nodes) (length found - length (articles_found ls))
               (articles_already_known t) found ls in
  ls' = ls2 \/ ls' = next_attempt ls2.
Proof.
  intros Hfeed Hnodes. unfold scroll_iteration. rewrite Hfeed, Hnodes.
  fold (counted (length nodes) (length found - length (articles_found ls))
          (articles_already_known t) found ls).
  destruct (save_steps env _ found w1) as [[e|] w2].
  { intros [= <- <- <-]. left. reflexivity. }
  destruct (stop_check K _).
  { intros [= <- <- <-]. left. reflexivity. }
  destruct (env_scroll env _) as [e|]; [destruct (is_Exception e)|];
    intros [= <- <- <-]; right; reflexivity.
Qed.

Lemma scroll_iteration_inv K w ls r w' ls' :
  scroll_iteration urljoin env K w ls = (r, w', ls') ->
  match r with
  | Throw _ => True
  | Break reason =>
      stop_check K ls' = Some reason /\ scroll_attempts ls' = scroll_attempts ls
  | Continue =>
      exists ls2, ls' = next_attempt ls2 /\ stop_check K ls2 = None
                  /\ scroll_attempts ls2 = scroll_attempts ls
  end.
Proof.
  unfold scroll_iteration.
  destruct (env_feed env (scroll_attempts ls)) as [nodes|e].
  2:{ intros [= <- <- <-]. exact I. }
  destruct (process_nodes urljoin env nodes _) as [[e|] [[w1 f1] t1]].
  { intros [= <- <- <-]. exact I. }
  fold (counted (length nodes) (length f1 - length (articles_found ls))
          (articles_already_known t1) f1 ls).
  destruct (save_steps env _ f1 w1) as [[e|] w2].
  { intros [= <- <- <-]. exact I. }
  destruct (stop_check K _) as [reason|] eqn:Es.
  { intros [= <- <- <-]. split; [exact Es|apply counted_attempts]. }
  destruct (env_scroll env _) as [e|]; [destruct (is_Exception e)|];
    intros [= <- <- <-]; try exact I; eexists; (split; [reflexivity|]);
    (split; [exact Es|apply counted_attempts]).
Qed.

(** The tally of extracted records counts the records added. *)
Lemma process_node_extracted n w f t o w' f' t' :
  process_node urljoin env n (w, f, t) = (o, (w', f', t')) ->
  (length f' + articles_extracted t = length f + articles_extracted t')%nat.
Proof.
  unfold process_node.
  destruct (probe_fault n) as [e|].
  { destruct (is_Exception e); intros [= <- <- <- <-]; reflexivity. }
  destruct (probed_known n w).
  { intros [= <- <- <- <-]. reflexivity. }
  destruct (_extract_article_data urljoin env n w) as [[[a|]|e] w1].
  - destruct (bool_decide _); intros [= <- <- <- <-]; [reflexivity|].
    rewrite length_app. simpl. lia.
  - intros [= <- <- <- <-]. reflexivity.
  - destruct (is_Exception e); intros [= <- <- <- <-]; reflexivity.
Qed.

Lemma process_nodes_extracted nodes w f t o w' f' t' :
  process_nodes urljoin env nodes (w, f, t) = (o, (w', f', t')) ->
  (length f' + articles_extracted t = length f + articles_extracted t')%nat.
Proof.
  revert w f t. induction nodes as [|n nodes IH]; simpl; intros w f t.
  - intros [= <- <- <- <-]. reflexivity.
  - destruct (process_node urljoin env n (w, f, t)) as [[e|] [[w1 f1] t1]] eqn:E;
      apply process_node_extracted in E.
    + intros [= <- <- <- <-]. exact E.
    + intros H. apply IH in H. lia.
Qed.

End Iteration.

(** C3: the three counters after an iteration that went through the
    rendered nodes.  [nodes] is the snapshot, [found] the record list after
    the nodes and [t] the tally of the classification. *)
Theorem counter_updates urljoin env K w ls r w' ls' nodes w1 found t :
  env_feed env (scroll_attempts ls) = Ok nodes ->
  process_nodes urljoin env nodes
    (log (EvQuery (length nodes)) w, articles_found ls, mkTally 0 0 0)
  = (None, (w1, found, t)) ->
  scroll_iteration urljoin env K w ls = (r, w', ls') ->
  let new_records := (length found - length (articles_found ls))%nat in
  new_records = articles_extracted t
  /\ (length nodes = last_article_count ls ->
      consecutive_no_scroll_progress ls' = S (consecutive_no_scroll_progress ls)
      /\ last_article_count ls' = last_article_count ls)
  /\ (length nodes <> last_article_count ls ->
      consecutive_no_scroll_progress ls' = 0%nat
      /\ last_article_count ls' = length nodes)
  /\ (new_records = 0%nat -> (0 < articles_already_known t)%nat ->
      consecutive_all_known_content ls' = S (consecutive_all_known_content ls)
      /\ consecutive_no_new_content ls' = 0%nat)
  /\ (new_records = 0%nat -> articles_already_known t = 0%nat ->
      consecutive_no_new_content ls' = S (consecutive_no_new_content ls)
      /\ consecutive_all_known_content ls' = 0%nat)
  /\ ((0 < new_records)%nat ->
      consecutive_no_new_content ls' = 0%nat
      /\ consecutive_all_known_content ls' = 0%nat).
Proof.
  intros Hfeed Hnodes Hit new_records.
  pose proof (process_nodes_extracted _ _ _ _ _ _ _ _ _ _ Hnodes) as Hext.
  simpl in Hext.
  pose proof (scroll_iteration_state _ _ _ _ _ _ _ _ _ _ _ _ Hfeed Hnodes Hit) as Hst.
  fold new_records in Hst. simpl in Hst.
  split; [unfold new_records; lia|].
  assert (forall P : LoopState -> Prop,
             P (counted (length nodes) new_records (articles_already_known t) found ls) ->
             (forall x, P x -> P (next_attempt x)) -> P ls') as Hboth.
  { intros P H1 H2. destruct Hst as [->| ->]; auto. }
  repeat split; intros;
    apply Hboth; try (intros x Hx; exact Hx);
    unfold counted, update_counters, update_no_progress; simpl;
    repeat match goal with
           | |- context [(?a =? ?b)%nat] => destruct (Nat.eqb_spec a b)
           | |- context [(?a <? ?b)%nat] => destruct (Nat.ltb_spec a b)
           end; simpl; try reflexivity; try lia.
Qed.

(** ** Termination and the reason of a halt *)

Definition head_ok (K : nat) (ls : LoopState) : Prop :=
  (consecutive_no_new_content ls < max_consecutive_empty)%nat
  /\ (consecutive_all_known_content ls < K)%nat
  /\ (scroll_attempts ls <= max_scroll_attempts)%nat.

(** What holds of the counters when the loop halts for reason [r]. *)
Definition justified (K : nat) (r : StopReason) (ls : LoopState) : Prop :=
  match r with
  | ActualEnd => (no_progress_limit <= consecutive_no_scroll_progress ls)%nat
  | NoArticles =>
      (consecutive_no_scroll_progress ls < no_progress_limit)%nat
      /\ (max_consecutive_empty <= consecutive_no_new_content ls)%nat
  | ScrollLimit =>
      (consecutive_no_scroll_progress ls < no_progress_limit)%nat
      /\ (consecutive_no_new_content ls < max_consecutive_empty)%nat
      /\ (K <= consecutive_all_known_content ls)%nat
  | MaxAttempts =>
      (consecutive_no_new_content ls < max_consecutive_empty)%nat
      /\ (consecutive_all_known_content ls < K)%nat
      /\ scroll_attempts ls = max_scroll_attempts
  end.

Lemma stop_check_spec K ls :
  match stop_check K ls with
  | Some r => r <> MaxAttempts /\ justified K r ls
  | None =>
      (consecutive_no_scroll_progress ls < no_progress_limit)%nat
      /\ (consecutive_no_new_content ls < max_consecutive_empty)%nat
      /\ (consecutive_all_known_content ls < K)%nat
  end.
Proof.
  unfold stop_check.
  destruct (Nat.leb_spec no_progress_limit (consecutive_no_scroll_progress ls));
    [split; [discriminate|assumption]|].
  destruct (Nat.leb_spec max_consecutive_empty (consecutive_no_new_content ls));
    [split; [discriminate|split; assumption]|].
  destruct (Nat.leb_spec K (consecutive_all_known_content ls));
    [split; [discriminate|repeat split; assumption]|].
  repeat split; assumption.
Qed.

Lemma while_cond_true K ls :
  while_cond K ls = true ->
  (consecutive_no_new_content ls < max_consecutive_empty)%nat
  /\ (consecutive_all_known_content ls < K)%nat
  /\ (scroll_attempts ls < max_scroll_attempts)%nat.
Proof.
  unfold while_cond. rewrite !andb_true_iff, !Nat.ltb_lt. tauto.
Qed.

Lemma while_cond_false K ls :
  head_ok K ls -> while_cond K ls = false -> justified K MaxAttempts ls.
Proof.
  unfold while_cond, head_ok. intros (H1 & H2 & H3) H.
  rewrite !andb_false_iff, !Nat.ltb_ge in H. simpl. repeat split; try assumption.
  lia.
Qed.

Section Halting.

Variable urljoin : string -> string -> py_result string.
Variable env : Env.

Lemma scroll_iteration_head_ok K w ls w' ls' :
  while_cond K ls = true ->
  scroll_iteration urljoin env K w ls = (Continue, w', ls') ->
  head_ok K ls' /\ scroll_attempts ls' = S (scroll_attempts ls).
Proof.
  intros Hw H. apply scroll_iteration_inv in H as (ls2 & -> & Hs & Ha).
  apply while_cond_true in Hw as (_ & _ & Hw).
  pose proof (stop_check_spec K ls2) as Hspec. rewrite Hs in Hspec.
  destruct Hspec as (_ & H1 & H2). unfold head_ok. simpl. rewrite Ha.
  repeat split; try assumption; lia.
Qed.

(** [max_scroll_attempts] turns of the [while] are enough: the fuel of the
    model never runs out. *)
Lemma scroll_loop_fuel fuel K w ls :
  (max_scroll_attempts <= fuel + scroll_attempts ls)%nat ->
  (scroll_loop urljoin fuel env K w ls).1.1 <> OutOfFuel.
Proof.
  revert w ls. induction fuel as [|fuel IH]; simpl; intros w ls Hf.
  - destruct (while_cond K ls) eqn:Hw; [|discriminate].
    apply while_cond_true in Hw. lia.
  - destruct (while_cond K ls) eqn:Hw; [|discriminate].
    destruct (scroll_iteration urljoin env K w ls) as [[[| |] w1] ls1] eqn:E;
      try discriminate.
    apply (scroll_iteration_head_ok _ _ _ _ _ Hw) in E as [_ E].
    apply IH. lia.
Qed.

Lemma scroll_loop_justified fuel K w ls r w' ls' :
  head_ok K ls ->
  scroll_loop urljoin fuel env K w ls = (Halted r, w', ls') ->
  justified K r ls'.
Proof.
  revert w ls. induction fuel as [|fuel IH]; simpl; intros w ls Hh.
  - destruct (while_cond K ls) eqn:Hw; [discriminate|].
    intros [= <- <- <-]. apply while_cond_false; assumption.
  - destruct (while_cond K ls) eqn:Hw.
    2:{ intros [= <- <- <-]. apply while_cond_false; assumption. }
    destruct (scroll_iteration urljoin env K w ls) as [[[|reason|] w1] ls1] eqn:E.
    + apply (scroll_iteration_head_ok _ _ _ _ _ Hw) in E as [E _]. apply IH, E.
    + intros [= <- <- <-]. apply scroll_iteration_inv in E as [E _].
      pose proof (stop_check_spec K ls1) as Hspec. rewrite E in Hspec. apply Hspec.
    + discriminate.
Qed.

Lemma dynamic_limit_ge n : (200 <= dynamic_limit n)%nat.
Proof. unfold dynamic_limit. apply Nat.le_max_l. Qed.

Lemma initial_head_ok n f : head_ok (dynamic_limit n) (mkLoop f 0 0 0 0 0).
Proof.
  pose proof (dynamic_limit_ge n). unfold head_ok, max_consecutive_empty. simpl.
  repeat split; lia.
Qed.

(** The loop always comes to an end, by a stop condition or an exception. *)
Lemma scroll_and_load_content_ends existing w :
  (_scroll_and_load_content urljoin env existing w).1.1 <> OutOfFuel.
Proof. rewrite scroll_and_load_content_unfold. apply scroll_loop_fuel, Nat.le_add_r. Qed.

End Halting.

(** ** Feeds of already-known nodes *)

(** A node that the probe finds in the ledger [L]. *)
Definition known_node (L : gset string) (n : Node) : Prop :=
  probe_fault n = None
  /\ exists h, data_href_of (node_el n) = Some h /\ probe_url h ∈ L.

(** Every snapshot has nodes, all of them known. *)
Definition known_feed (env : Env) (L : gset string) : Prop :=
  forall k, exists nodes,
    env_feed env k = Ok nodes /\ nodes <> [] /\ Forall (known_node L) nodes.

(** No interrupt arrives while the page scrolls. *)
Definition calm (env : Env) : Prop :=
  forall k e, env_scroll env k = Some e -> is_Exception e = true.

(** The number of nodes rendered after [k] scroll actions. *)
Definition count_at (env : Env) (k : nat) : nat :=
  match env_feed env k with
  | Ok nodes => length nodes
  | Raise _ => 0%nat
  end.

Lemma counted_known c f ls :
  c <> 0%nat ->
  counted c 0 c f ls
  = mkLoop f 0 (S (consecutive_all_known_content ls))
      (if (c =? last_article_count ls)%nat
       then S (consecutive_no_scroll_progress ls) else 0%nat)
      (scroll_attempts ls)
      (if (c =? last_article_count ls)%nat then last_article_count ls else c).
Proof.
  intros Hc. unfold counted, update_counters, update_no_progress. simpl.
  destruct (c =? last_article_count ls)%nat; simpl;
    destruct (Nat.ltb_spec 0 c); try lia; reflexivity.
Qed.

Section KnownFeeds.

Variable urljoin : string -> string -> py_result string.
Variable env : Env.

Lemma process_nodes_known nodes w f t :
  Forall (known_node (scraped_urls w)) nodes ->
  process_nodes urljoin env nodes (w, f, t)
  = (None, (w, f, mkTally (articles_extracted t)
                    (articles_already_known t + length nodes) (articles_failed t))).
Proof.
  intros H. revert t. induction H as [|n nodes (Hp & h & Hh & Hin) _ IH]; intros t.
  - simpl. rewrite Nat.add_0_r. destruct t; reflexivity.
  - cbn [process_nodes]. unfold process_node at 1. rewrite Hp.
    unfold probed_known. rewrite Hh.
    rewrite (bool_decide_eq_true_2 _ Hin). rewrite IH. simpl.
    repeat f_equal. lia.
Qed.

Lemma save_steps_no_new f w :
  save_interval w <> 0%nat ->
  exists w', save_steps env 0 f w = (None, w')
             /\ scraped_urls w' = scraped_urls w
             /\ save_interval w' = save_interval w.
Proof.
  intros Hi. unfold save_steps. destruct (save_interval w) eqn:Ei; [contradiction|].
  eexists. split; [reflexivity|]. simpl.
  destruct (_ =? _)%nat; [|split; [reflexivity|exact Ei]].
  unfold _save_progress. destruct f; simpl; (split; [reflexivity|exact Ei]).
Qed.

(** An iteration over a snapshot of known nodes changes neither the ledger
    nor the record list; the counters move as for "all already known". *)
Lemma scroll_iteration_known K w ls nodes :
  env_feed env (scroll_attempts ls) = Ok nodes ->
  nodes <> [] ->
  Forall (known_node (scraped_urls w)) nodes ->
  save_interval w <> 0%nat ->
  calm env ->
  let ls2 := counted (length nodes) 0 (length nodes) (articles_found ls) ls in
  exists w',
    scraped_urls w' = scraped_urls w /\ save_interval w' = save_interval w
    /\ scroll_iteration urljoin env K w ls
       = match stop_check K ls2 with
         | Some reason => (Break reason, w', ls2)
         | None => (Continue, log (EvScroll true) w', next_attempt ls2)
         end.
Proof.
  intros Hfeed Hne Hknown Hi Hcalm ls2.
  unfold scroll_iteration. rewrite Hfeed.
  rewrite (process_nodes_known nodes (log (EvQuery (length nodes)) w) _ _ Hknown).
  cbn [articles_extracted articles_already_known Nat.add].
  rewrite Nat.sub_diag.
  destruct (save_steps_no_new (articles_found ls) (log (EvQuery (length nodes)) w) Hi)
    as (w' & -> & Hu & Hs).
  exists w'. split; [exact Hu|]. split; [exact Hs|].
  fold (counted (length nodes) 0 (length nodes) (articles_found ls) ls). fold ls2.
  destruct (stop_check K ls2); [reflexivity|].
  assert ((0 <? length nodes)%nat && (0 =? 0)%nat = true) as ->.
  { destruct nodes; [contradiction|reflexivity]. }
  destruct (env_scroll env _) as [e|] eqn:Ee; [|reflexivity].
  rewrite (Hcalm _ _ Ee). reflexivity.
Qed.

Lemma known_feed_at L k :
  known_feed env L ->
  exists nodes, env_feed env k = Ok nodes /\ nodes <> []
                /\ Forall (known_node L) nodes /\ count_at env k = length nodes
                /\ count_at env k <> 0%nat.
Proof.
  intros H. destruct (H k) as (nodes & Hf & Hne & Hk). exists nodes.
  unfold count_at. rewrite Hf. repeat split; try assumption.
  destruct nodes; [contradiction|discriminate].
Qed.

Variable L : gset string.
Hypothesis feed_known : known_feed env L.
Hypothesis scroll_calm : calm env.

(** While the number of rendered nodes changes at every iteration only the
    all-known counter moves, up to the limit. *)
Lemma changing_feed_reaches_limit K d :
  (forall k, count_at env (S k) <> count_at env k) ->
  forall fuel w ls,
    scraped_urls w = L -> save_interval w <> 0%nat ->
    (d < fuel)%nat ->
    (consecutive_all_known_content ls + S d)%nat = K ->
    consecutive_no_new_content ls = 0%nat ->
    consecutive_no_scroll_progress ls = 0%nat ->
    last_article_count ls <> count_at env (scroll_attempts ls) ->
    (scroll_attempts ls + d < max_scroll_attempts)%nat ->
    exists w' ls',
      scroll_loop urljoin fuel env K w ls = (Halted ScrollLimit, w', ls')
      /\ consecutive_all_known_content ls' = K
      /\ scroll_attempts ls' = (scroll_attempts ls + d)%nat
      /\ articles_found ls' = articles_found ls
      /\ scraped_urls w' = L.
Proof.
  intros Hdiff. induction d as [|d IH]; intros fuel w ls Hw Hi Hfuel Hk He Hn Hlast Hatt;
    (destruct fuel as [|fuel]; [lia|]);
    destruct (known_feed_at L (scroll_attempts ls) feed_known)
      as (nodes & Hfeed & Hne & Hknown & Hcount & Hpos);
    rewrite <- Hw in Hknown;
    destruct (scroll_iteration_known K w ls nodes Hfeed Hne Hknown Hi scroll_calm)
      as (w1 & Hu & Hs & Hit);
    rewrite <- Hcount in Hit; rewrite (counted_known _ _ _ Hpos) in Hit;
    assert ((count_at env (scroll_attempts ls) =? last_article_count ls)%nat = false) as Hneq
      by (apply Nat.eqb_neq; congruence);
    rewrite Hneq in Hit;
    cbn [scroll_loop];
    assert (while_cond K ls = true) as ->
      by (unfold while_cond, max_consecutive_empty;
          rewrite !andb_true_iff, !Nat.ltb_lt; lia);
    rewrite Hit; unfold stop_check, no_progress_limit, max_consecutive_empty;
    cbn [consecutive_no_scroll_progress consecutive_no_new_content
         consecutive_all_known_content Nat.leb].
  - assert ((K <=? S (consecutive_all_known_content ls))%nat = true) as ->
      by (apply Nat.leb_le; lia).
    do 2 eexists. split; [reflexivity|]. simpl. repeat split; try lia. congruence.
  - assert ((K <=? S (consecutive_all_known_content ls))%nat = false) as ->
      by (apply Nat.leb_gt; lia).
    edestruct (IH fuel (log (EvScroll true) w1)
                 (next_attempt
                    (mkLoop (articles_found ls) 0 (S (consecutive_all_known_content ls)) 0
                       (scroll_attempts ls) (count_at env (scroll_attempts ls)))))
      as (w' & ls' & Hrun & H1 & H2 & H3 & H4); simpl;
      try assumption; try reflexivity; try lia; try congruence.
    exists w', ls'. split; [exact Hrun|]. simpl in H2, H3.
    repeat split; try assumption; lia.
Qed.

(** While the number of rendered nodes stays the same the counter of
    iterations without growth runs up to ten. *)
Lemma steady_feed_reaches_end K c d :
  (forall k, count_at env k = c) ->
  forall fuel w ls,
    scraped_urls w = L -> save_interval w <> 0%nat ->
    (d < fuel)%nat ->
    (consecutive_no_scroll_progress ls + S d)%nat = no_progress_limit ->
    (consecutive_all_known_content ls + S d < K)%nat ->
    consecutive_no_new_content ls = 0%nat ->
    last_article_count ls = c ->
    (scroll_attempts ls + d < max_scroll_attempts)%nat ->
    exists w' ls',
      scroll_loop urljoin fuel env K w ls = (Halted ActualEnd, w', ls')
      /\ consecutive_no_scroll_progress ls' = no_progress_limit
      /\ (consecutive_all_known_content ls' < K)%nat
      /\ scroll_attempts ls' = (scroll_attempts ls + d)%nat
      /\ articles_found ls' = articles_found ls
      /\ scraped_urls w' = L.
Proof.
  intros Hsame. induction d as [|d IH]; intros fuel w ls Hw Hi Hfuel Hn Hk He Hlast Hatt;
    (destruct fuel as [|fuel]; [lia|]);
    destruct (known_feed_at L (scroll_attempts ls) feed_known)
      as (nodes & Hfeed & Hne & Hknown & Hcount & Hpos);
    rewrite <- Hw in Hknown;
    destruct (scroll_iteration_known K w ls nodes Hfeed Hne Hknown Hi scroll_calm)
      as (w1 & Hu & Hs & Hit);
    rewrite <- Hcount in Hit; rewrite (counted_known _ _ _ Hpos) in Hit;
    rewrite (Hsame (scroll_attempts ls)) in Hit;
    assert ((c =? last_article_count ls)%nat = true) as Heq
      by (apply Nat.eqb_eq; congruence);
    rewrite Heq in Hit;
    cbn [scroll_loop];
    assert (while_cond K ls = true) as ->
      by (unfold while_cond, max_consecutive_empty;
          rewrite !andb_true_iff, !Nat.ltb_lt; lia);
    rewrite Hit; unfold stop_check;
    cbn [consecutive_no_scroll_progress consecutive_no_new_content
         consecutive_all_known_content].
  - assert ((no_progress_limit <=? S (consecutive_no_scroll_progress ls))%nat = true) as ->
      by (apply Nat.leb_le; lia).
    do 2 eexists. split; [reflexivity|]. simpl. repeat split; try lia. congruence.
  - assert ((no_progress_limit <=? S (consecutive_no_scroll_progress ls))%nat = false) as ->
      by (apply Nat.leb_gt; lia).
    assert ((max_consecutive_empty <=? 0)%nat = false) as -> by reflexivity.
    assert ((K <=? S (consecutive_all_known_content ls))%nat = false) as ->
      by (apply Nat.leb_gt; lia).
    edestruct (IH fuel (log (EvScroll true) w1)
                 (next_attempt
                    (mkLoop (articles_found ls) 0 (S (consecutive_all_known_content ls))
                       (S (consecutive_no_scroll_progress ls))
                       (scroll_attempts ls) (last_article_count ls))))
      as (w' & ls' & Hrun & H1 & H2 & H3 & H4 & H5); simpl;
      try assumption; try reflexivity; try lia; try congruence.
    exists w', ls'. split; [exact Hrun|]. simpl in H3, H4.
    repeat split; try assumption; lia.
Qed.

End KnownFeeds.

(** ** The stop conditions *)

Lemma stop_check_priority K ls :
  (stop_check K ls = Some ActualEnd
   <-> (no_progress_limit <= consecutive_no_scroll_progress ls)%nat)
  /\ (stop_check K ls = Some NoArticles
      <-> (consecutive_no_scroll_progress ls < no_progress_limit)%nat
          /\ (max_consecutive_empty <= consecutive_no_new_content ls)%nat)
  /\ (stop_check K ls = Some ScrollLimit
      <-> (consecutive_no_scroll_progress ls < no_progress_limit)%nat
          /\ (consecutive_no_new_content ls < max_consecutive_empty)%nat
          /\ (K <= consecutive_all_known_content ls)%nat)
  /\ (stop_check K ls = None
      <-> (consecutive_no_scroll_progress ls < no_progress_limit)%nat
          /\ (consecutive_no_new_content ls < max_consecutive_empty)%nat
          /\ (consecutive_all_known_content ls < K)%nat).
Proof.
  unfold stop_check.
  destruct (Nat.leb_spec no_progress_limit (consecutive_no_scroll_progress ls));
    [repeat split; intros; try discriminate; try lia|].
  destruct (Nat.leb_spec max_consecutive_empty (consecutive_no_new_content ls));
    [repeat split; intros; try discriminate; try lia|].
  destruct (Nat.leb_spec K (consecutive_all_known_content ls));
    repeat split; intros; try discriminate; try lia.
Qed.

Lemma max_scroll_attempts_large : (200 < max_scroll_attempts)%nat.
Proof. apply Nat.ltb_lt. vm_compute. reflexivity. Qed.

Section StopConditions.

Variable urljoin : string -> string -> py_result string.
Variable env : Env.

Lemma steady_feed_run existing w c :
  known_feed env (scraped_urls w) -> calm env -> save_interval w <> 0%nat ->
  (forall k, count_at env k = c) ->
  exists w' ls',
    _scroll_and_load_content urljoin env existing w = (Halted ActualEnd, w', ls')
    /\ scroll_attempts ls' = 10%nat
    /\ consecutive_no_scroll_progress ls' = 10%nat
    /\ (consecutive_all_known_content ls' < dynamic_limit (length existing))%nat
    /\ articles_found ls' = existing.
Proof.
  intros Hfeed Hcalm Hi Hsame. rewrite scroll_and_load_content_unfold.
  pose proof max_scroll_attempts_large as Hmax.
  pose proof (dynamic_limit_ge (length existing)) as HK.
  set (K := dynamic_limit (length existing)) in *.
  destruct max_scroll_attempts as [|fuel] eqn:Efuel; [lia|].
  set (ls0 := mkLoop existing 0 0 0 0 0).
  destruct (known_feed_at env (scraped_urls w) 0 Hfeed)
    as (nodes & Hf & Hne & Hknown & Hcount & Hpos).
  destruct (scroll_iteration_known urljoin env K w ls0 nodes Hf Hne Hknown Hi Hcalm)
    as (w1 & Hu & Hs & Hit).
  rewrite <- Hcount in Hit. rewrite (counted_known _ _ _ Hpos) in Hit.
  assert ((count_at env 0 =? last_article_count ls0)%nat = false) as Hneq
      by (apply Nat.eqb_neq; exact Hpos).
  rewrite Hneq in Hit. cbn [scroll_loop].
  assert (while_cond K ls0 = true) as ->.
  { unfold while_cond, max_consecutive_empty. rewrite Efuel.
    rewrite !andb_true_iff, !Nat.ltb_lt. simpl. lia. }
  rewrite Hit. unfold stop_check, no_progress_limit, max_consecutive_empty. simpl.
  assert ((K <=? 1)%nat = false) as -> by (apply Nat.leb_gt; lia).
  rewrite <- Hu in Hfeed.
  edestruct (steady_feed_reaches_end urljoin env (scraped_urls w1) Hfeed Hcalm K c 9 Hsame
               fuel (log (EvScroll true) w1)
               (next_attempt (mkLoop existing 0 1 0 0 (count_at env 0))))
    as (w' & ls' & Hrun & H1 & H2 & H3 & H4 & H5); simpl;
    try reflexivity; try lia; try congruence.
  exists w', ls'. split; [exact Hrun|]. simpl in H3, H4.
  repeat split; try assumption.
Qed.

Lemma changing_feed_run existing w :
  known_feed env (scraped_urls w) -> calm env -> save_interval w <> 0%nat ->
  (forall k, count_at env (S k) <> count_at env k) ->
  (dynamic_limit (length existing) <= max_scroll_attempts)%nat ->
  exists w' ls',
    _scroll_and_load_content urljoin env existing w = (Halted ScrollLimit, w', ls')
    /\ consecutive_all_known_content ls' = dynamic_limit (length existing)
    /\ S (scroll_attempts ls') = dynamic_limit (length existing)
    /\ articles_found ls' = existing.
Proof.
  intros Hfeed Hcalm Hi Hdiff Hle. rewrite scroll_and_load_content_unfold.
  pose proof (dynamic_limit_ge (length existing)) as HK.
  set (K := dynamic_limit (length existing)) in *.
  destruct (known_feed_at env (scraped_urls w) 0 Hfeed) as (_ & _ & _ & _ & _ & Hpos).
  edestruct (changing_feed_reaches_limit urljoin env (scraped_urls w) Hfeed Hcalm K (K - 1)
               Hdiff max_scroll_attempts w (mkLoop existing 0 0 0 0 0))
    as (w' & ls' & Hrun & H1 & H2 & H3 & H4); simpl;
    try reflexivity; try lia; try congruence.
  exists w', ls'. split; [exact Hrun|]. simpl in H2, H3.
  repeat split; try assumption. lia.
Qed.

End StopConditions.

(** C2, as the code has it.  The breaks are tested in the order no growth,
    empty, all known, and the first that holds gives the reason; the loop
    always halts, with a reason that its counters justify, the all-known
    limit being max(200, existing // 15 + 100) and the attempts stopping
    at 5000.  A feed of known nodes whose node count never changes halts
    for "actual end" at the tenth scroll; a feed of known nodes whose node
    count changes at every iteration halts for "scroll limit" when the
    all-known counter reaches the limit. *)
Theorem stop_conditions :
  (forall K ls,
      (stop_check K ls = Some ActualEnd
       <-> (10 <= consecutive_no_scroll_progress ls)%nat)
      /\ (stop_check K ls = Some NoArticles
          <-> (consecutive_no_scroll_progress ls < 10)%nat
              /\ (5 <= consecutive_no_new_content ls)%nat)
      /\ (stop_check K ls = Some ScrollLimit
          <-> (consecutive_no_scroll_progress ls < 10)%nat
              /\ (consecutive_no_new_content ls < 5)%nat
              /\ (K <= consecutive_all_known_content ls)%nat)
      /\ (stop_check K ls = None
          <-> (consecutive_no_scroll_progress ls < 10)%nat
              /\ (consecutive_no_new_content ls < 5)%nat
              /\ (consecutive_all_known_content ls < K)%nat))
  /\ (forall urljoin env existing w,
         (_scroll_and_load_content urljoin env existing w).1.1 <> OutOfFuel)
  /\ (forall urljoin env existing w r w' ls',
         _scroll_and_load_content urljoin env existing w = (Halted r, w', ls') ->
         justified (Nat.max 200 (length existing / 15 + 100)) r ls'
         /\ (r = MaxAttempts -> scroll_attempts ls' = 5000%nat))
  /\ (forall urljoin env existing w c,
         known_feed env (scraped_urls w) -> calm env -> save_interval w <> 0%nat ->
         (forall k, count_at env k = c) ->
         exists w' ls',
           _scroll_and_load_content urljoin env existing w = (Halted ActualEnd, w', ls')
           /\ scroll_attempts ls' = 10%nat
           /\ consecutive_no_scroll_progress ls' = 10%nat
           /\ (consecutive_all_known_content ls' < dynamic_limit (length existing))%nat
           /\ articles_found ls' = existing)
  /\ (forall urljoin env existing w,
         known_feed env (scraped_urls w) -> calm env -> save_interval w <> 0%nat ->
         (forall k, count_at env (S k) <> count_at env k) ->
         (dynamic_limit (length existing) <= max_scroll_attempts)%nat ->
         exists w' ls',
           _scroll_and_load_content urljoin env existing w = (Halted ScrollLimit, w', ls')
           /\ consecutive_all_known_content ls' = dynamic_limit (length existing)
           /\ S (scroll_attempts ls') = dynamic_limit (length existing)
           /\ articles_found ls' = existing).
Proof.
  split; [exact stop_check_priority|].
  split; [exact scroll_and_load_content_ends|].
  split; [|split; [exact steady_feed_run|exact changing_feed_run]].
  intros urljoin env existing w r w' ls' H.
  rewrite scroll_and_load_content_unfold in H.
  apply scroll_loop_justified in H; [|apply initial_head_ok].
  split; [exact H|]. intros ->. destruct H as (_ & _ & H). exact H.
Qed.

Lemma plain_node_known : known_node (scraped_urls world_a) (plain_node "/a").
Proof.
  split; [reflexivity|]. exists "/a". split; [reflexivity|].
  change (url_a ∈@{gset string} {[ url_a ]}). apply elem_of_singleton_2. reflexivity.
Qed.

Lemma static_feed_known : known_feed static_env (scraped_urls world_a).
Proof.
  intros k. exists [plain_node "/a"]. split; [reflexivity|]. split; [discriminate|].
  constructor; [exact plain_node_known|constructor].
Qed.

Lemma alternating_feed_known : known_feed alternating_env (scraped_urls world_a).
Proof.
  pose proof plain_node_known as Hn.
  intros k. eexists. split; [reflexivity|].
  destruct (Nat.even k); (split; [discriminate|]);
    repeat (constructor; [exact Hn|]); constructor.
Qed.

Lemma alternating_feed_changes k :
  count_at alternating_env (S k) <> count_at alternating_env k.
Proof.
  unfold count_at, alternating_env, quiet_env. cbn [env_feed].
  rewrite Nat.even_succ, <- Nat.negb_even.
  destruct (Nat.even k); simpl; discriminate.
Qed.

Lemma quiet_env_calm feed : calm (quiet_env feed).
Proof. intros k e. discriminate. Qed.

Lemma stop_conditions_witness :
  (_scroll_and_load_content sample_urljoin static_env [article_a] world_a).1.1
  = Halted ActualEnd
  /\ (_scroll_and_load_content sample_urljoin alternating_env [article_a] world_a).1.1
     = Halted ScrollLimit.
Proof.
  destruct stop_conditions as (_ & _ & _ & Hsteady & Hchanging).
  split.
  - destruct (Hsteady sample_urljoin static_env [article_a] world_a 1%nat)
      as (w' & ls' & -> & _); try reflexivity.
    + exact static_feed_known.
    + apply quiet_env_calm.
    + discriminate.
  - destruct (Hchanging sample_urljoin alternating_env [article_a] world_a)
      as (w' & ls' & -> & _); try reflexivity.
    + exact alternating_feed_known.
    + apply quiet_env_calm.
    + discriminate.
    + exact alternating_feed_changes.
    + apply Nat.leb_le. vm_compute. reflexivity.
Defined.

(** C2 as stated fails: a feed that renders only a known node, iteration
    after iteration, halts for "actual end" at its eleventh iteration, long
    before the all-known counter reaches the limit of 200. *)
Lemma known_feed_actual_end_counterexample :
  known_feed static_env (scraped_urls world_a)
  /\ dynamic_limit (length [article_a]) = 200%nat
  /\ (_scroll_and_load_content sample_urljoin static_env [article_a] world_a).1.1
     = Halted ActualEnd
  /\ consecutive_all_known_content
       (_scroll_and_load_content sample_urljoin static_env [article_a] world_a).2
     = 11%nat.
Proof.
  split; [exact static_feed_known|].
  repeat split; vm_compute; reflexivity.
Qed.

Lemma counter_updates_witness :
  consecutive_all_known_content
    (scroll_iteration sample_urljoin static_env 200 world_a first_iteration).2 = 1%nat
  /\ consecutive_no_new_content
       (scroll_iteration sample_urljoin static_env 200 world_a first_iteration).2 = 0%nat.
Proof.
  destruct (scroll_iteration sample_urljoin static_env 200 world_a first_iteration)
    as [[r w'] ls'] eqn:E.
  assert (process_nodes sample_urljoin static_env [plain_node "/a"]
            (log (EvQuery 1) world_a, [article_a], mkTally 0 0 0)
          = (None, (log (EvQuery 1) world_a, [article_a], mkTally 0 1 0))) as Hn
      by reflexivity.
  destruct (counter_updates sample_urljoin static_env 200 world_a first_iteration
              r w' ls' [plain_node "/a"] _ _ _ eq_refl Hn E)
    as (_ & _ & _ & H & _).
  apply H; simpl; lia.
Defined.

(** ** Merging *)

Section Merging.

Variable urljoin : string -> string -> py_result string.
Variable env : Env.

Lemma probed_known_mono n w W :
  scraped_urls w ⊆ scraped_urls W -> probed_known n w = true -> probed_known n W = true.
Proof.
  unfold probed_known. destruct (data_href_of (node_el n)); [|discriminate].
  intros Hsub H. apply bool_decide_eq_true in H. apply bool_decide_eq_true. auto.
Qed.

(** What the extractor returns does not depend on the scraper. *)
Lemma extract_result_indep n w W :
  fst (_extract_article_data urljoin env n w) = fst (_extract_article_data urljoin env n W).
Proof.
  unfold _extract_article_data.
  destruct (match extract_fault n with Some e => Raise e | None => _ end) as [a|e];
    [reflexivity|]. destruct (is_Exception e); reflexivity.
Qed.

Lemma extract_article_data_record n w a w' :
  _extract_article_data urljoin env n w = (Ok (Some a), w') ->
  record_of urljoin env n = Some a.
Proof.
  unfold _extract_article_data, record_of. destruct (extract_fault n) as [e|].
  - destruct (is_Exception e); discriminate.
  - destruct (extract_fields urljoin (env_now env) (node_el n)) as [b|e].
    + intros [= -> _]. reflexivity.
    + destruct (is_Exception e); discriminate.
Qed.

(** A node leaves the record list alone or adds its record at the end. *)
Lemma process_node_appends n w f t o w' f' t' :
  process_node urljoin env n (w, f, t) = (o, (w', f', t')) ->
  f' = f
  \/ exists a, record_of urljoin env n = Some a /\ f' = f ++ [a]
                /\ (url a ∉ urls_of f) /\ url a ∈ scraped_urls w'.
Proof.
  unfold process_node.
  destruct (probe_fault n) as [e|].
  { destruct (is_Exception e); intros [= <- <- <- <-]; left; reflexivity. }
  destruct (probed_known n w).
  { intros [= <- <- <- <-]. left. reflexivity. }
  destruct (_extract_article_data urljoin env n w) as [[[a|]|e] w1] eqn:E.
  - destruct (bool_decide (url a ∈ urls_of f)) eqn:D; intros [= <- <- <- <-];
      [left; reflexivity|].
    apply bool_decide_eq_false in D. right. exists a.
    split; [eapply extract_article_data_record, E|].
    split; [reflexivity|]. split; [exact D|].
    apply extract_article_data_steps in E. subst w1. simpl.
    apply elem_of_union_l, elem_of_singleton_2. reflexivity.
  - intros [= <- <- <- <-]. left. reflexivity.
  - destruct (is_Exception e); intros [= <- <- <- <-]; left; reflexivity.
Qed.

Lemma records_of_cons n nodes :
  records_of urljoin env (n :: nodes)
  = match record_of urljoin env n with
    | Some a => a :: records_of urljoin env nodes
    | None => records_of urljoin env nodes
    end.
Proof. reflexivity. Qed.

(** The records added by a pass over a snapshot: none with a url of the
    list, in the order of the nodes. *)
Lemma process_nodes_appends nodes w f t o w' f' t' :
  process_nodes urljoin env nodes (w, f, t) = (o, (w', f', t')) ->
  exists new, f' = f ++ new
              /\ sublist new (records_of urljoin env nodes)
              /\ Forall (fun a => url a ∉ urls_of f) new.
Proof.
  revert w f t. induction nodes as [|n nodes IH]; simpl; intros w f t.
  - intros [= <- <- <- <-]. exists []. rewrite app_nil_r.
    split; [reflexivity|]. split; constructor.
  - fold (records_of urljoin env nodes).
    destruct (process_node urljoin env n (w, f, t)) as [[e|] [[w1 f1] t1]] eqn:E;
      apply process_node_appends in E.
    + intros [= <- <- <- <-]. destruct E as [->|(a & Ha & -> & Hnew & _)].
      * exists []. rewrite app_nil_r. split; [reflexivity|].
        split; [apply sublist_nil_l|constructor].
      * exists [a]. split; [reflexivity|]. rewrite Ha.
        split; [apply sublist_skip, sublist_nil_l|]. constructor; [exact Hnew|constructor].
    + intros H. apply IH in H as (new & -> & Hsub & Hfresh).
      destruct E as [->|(a & Ha & -> & Hnew & _)].
      * exists new. split; [reflexivity|]. split; [|exact Hfresh].
        destruct (record_of urljoin env n); [apply sublist_cons|]; exact Hsub.
      * exists (a :: new). rewrite <- app_assoc. split; [reflexivity|]. rewrite Ha.
        split; [apply sublist_skip, Hsub|]. constructor; [exact Hnew|].
        eapply Forall_impl; [exact Hfresh|]. intros b Hb Hin. apply Hb.
        rewrite urls_of_snoc. apply elem_of_app. left. exact Hin.
Qed.

(** A node that went through once adds nothing when it comes again, the
    ledger and the list having only grown since. *)
Lemma process_node_again n w f t w' f' t' W F T :
  process_node urljoin env n (w, f, t) = (None, (w', f', t')) ->
  scraped_urls w ⊆ scraped_urls W ->
  urls_of f' ⊆ urls_of F ->
  exists W' T', process_node urljoin env n (W, F, T) = (None, (W', F, T'))
                /\ scraped_urls W ⊆ scraped_urls W'.
Proof.
  unfold process_node. intros H Hsub Hurls.
  destruct (probe_fault n) as [e|].
  { destruct (is_Exception e); [|discriminate]. do 2 eexists.
    split; [reflexivity|reflexivity]. }
  destruct (probed_known n W) eqn:HW.
  { do 2 eexists. split; reflexivity. }
  destruct (probed_known n w) eqn:Hw.
  { rewrite (probed_known_mono n w W Hsub Hw) in HW. discriminate. }
  pose proof (extract_result_indep n w W) as Hind.
  destruct (_extract_article_data urljoin env n w) as [r w1] eqn:E1.
  destruct (_extract_article_data urljoin env n W) as [r' W1] eqn:E2.
  simpl in Hind. subst r'.
  pose proof (extract_article_data_steps urljoin env _ _ _ _ E2) as HW1.
  assert (scraped_urls W ⊆ scraped_urls W1) as Hgrow.
  { destruct r as [[a|]|e]; subst W1; simpl;
      [apply union_subseteq_r|reflexivity|reflexivity]. }
  destruct r as [[a|]|e].
  - assert (url a ∈ urls_of F) as Hin.
    { apply Hurls. destruct (bool_decide (url a ∈ urls_of f)) eqn:D;
        injection H as <- <- <-.
      - apply bool_decide_eq_true in D. exact D.
      - rewrite urls_of_snoc. apply elem_of_app. right. apply list_elem_of_singleton.
        reflexivity. }
    rewrite (bool_decide_eq_true_2 _ Hin). do 2 eexists. split; [reflexivity|exact Hgrow].
  - do 2 eexists. split; [reflexivity|exact Hgrow].
  - destruct (is_Exception e); [|discriminate].
    do 2 eexists. split; [reflexivity|exact Hgrow].
Qed.

Lemma process_nodes_again nodes w f t w1 f1 t1 :
  process_nodes urljoin env nodes (w, f, t) = (None, (w1, f1, t1)) ->
  forall W F T,
    scraped_urls w1 ⊆ scraped_urls W ->
    urls_of f1 ⊆ urls_of F ->
    exists W' T', process_nodes urljoin env nodes (W, F, T) = (None, (W', F, T'))
                  /\ scraped_urls W ⊆ scraped_urls W'.
Proof.
  revert w f t. induction nodes as [|n nodes IH]; simpl; intros w f t.
  - intros _ W F T _ _. do 2 eexists. split; reflexivity.
  - destruct (process_node urljoin env n (w, f, t)) as [[e|] [[w2 f2] t2]] eqn:E;
      [discriminate|].
    intros Hrest W F T Hsub Hurls.
    pose proof (steps_grows _ _ _ _ (process_nodes_steps _ _ _ _ _ _ _ _ _ _ Hrest)) as Hg2.
    pose proof (steps_grows _ _ _ _ (process_node_steps _ _ _ _ _ _ _ _ _ _ E)) as Hg1.
    destruct (process_node_again n w f t w2 f2 t2 W F T E) as (W' & T' & -> & HW').
    + etransitivity; [apply Hg1|]. etransitivity; [apply Hg2|exact Hsub].
    + intros x Hx. apply Hurls. destruct (grows_found _ _ _ _ Hg2) as [k ->].
      unfold urls_of in *. rewrite map_app. apply elem_of_app. left. exact Hx.
    + destruct (IH _ _ _ Hrest W' F T') as (W'' & T'' & -> & HW'').
      * etransitivity; eassumption.
      * exact Hurls.
      * do 2 eexists. split; [reflexivity|]. etransitivity; eassumption.
Qed.

End Merging.

Lemma merge_new A B :
  exists new, merge A B = A ++ new /\ sublist new B
              /\ Forall (fun a => url a ∉ urls_of A) new.
Proof.
  unfold merge. eexists. split; [reflexivity|]. split.
  - induction B as [|b B IH]; simpl; [constructor|].
    destruct (negb _); [apply sublist_skip|apply sublist_cons]; exact IH.
  - apply Forall_forall. intros a Ha. apply list_elem_of_In, filter_In in Ha as [_ Ha].
    apply negb_true_iff, bool_decide_eq_false in Ha.
    rewrite elem_of_list_to_set in Ha. exact Ha.
Qed.

Lemma merge_covers A B b : In b B -> url b ∈ urls_of (merge A B).
Proof.
  intros Hb. unfold merge, urls_of. cbv zeta. rewrite map_app. apply elem_of_app.
  destruct (bool_decide (url b ∈@{gset string} list_to_set (urls_of A))) eqn:D.
  - left. apply bool_decide_eq_true in D. rewrite elem_of_list_to_set in D. exact D.
  - right. apply list_elem_of_In, in_map, filter_In. split; [exact Hb|].
    apply negb_true_iff. exact D.
Qed.

Lemma merge_twice A B : merge (merge A B) B = merge A B.
Proof.
  unfold merge at 1. rewrite filter_none; [apply app_nil_r|].
  intros b Hb. apply negb_false_iff, bool_decide_eq_true, elem_of_list_to_set.
  apply merge_covers, Hb.
Qed.

(** C8: a pass of the loop over a snapshot, and the merge of [scrape_list],
    only add records at the end of the list, none with a url that the list
    has, in the order in which they come; a second pass over the same
    snapshot, and a second merge of the same batch, add nothing; a list
    without duplicate urls stays so. *)
Theorem merge_idempotent :
  (forall urljoin env nodes w f t o w' f' t',
      process_nodes urljoin env nodes (w, f, t) = (o, (w', f', t')) ->
      exists new, f' = f ++ new
                  /\ sublist new (records_of urljoin env nodes)
                  /\ Forall (fun a => url a ∉ urls_of f) new
                  /\ (NoDup (urls_of f) -> NoDup (urls_of f')))
  /\ (forall urljoin env nodes w f t w1 f1 t1,
         process_nodes urljoin env nodes (w, f, t) = (None, (w1, f1, t1)) ->
         forall t', exists w2 t2,
           process_nodes urljoin env nodes (w1, f1, t') = (None, (w2, f1, t2)))
  /\ (forall A B, exists new, merge A B = A ++ new /\ sublist new B
                              /\ Forall (fun a => url a ∉ urls_of A) new)
  /\ (forall A B, merge (merge A B) B = merge A B
                  /\ length (merge (merge A B) B) = length (merge A B))
  /\ (forall urljoin env A w r w' ls',
         NoDup (urls_of A) ->
         _scroll_and_load_content urljoin env A w = (r, w', ls') ->
         merge A (articles_found ls') = articles_found ls'
         /\ NoDup (urls_of (merge A (articles_found ls')))).
Proof.
  split.
  { intros urljoin env nodes w f t o w' f' t' H.
    destruct (process_nodes_appends _ _ _ _ _ _ _ _ _ _ H) as (new & Hf & Hsub & Hfresh).
    exists new. repeat split; try assumption.
    apply (steps_nodup _ _ _ _ (process_nodes_steps _ _ _ _ _ _ _ _ _ _ H)). }
  split.
  { intros urljoin env nodes w f t w1 f1 t1 H t'.
    destruct (process_nodes_again _ _ _ _ _ _ _ _ _ H w1 f1 t') as (W' & T' & Hrun & _);
      [reflexivity|reflexivity|]. eauto. }
  split; [exact merge_new|].
  split; [intros A B; rewrite merge_twice; split; reflexivity|].
  intros urljoin env A w r w' ls' Hnd H. rewrite scroll_and_load_content_unfold in H.
  apply scroll_loop_steps in H. simpl in H.
  rewrite (merge_extends A _ (steps_extends A _ _ _ _ H (extends_refl A))).
  split; [reflexivity|]. eapply steps_nodup; eassumption.
Qed.

Lemma merge_idempotent_witness :
  urls_of after_first_pass.1.2 = ["https://medium.com/n1"]
  /\ exists w2 t2,
      process_nodes sample_urljoin static_env doubled_snapshot
        (after_first_pass.1.1, after_first_pass.1.2, mkTally 0 0 0)
      = (None, (w2, after_first_pass.1.2, t2)).
Proof.
  destruct merge_idempotent as (Happ & Hagain & _).
  assert (process_nodes sample_urljoin static_env doubled_snapshot
            (fresh_scraper Missing, [], mkTally 0 0 0)
          = (None, (after_first_pass.1.1, after_first_pass.1.2, after_first_pass.2))) as H
      by (vm_compute; reflexivity).
  split.
  - destruct (Happ _ _ _ _ _ _ _ _ _ _ H) as (new & _ & _ & _ & Hnd).
    vm_compute. reflexivity.
  - exact (Hagain _ _ _ _ _ _ _ _ _ H (mkTally 0 0 0)).
Defined.

(** ** The session *)

(** The checkpoint on disk, if any, is consistent. *)
Definition file_ok (w : World) : Prop :=
  forall cp, checkpoint_file w = Stored cp -> cp_consistent cp.

Lemma step_file_ok w f w' f' :
  step (w, f) (w', f') ->
  ledger_matches w f /\ file_ok w -> ledger_matches w' f' /\ file_ok w'.
Proof.
  intros Hs [Hl Hf]. split; [eapply step_ledger; eassumption|].
  inversion Hs; subst; try exact Hf.
  intros cp [= <-]. unfold cp_consistent, checkpoint_data. simpl.
  rewrite list_to_set_elements_L. exact Hl.
Qed.

Lemma steps_file_ok w f w' f' :
  steps (w, f) (w', f') -> ledger_matches w f -> file_ok w -> file_ok w'.
Proof.
  intros H Hl Hf.
  apply (steps_invariant
           (fun x => ledger_matches (fst x) (snd x) /\ file_ok (fst x))
           (fun x y => match x, y with (a, b), (c, d) => step_file_ok a b c d end)
           _ _ H).
  split; assumption.
Qed.

Section Session.

Variable urljoin : string -> string -> py_result string.
Variable env : Env.

Lemma session_steps articles w r w' :
  session urljoin env articles w = (r, w') ->
  exists f', steps (w, articles) (w', f')
             /\ forall res, r = Ok res -> res = f'.
Proof.
  unfold session.
  assert (steps (w, articles) (log EvInitBrowser w, articles)) as H0
      by (apply steps_log; reflexivity).
  destruct (env_init env) as [e|].
  { intros [= <- <-]. exists articles. split; [exact H0|discriminate]. }
  assert (steps (w, articles) (log EvNavigate (log EvInitBrowser w), articles)) as H1
      by (eapply steps_trans; [exact H0|apply steps_log; reflexivity]).
  unfold _navigate_to_list.
  destruct (env_nav env) as [[|]|e].
  - destruct (_scroll_and_load_content urljoin env articles _) as [[[reason|e|] wl] ls] eqn:El;
      rewrite scroll_and_load_content_unfold in El; apply scroll_loop_steps in El; simpl in El;
      pose proof (steps_trans _ _ _ H1 El) as H2.
    + intros [= <- <-].
      rewrite (merge_extends articles _ (steps_extends articles _ _ _ _ H2 (extends_refl _))).
      exists (articles_found ls). split; [|intros res [= <-]; reflexivity].
      eapply steps_trans; [exact H2|].
      eapply steps_trans; [apply save_progress_steps|].
      eapply steps_trans; [apply rtc_once, step_checkpoint|].
      unfold _generate_summary. destruct (articles_found ls);
        [apply rtc_refl|apply steps_log; reflexivity].
    + intros [= <- <-]. exists (articles_found ls). split; [exact H2|discriminate].
    + intros [= <- <-]. exists (articles_found ls). split; [exact H2|discriminate].
  - intros [= <- <-]. exists articles. split; [exact H1|]. intros res [= <-]. reflexivity.
  - destruct (is_Exception e); intros [= <- <-]; exists articles;
      (split; [exact H1|]); [intros res [= <-]; reflexivity|discriminate].
Qed.

Lemma load_checkpoint_matches w articles w1 :
  scraped_urls w = ∅ -> file_ok w ->
  _load_checkpoint w = (articles, w1) ->
  ledger_matches w1 articles /\ file_ok w1 /\ events w1 = events w
  /\ disk_behind w1 articles.
Proof.
  unfold _load_checkpoint, ledger_matches, file_ok, disk_behind. intros He Hf.
  destruct (checkpoint_file w) as [| |cp] eqn:Ec; intros [= <- <-]; simpl.
  - rewrite Ec, He. repeat split; discriminate.
  - rewrite Ec, He. repeat split; discriminate.
  - split; [apply (Hf cp eq_refl)|]. split; [exact Hf|].
    split; [reflexivity|]. intros cp' [= <-]. reflexivity.
Qed.

Lemma scrape_list_steps resume w r w' :
  scrape_list urljoin env resume w = (r, w') ->
  exists articles w1 f',
    (if resume then _load_checkpoint w else ([], w)) = (articles, w1)
    /\ steps (w1, articles) (w', f')
    /\ forall res, r = Ok res -> res = f'.
Proof.
  unfold scrape_list.
  destruct (if resume then _load_checkpoint w else ([], w)) as [articles w1].
  destruct (session urljoin env articles w1) as [r0 ws] eqn:Es.
  intros [= <- <-]. apply session_steps in Es as (f' & Hs & Hres).
  exists articles, w1, f'. split; [reflexivity|]. split; [|exact Hres].
  eapply steps_trans; [exact Hs|]. apply steps_log. reflexivity.
Qed.

End Session.

(** C6, as the code has it.  The ledger only grows, over a node and over the
    whole loop; a node that the probe finds in the ledger is not extracted
    (the scraper and the list are left as they are); no record is appended
    whose url the ledger has; and in a session of a new scraper every
    checkpoint written, and the one left on disk, has a ledger that is the
    set of the urls of its records. *)
Theorem ledger_invariants :
  (forall urljoin env n w f t o w' f' t',
      process_node urljoin env n (w, f, t) = (o, (w', f', t')) ->
      scraped_urls w ⊆ scraped_urls w')
  /\ (forall urljoin env existing w r w' ls',
         _scroll_and_load_content urljoin env existing w = (r, w', ls') ->
         scraped_urls w ⊆ scraped_urls w')
  /\ (forall urljoin env n w f t,
         probe_fault n = None -> probed_known n w = true ->
         process_node urljoin env n (w, f, t) = (None, (w, f, count_known t)))
  /\ (forall urljoin env n w f t o w' f' t',
         ledger_matches w f ->
         process_node urljoin env n (w, f, t) = (o, (w', f', t')) ->
         ledger_matches w' f'
         /\ (f' = f \/ exists a, f' = f ++ [a] /\ (url a ∉ scraped_urls w)
                                  /\ url a ∈ scraped_urls w'))
  /\ (forall urljoin env resume w r w',
         scraped_urls w = ∅ -> file_ok w -> Forall event_ok (events w) ->
         scrape_list urljoin env resume w = (r, w') ->
         Forall event_ok (events w') /\ file_ok w'
         /\ forall res, r = Ok res -> ledger_matches w' res).
Proof.
  split.
  { intros urljoin env n w f t o w' f' t' H.
    apply process_node_steps, steps_grows in H. apply H. }
  split.
  { intros urljoin env existing w r w' ls' H. rewrite scroll_and_load_content_unfold in H.
    apply scroll_loop_steps, steps_grows in H. apply H. }
  split.
  { intros urljoin env n w f t Hp Hk. unfold process_node. rewrite Hp, Hk. reflexivity. }
  split.
  { intros urljoin env n w f t o w' f' t' Hl H.
    pose proof (process_node_steps _ _ _ _ _ _ _ _ _ _ H) as Hs.
    split; [exact (steps_ledger _ _ _ _ Hs Hl)|].
    destruct (process_node_appends _ _ _ _ _ _ _ _ _ _ H) as [->|(a & _ & -> & Hnew & Hin)];
      [left; reflexivity|].
    right. exists a. split; [reflexivity|]. split; [|exact Hin].
    rewrite Hl, elem_of_list_to_set. exact Hnew. }
  intros urljoin env resume w r w' He Hf Hev H.
  apply scrape_list_steps in H as (articles & w1 & f' & Hload & Hs & Hres).
  assert (ledger_matches w1 articles /\ file_ok w1 /\ events w1 = events w) as (Hl & Hf1 & Hev1).
  { destruct resume.
    - destruct (load_checkpoint_matches _ _ _ He Hf Hload) as (? & ? & ? & _). auto.
    - injection Hload as <- <-. unfold ledger_matches. rewrite He. auto. }
  rewrite <- Hev1 in Hev.
  destruct (steps_events_ok _ _ _ _ Hs Hl Hev) as [Hl' Hev'].
  split; [exact Hev'|]. split; [exact (steps_file_ok _ _ _ _ Hs Hl Hf1)|].
  intros res ->%Hres. exact Hl'.
Qed.

Lemma ledger_invariants_witness :
  process_node sample_urljoin static_env (plain_node "/a")
    (world_a, [article_a], mkTally 0 0 0)
  = (None, (world_a, [article_a], mkTally 0 1 0))
  /\ file_ok (scrape_list sample_urljoin static_env true (fresh_scraper Missing)).2
  /\ scraped_urls (fresh_scraper Missing)
     ⊆ scraped_urls
         (_scroll_and_load_content sample_urljoin unlinked_env [] (fresh_scraper Missing)).1.2.
Proof.
  destruct ledger_invariants as (_ & Hgrow & Hknown & _ & Hsession).
  split; [apply Hknown; [reflexivity|vm_compute; reflexivity]|]. split.
  - destruct (scrape_list sample_urljoin static_env true (fresh_scraper Missing))
      as [r w'] eqn:E.
    assert (file_ok (fresh_scraper Missing)) as Hf by (intros cp; discriminate).
    destruct (Hsession sample_urljoin static_env true (fresh_scraper Missing) r w'
                eq_refl Hf (Forall_nil_2 _) E) as (_ & H & _).
    exact H.
  - destruct (_scroll_and_load_content sample_urljoin unlinked_env []
                (fresh_scraper Missing)) as [[r w'] ls'] eqn:E.
    exact (Hgrow _ _ _ _ _ _ _ E).
Defined.

(** C6 as stated fails: a node without [data-href] cannot be probed; its
    record has the empty url, which enters the ledger at the first
    iteration, and the node is extracted again at each of the next five
    iterations (the record is not appended again). *)
Lemma unprobeable_node_reextracted_counterexample :
  extracted_urls (events unlinked_loop.1.2) = [""; ""; ""; ""; ""; ""]
  /\ urls_of (articles_found unlinked_loop.2) = [""]
  /\ elements (scraped_urls unlinked_loop.1.2) = [""].
Proof. repeat split; vm_compute; reflexivity. Qed.

(** ** The final save *)


Lemma checkpoints_written_log e w :
  is_checkpoint e = false ->
  checkpoints_written (events (log e w)) = checkpoints_written (events w).
Proof.
  intros He. unfold checkpoints_written, log. simpl. rewrite omap_app. simpl.
  destruct e; try discriminate; apply app_nil_r.
Qed.

Section FinalSave.

Variable urljoin : string -> string -> py_result string.
Variable env : Env.






End FinalSave.




(** * Further properties of the scraper *)

(** ** Counts are never negative *)

Lemma digits_value_acc_nonneg l acc :
  forallb Str.is_decimal l = true -> (0 <= acc)%Z ->
  (0 <= fold_left (fun a c => 10 * a + (Str.code c - 48)) l acc)%Z.
Proof.
  revert acc. induction l as [|c l IH]; simpl; intros acc Hd Hacc; [exact Hacc|].
  apply andb_true_iff in Hd as [Hc Hl]. apply IH; [exact Hl|].
  unfold Str.is_decimal in Hc. apply andb_true_iff in Hc as [Hc _].
  apply Z.leb_le in Hc. lia.
Qed.

Lemma digits_value_nonneg l :
  forallb Str.is_decimal l = true -> (0 <= Str.digits_value l)%Z.
Proof. intros H. apply digits_value_acc_nonneg; [exact H|lia]. Qed.

Lemma round_half_even_nonneg num den :
  (0 <= num)%Z -> (0 < den)%Z -> (0 <= Float.round_half_even num den)%Z.
Proof.
  intros Hn Hd. unfold Float.round_half_even.
  pose proof (Z.div_pos num den Hn Hd).
  repeat match goal with |- context [if ?b then _ else _] => destruct b end; lia.
Qed.

Lemma of_ratio_nonneg p q :
  (0 <= p)%Z -> (0 < q)%Z -> float_nonneg (Float.of_ratio p q).
Proof.
  intros Hp Hq. unfold Float.of_ratio.
  destruct (p =? 0)%Z; [simpl; lia|].
  set (e := Z.max _ _).
  match goal with |- context [if ?b then Float.Inf else _] => destruct b end;
    [exact I|]. simpl.
  destruct (Z.leb_spec 0 e).
  - apply round_half_even_nonneg; [exact Hp|].
    apply Z.mul_pos_pos; [exact Hq|]. apply Z.pow_pos_nonneg; lia.
  - apply round_half_even_nonneg; [|exact Hq].
    apply Z.mul_nonneg_nonneg; [exact Hp|]. apply Z.pow_nonneg. lia.
Qed.

Lemma mul_int_nonneg x k :
  float_nonneg x -> (0 <= k)%Z -> float_nonneg (Float.mul_int x k).
Proof.
  destruct x as [m e|]; simpl; [|trivial]. intros Hm Hk.
  destruct (Z.leb_spec 0 e).
  - apply of_ratio_nonneg; [|lia].
    apply Z.mul_nonneg_nonneg; [lia|]. apply Z.pow_nonneg. lia.
  - apply of_ratio_nonneg; [lia|]. apply Z.pow_pos_nonneg; lia.
Qed.

Lemma to_int_nonneg x n : float_nonneg x -> Float.to_int x = Ok n -> (0 <= n)%Z.
Proof.
  destruct x as [m e|]; simpl; [|discriminate]. intros Hm [= <-].
  destruct (Z.leb_spec 0 e).
  - apply Z.mul_nonneg_nonneg; [exact Hm|]. apply Z.pow_nonneg. lia.
  - apply Z.div_pos; [exact Hm|]. apply Z.pow_pos_nonneg; lia.
Qed.

Lemma of_string_nonneg s x : Float.of_string s = Ok x -> float_nonneg x.
Proof.
  unfold Float.of_string.
  destruct (Str.split "." s) as [|ip [|fp [|? ?]]]; try discriminate.
  - destruct (Str.all_decimal ip) eqn:Hd; simpl; [|discriminate].
    destruct (negb _); [|discriminate]. intros [= <-].
    apply of_ratio_nonneg; [apply digits_value_nonneg, Hd|lia].
  - destruct (Str.all_decimal ip) eqn:Hi; simpl; [|discriminate].
    destruct (Str.all_decimal fp) eqn:Hf; simpl; [|discriminate].
    destruct (negb _); [|discriminate]. intros [= <-].
    apply of_ratio_nonneg.
    + apply digits_value_nonneg. rewrite forallb_app.
      unfold Str.all_decimal in Hi, Hf. rewrite Hi, Hf. reflexivity.
    + apply Z.pow_pos_nonneg; lia.
Qed.

Lemma scaled_int_nonneg s k n :
  (forall k', k = Some k' -> (0 <= k')%Z) -> scaled_int s k = Ok n -> (0 <= n)%Z.
Proof.
  unfold scaled_int. intros Hk.
  destruct (Float.of_string s) as [x|] eqn:E; [|intros [= <-]; lia].
  apply of_string_nonneg in E. destruct k as [k|]; apply to_int_nonneg;
    [apply mul_int_nonneg; [exact E|apply Hk; reflexivity]|exact E].
Qed.

Lemma parse_number_nonneg text n : parse_number text = Ok n -> (0 <= n)%Z.
Proof.
  unfold parse_number.
  repeat match goal with |- context [if ?b then _ else _] => destruct b end;
    try (intros [= <-]; lia); apply scaled_int_nonneg; intros k' [= <-]; lia.
Qed.

Lemma max_list_nonneg l : (0 <= max_list l)%Z.
Proof. induction l as [|x l IH]; simpl; lia. Qed.

Lemma int_or_zero_nonneg s : (0 <= int_or_zero s)%Z.
Proof.
  unfold int_or_zero, Str.int_of_digits.
  destruct (Str.all_decimal s) eqn:E; [|lia]. apply digits_value_nonneg, E.
Qed.

Lemma parse_claps_nonneg text : (0 <= _parse_claps text)%Z.
Proof.
  unfold _parse_claps, claps_fallback.
  repeat match goal with
         | |- context [if ?b then _ else _] => destruct b
         | |- context [match ?x with _ => _ end] => destruct x
         end; try lia; try apply int_or_zero_nonneg; apply max_list_nonneg.
Qed.

(** X1: the engagement counts of a record are never negative: neither
    parser returns a negative number, whatever the text, and so no record
    the extractor makes has negative claps or responses. *)
Theorem counts_nonnegative :
  (forall text n, parse_number text = Ok n -> (0 <= n)%Z)
  /\ (forall text, (0 <= _parse_claps text)%Z)
  /\ (forall urljoin now el a,
         extract_fields urljoin now el = Ok a ->
         (0 <= claps a)%Z /\ (0 <= responses a)%Z).
Proof.
  split; [exact parse_number_nonneg|]. split; [exact parse_claps_nonneg|].
  intros urljoin now el a. unfold extract_fields.
  destruct (match el_responses el with Some t => _ | None => _ end) as [r|] eqn:Er;
    [|discriminate].
  destruct (match data_href_of el with Some h => _ | None => _ end); [|discriminate].
  intros [= <-]. simpl. split.
  - destruct (el_claps el); [apply parse_claps_nonneg|lia].
  - destruct (el_responses el); [eapply parse_number_nonneg, Er|].
    injection Er as <-. lia.
Qed.

Lemma counts_nonnegative_witness :
  parse_number "1.2K" = Ok 1200%Z /\ (0 <= 1200)%Z
  /\ (0 <= claps article_a)%Z /\ (0 <= responses article_a)%Z.
Proof.
  destruct counts_nonnegative as (Hn & _ & Hr).
  assert (parse_number "1.2K" = Ok 1200%Z) as E by (vm_compute; reflexivity).
  split; [exact E|]. split; [apply (Hn _ _ E)|].
  apply (Hr sample_urljoin "2024-12-31T00:00:00"
           (mkElement (Some "A title") None None None None None None (Some (Some "/a")))).
  vm_compute. reflexivity.
Defined.

(** ** Counts that are exact *)

Lemma log2_mul_bounds n d :
  (0 < n)%Z -> (0 < d)%Z ->
  (Z.log2 n + Z.log2 d <= Z.log2 (n * d) <= Z.log2 n + Z.log2 d + 1)%Z.
Proof.
  intros Hn Hd.
  pose proof (Z.log2_mul_below n d Hn Hd).
  pose proof (Z.log2_mul_above n d ltac:(lia) ltac:(lia)). lia.
Qed.

Lemma round_half_even_exact n d :
  (0 < d)%Z -> Float.round_half_even (n * d) d = n.
Proof.
  intros Hd. unfold Float.round_half_even.
  rewrite Z.div_mul by lia. rewrite Z.mod_mul by lia.
  destruct (Z.ltb_spec (2 * 0) d); [reflexivity|lia].
Qed.

(** A number below [2^53] goes through the floats unchanged. *)
Lemma of_ratio_exact n d :
  (0 <= n < 2 ^ 53)%Z -> (0 < d)%Z ->
  Float.of_ratio (n * d) d
  = if (n =? 0)%Z then Float.Finite 0 0
    else Float.Finite (n * 2 ^ (52 - Z.log2 n)) (Z.log2 n - 52).
Proof.
  intros [Hn0 Hn] Hd. unfold Float.of_ratio.
  destruct (Z.eqb_spec n 0) as [->|Hnz]; [reflexivity|].
  destruct (Z.eqb_spec (n * d) 0) as [E|_]; [nia|].
  assert (0 < n)%Z as Hpos by lia.
  pose proof (log2_mul_bounds n d Hpos Hd) as Hl.
  pose proof (Z.log2_nonneg n) as Hln.
  assert (Z.log2 n < 53)%Z as Hl53 by (apply Z.log2_lt_pow2; lia).
  pose proof (Z.log2_spec n Hpos) as [Hlo Hhi].
  set (t := (Z.log2 (n * d) - Z.log2 d)%Z) in *.
  assert ((if Float.ge_pow2 (n * d) d t then t else t - 1) = Z.log2 n)%Z as ->.
  { unfold Float.ge_pow2. destruct (Z.leb_spec 0 t); [|lia].
    destruct (Z.leb_spec (d * 2 ^ t) (n * d)) as [H1|H1].
    - assert (2 ^ t <= n)%Z by nia.
      assert (t <= Z.log2 n)%Z by (apply Z.log2_le_pow2; lia). lia.
    - assert (n < 2 ^ t)%Z by nia.
      assert (Z.log2 n < t)%Z by (apply Z.log2_lt_pow2; lia). lia. }
  rewrite Z.max_l by lia.
  assert (Z.log2 (n * 2 ^ (52 - Z.log2 n)) = 52)%Z as Hm.
  { rewrite Z.log2_mul_pow2 by lia. lia. }
  destruct (Z.leb_spec 0 (Z.log2 n - 52)) as [He|He].
  - assert (Z.log2 n = 52)%Z as E52 by lia.
    replace (52 - Z.log2 n)%Z with 0%Z in * by lia.
    replace (Z.log2 n - 52)%Z with 0%Z in * by lia.
    rewrite Z.pow_0_r, !Z.mul_1_r in *.
    rewrite round_half_even_exact by lia.
    replace (1024 <=? Z.log2 n + 0)%Z with false; [rewrite andb_false_r; reflexivity|].
    symmetry. apply Z.leb_gt. lia.
  - replace (- (Z.log2 n - 52))%Z with (52 - Z.log2 n)%Z by lia.
    replace (n * d * 2 ^ (52 - Z.log2 n))%Z with (n * 2 ^ (52 - Z.log2 n) * d)%Z by ring.
    rewrite round_half_even_exact by lia.
    rewrite Hm.
    replace (1024 <=? 52 + (Z.log2 n - 52))%Z with false; [rewrite andb_false_r; reflexivity|].
    symmetry. apply Z.leb_gt. lia.
Qed.

Lemma to_int_of_ratio_exact n d :
  (0 <= n < 2 ^ 53)%Z -> (0 < d)%Z -> Float.to_int (Float.of_ratio (n * d) d) = Ok n.
Proof.
  intros Hn Hd. rewrite of_ratio_exact by assumption.
  destruct (Z.eqb_spec n 0) as [->|Hnz]; [reflexivity|].
  simpl. pose proof (Z.log2_nonneg n).
  assert (Z.log2 n < 53)%Z by (apply Z.log2_lt_pow2; lia).
  destruct (Z.leb_spec 0 (Z.log2 n - 52)).
  - replace (52 - Z.log2 n)%Z with 0%Z by lia.
    replace (Z.log2 n - 52)%Z with 0%Z by lia. f_equal. simpl. lia.
  - replace (- (Z.log2 n - 52))%Z with (52 - Z.log2 n)%Z by lia.
    rewrite Z.div_mul; [reflexivity|]. apply Z.pow_nonzero; lia.
Qed.

Lemma mul_int_exact n k :
  (0 <= n)%Z -> (0 < k)%Z -> (n * k < 2 ^ 53)%Z ->
  Float.to_int (Float.mul_int (Float.of_ratio n 1) k) = Ok (n * k)%Z.
Proof.
  intros Hn Hk Hnk.
  assert (n < 2 ^ 53)%Z as Hn53 by nia.
  replace n with (n * 1)%Z at 1 by lia.
  rewrite of_ratio_exact by lia.
  destruct (Z.eqb_spec n 0) as [->|Hnz]; [reflexivity|].
  pose proof (Z.log2_nonneg n).
  assert (Z.log2 n < 53)%Z by (apply Z.log2_lt_pow2; lia).
  unfold Float.mul_int.
  destruct (Z.leb_spec 0 (Z.log2 n - 52)).
  - replace (52 - Z.log2 n)%Z with 0%Z by lia.
    replace (Z.log2 n - 52)%Z with 0%Z by lia.
    rewrite Z.pow_0_r, !Z.mul_1_r.
    replace (n * k)%Z with (n * k * 1)%Z at 1 by lia.
    apply to_int_of_ratio_exact; lia.
  - replace (- (Z.log2 n - 52))%Z with (52 - Z.log2 n)%Z by lia.
    replace (n * 2 ^ (52 - Z.log2 n) * k)%Z with (n * k * 2 ^ (52 - Z.log2 n))%Z by ring.
    apply to_int_of_ratio_exact; [lia|]. apply Z.pow_pos_nonneg; lia.
Qed.


Lemma chars_of_chars l : Str.chars (Str.of_chars l) = l.
Proof. apply list_ascii_of_string_of_list_ascii. Qed.

Lemma of_chars_chars s : Str.of_chars (Str.chars s) = s.
Proof. apply string_of_list_ascii_of_string. Qed.

Lemma chars_app s1 s2 : Str.chars (s1 +:+ s2) = Str.chars s1 ++ Str.chars s2.
Proof. induction s1 as [|c s1 IH]; simpl; [reflexivity|]. f_equal. exact IH. Qed.

Lemma decimal_upper c : Str.is_decimal c = true -> Str.upper_char c = c.
Proof.
  unfold Str.is_decimal, Str.upper_char. intros H.
  apply andb_true_iff in H as [H1 H2]. apply Z.leb_le in H1, H2.
  destruct (Z.leb_spec 97 (Str.code c)); [lia|reflexivity].
Qed.

Lemma decimal_keeps c : Str.is_decimal c = true -> keeps_number_char c = true.
Proof. unfold keeps_number_char. intros ->. reflexivity. Qed.

Lemma decimal_code c : Str.is_decimal c = true -> (48 <= Str.code c <= 57)%Z.
Proof.
  unfold Str.is_decimal. intros H.
  apply andb_true_iff in H as [H1 H2]. apply Z.leb_le in H1, H2. lia.
Qed.

Lemma decimal_not c d :
  Str.is_decimal c = true -> Str.is_decimal d = false -> Ascii.eqb d c = false.
Proof.
  intros Hc Hd. destruct (Ascii.eqb_spec d c) as [->|]; [congruence|reflexivity].
Qed.

Lemma decimals_cleaned l :
  forallb Str.is_decimal l = true ->
  List.filter keeps_number_char (List.map Str.upper_char l) = l.
Proof.
  induction l as [|c l IH]; simpl; [reflexivity|]. intros H.
  apply andb_true_iff in H as [Hc Hl].
  rewrite (decimal_upper c Hc), (decimal_keeps c Hc). f_equal. apply IH, Hl.
Qed.

Lemma decimals_without l d :
  forallb Str.is_decimal l = true -> Str.is_decimal d = false ->
  existsb (Ascii.eqb d) l = false
  /\ List.filter (fun c => negb (Ascii.eqb d c)) l = l
  /\ Str.split_chars d l = [l].
Proof.
  intros Hl Hd. induction l as [|c l IH]; simpl; [auto|].
  apply andb_true_iff in Hl as [Hc Hl]. destruct (IH Hl) as (IH1 & IH2 & IH3).
  rewrite (decimal_not c d Hc Hd), IH1, IH2. simpl.
  replace (Ascii.eqb c d) with false.
  2:{ symmetry. rewrite Ascii.eqb_sym. apply (decimal_not c d Hc Hd). }
  rewrite IH3. auto.
Qed.

Lemma of_string_decimals l :
  forallb Str.is_decimal l = true -> l <> [] ->
  Float.of_string (Str.of_chars l) = Ok (Float.of_ratio (Str.digits_value l) 1).
Proof.
  intros Hl Hne. unfold Float.of_string, Str.split. rewrite chars_of_chars.
  destruct (decimals_without l "."%char Hl eq_refl) as (_ & _ & ->). simpl.
  unfold Str.all_decimal. rewrite chars_of_chars, Hl. simpl.
  destruct (String.eqb_spec (Str.of_chars l) "") as [E|_].
  - exfalso. apply Hne. rewrite <- (chars_of_chars l), E. reflexivity.
  - reflexivity.
Qed.

Lemma scaled_int_decimals l k :
  forallb Str.is_decimal l = true -> l <> [] ->
  (0 < k)%Z -> (Str.digits_value l * k < 2 ^ 53)%Z ->
  scaled_int (Str.of_chars l) (Some k) = Ok (Str.digits_value l * k)%Z
  /\ (k = 1%Z -> scaled_int (Str.of_chars l) None = Ok (Str.digits_value l)).
Proof.
  intros Hl Hne Hk Hv. unfold scaled_int. rewrite (of_string_decimals l Hl Hne).
  pose proof (digits_value_nonneg l Hl) as H0.
  split.
  - apply mul_int_exact; assumption.
  - intros ->. replace (Str.digits_value l) with (Str.digits_value l * 1)%Z at 1 by lia.
    apply to_int_of_ratio_exact; lia.
Qed.

Lemma of_chars_nonempty l : l <> [] -> Str.of_chars l <> "".
Proof. destruct l; [congruence|discriminate]. Qed.

Lemma eqb_nonempty s : s <> "" -> String.eqb s "" = false.
Proof. intros H. destruct (String.eqb_spec s ""); congruence. Qed.


Lemma parse_number_plain s :
  Str.all_decimal s = true -> s <> "" ->
  (Str.digits_value (Str.chars s) < 2 ^ 53)%Z ->
  parse_number s = Ok (Str.digits_value (Str.chars s)).
Proof.
  intros Hd Hne Hv. unfold Str.all_decimal in Hd.
  assert (Str.chars s <> []) as Hl.
  { intros E. apply Hne. rewrite <- (of_chars_chars s), E. reflexivity. }
  unfold parse_number. rewrite (eqb_nonempty s Hne).
  unfold clean_number_text. rewrite (decimals_cleaned _ Hd).
  cbv zeta. rewrite (eqb_nonempty _ (of_chars_nonempty _ Hl)).
  unfold Str.contains. rewrite chars_of_chars.
  destruct (decimals_without _ "K"%char Hd eq_refl) as (-> & _ & _).
  destruct (decimals_without _ "M"%char Hd eq_refl) as (-> & _ & _).
  apply (scaled_int_decimals _ 1%Z Hd Hl); lia.
Qed.

Lemma parse_number_unit s c k :
  Str.all_decimal s = true -> s <> "" ->
  unit_factor c = Some k ->
  (Str.digits_value (Str.chars s) * k < 2 ^ 53)%Z ->
  parse_number (s +:+ String c "") = Ok (Str.digits_value (Str.chars s) * k)%Z.
Proof.
  intros Hd Hne Hc Hv. unfold Str.all_decimal in Hd.
  assert (Str.chars s <> []) as Hl.
  { intros E. apply Hne. rewrite <- (of_chars_chars s), E. reflexivity. }
  set (l := Str.chars s) in *.
  assert (exists C, (C = "K"%char /\ k = 1000%Z \/ C = "M"%char /\ k = 1000000%Z)
                    /\ Str.upper_char c = C) as (C & HC & Hup).
  { unfold unit_factor in Hc.
    destruct (Ascii.eqb_spec c "K") as [->|]; [injection Hc as <-; eexists; split; [left; eauto|reflexivity]|].
    destruct (Ascii.eqb_spec c "k") as [->|]; [injection Hc as <-; eexists; split; [left; eauto|reflexivity]|].
    destruct (Ascii.eqb_spec c "M") as [->|]; [injection Hc as <-; eexists; split; [right; eauto|reflexivity]|].
    destruct (Ascii.eqb_spec c "m") as [->|]; [injection Hc as <-; eexists; split; [right; eauto|reflexivity]|].
    discriminate. }
  unfold parse_number.
  rewrite eqb_nonempty.
  2:{ intros E. apply (f_equal Str.chars) in E. rewrite chars_app in E.
      destruct (Str.chars s); discriminate. }
  unfold clean_number_text. rewrite chars_app. fold l.
  rewrite List.map_app, List.filter_app, (decimals_cleaned _ Hd).
  change (Str.chars (String c "")) with [c]. cbn [List.map]. rewrite Hup.
  assert (List.filter keeps_number_char [C] = [C]) as ->
    by (destruct HC as [[-> _]|[-> _]]; reflexivity).
  cbv zeta. rewrite eqb_nonempty by (apply of_chars_nonempty; destruct l; discriminate).
  unfold Str.contains, Str.remove_char. rewrite !chars_of_chars, !existsb_app, !List.filter_app.
  destruct (decimals_without _ "K"%char Hd eq_refl) as (-> & -> & _).
  destruct (decimals_without _ "M"%char Hd eq_refl) as (-> & -> & _).
  destruct HC as [[-> ->]|[-> ->]]; simpl; rewrite app_nil_r;
    apply (scaled_int_decimals _ _ Hd Hl); lia.
Qed.

(** X2: a count written in plain decimal digits, alone or followed by one
    unit letter (K, k, M, m), is parsed exactly as long as the result is
    below 2^53: the way through the floats loses nothing. *)
Theorem parse_number_exact s :
  Str.all_decimal s = true -> s <> "" ->
  ((Str.digits_value (Str.chars s) < 2 ^ 53)%Z ->
   parse_number s = Ok (Str.digits_value (Str.chars s)))
  /\ (forall c k,
         unit_factor c = Some k ->
         (Str.digits_value (Str.chars s) * k < 2 ^ 53)%Z ->
         parse_number (s +:+ String c "") = Ok (Str.digits_value (Str.chars s) * k)%Z).
Proof.
  intros Hd Hne. split.
  - apply parse_number_plain; assumption.
  - intros c k. apply parse_number_unit; assumption.
Qed.

Lemma parse_number_exact_witness :
  parse_number "9007199254740991" = Ok 9007199254740991%Z
  /\ parse_number "9007199254m" = Ok 9007199254000000%Z.
Proof.
  destruct (parse_number_exact "9007199254740991") as [H1 _];
    [reflexivity|discriminate|].
  destruct (parse_number_exact "9007199254") as [_ H2];
    [reflexivity|discriminate|].
  split.
  - apply H1. vm_compute. reflexivity.
  - apply (H2 "m"%char 1000000%Z); [reflexivity|vm_compute; reflexivity].
Defined.

(** ** Texts that are too short to overflow *)

Lemma round_half_even_le num den B :
  (0 <= num)%Z -> (0 < den)%Z -> (num < den * B)%Z ->
  (0 <= Float.round_half_even num den <= B)%Z.
Proof.
  intros Hn Hd Hlt. split; [apply round_half_even_nonneg; assumption|].
  unfold Float.round_half_even.
  assert (num / den < B)%Z by (apply Z.div_lt_upper_bound; assumption).
  repeat match goal with |- context [if ?b then _ else _] => destruct b end; lia.
Qed.

Lemma pow2_split a b : (0 <= a)%Z -> (0 <= b)%Z -> (2 ^ (a + b) = 2 ^ a * 2 ^ b)%Z.
Proof. intros. apply Z.pow_add_r; assumption. Qed.

Lemma pow2_pos a : (0 <= a)%Z -> (0 < 2 ^ a)%Z.
Proof. intros. apply Z.pow_pos_nonneg; lia. Qed.

Lemma lt_pow2_exponent p q :
  (0 < p)%Z -> (0 < q)%Z ->
  let t := (Z.log2 p - Z.log2 q)%Z in
  lt_pow2 p q ((if Float.ge_pow2 p q t then t else t - 1) + 1).
Proof.
  intros Hp Hq t.
  pose proof (Z.log2_spec p Hp) as [Hp1 Hp2].
  pose proof (Z.log2_spec q Hq) as [Hq1 Hq2].
  pose proof (Z.log2_nonneg p) as Ha. pose proof (Z.log2_nonneg q) as Hb.
  replace (Z.succ (Z.log2 p)) with (Z.log2 p + 1)%Z in Hp2 by lia.
  unfold Float.ge_pow2, lt_pow2.
  destruct (Z.leb_spec 0 t) as [Ht|Ht].
  - destruct (Z.leb_spec (q * 2 ^ t) p) as [H|H].
    + destruct (Z.leb_spec 0 (t + 1)); [|lia].
      replace (Z.log2 p + 1)%Z with (Z.log2 q + (t + 1))%Z in Hp2 by lia.
      rewrite pow2_split in Hp2 by lia.
      pose proof (pow2_pos (t + 1) ltac:(lia)). nia.
    + replace (t - 1 + 1)%Z with t by lia.
      destruct (Z.leb_spec 0 t); [exact H|lia].
  - destruct (Z.leb_spec q (p * 2 ^ (- t))) as [H|H].
    + destruct (Z.leb_spec 0 (t + 1)) as [Ht1|Ht1].
      * assert (t = -1)%Z as Et by lia. rewrite Et. simpl (-1 + 1)%Z.
        rewrite Z.pow_0_r.
        assert (Z.log2 q = Z.log2 p + 1)%Z as Eq by lia. rewrite Eq in Hq1. lia.
      * replace (Z.log2 q) with ((Z.log2 p + 1) + (- (t + 1)))%Z in Hq1 by lia.
        rewrite pow2_split in Hq1 by lia.
        pose proof (pow2_pos (- (t + 1)) ltac:(lia)). nia.
    + replace (t - 1 + 1)%Z with t by lia.
      destruct (Z.leb_spec 0 t); [lia|exact H].
Qed.

Lemma exponent_le p q N :
  (0 < p)%Z -> (0 < q)%Z -> (0 <= N)%Z -> (p < q * 2 ^ N)%Z ->
  let t := (Z.log2 p - Z.log2 q)%Z in
  ((if Float.ge_pow2 p q t then t else t - 1) <= N)%Z.
Proof.
  intros Hp Hq HN Hlt t.
  assert (t <= N)%Z.
  { assert (Z.log2 p <= Z.log2 (q * 2 ^ N))%Z by (apply Z.log2_le_mono; lia).
    rewrite Z.log2_mul_pow2 in H by lia. lia. }
  destruct (Float.ge_pow2 p q t); lia.
Qed.

(** A ratio below [2^N], [N <= 1022], rounds to a finite float. *)
Lemma of_ratio_finite p q N :
  (0 <= p)%Z -> (0 < q)%Z -> (0 <= N <= 1022)%Z -> (p < q * 2 ^ N)%Z ->
  exists m e, Float.of_ratio p q = Float.Finite m e
              /\ (0 <= m <= 2 ^ 53)%Z /\ (e <= Z.max (N - 52) 0)%Z.
Proof.
  intros Hp Hq HN Hlt. unfold Float.of_ratio.
  destruct (Z.eqb_spec p 0) as [->|Hnz].
  { exists 0%Z, 0%Z. split; [reflexivity|]. split; lia. }
  assert (0 < p)%Z as Hpos by lia.
  pose proof (lt_pow2_exponent p q Hpos Hq) as Hup.
  pose proof (exponent_le p q N Hpos Hq ltac:(lia) Hlt) as HE.
  cbv zeta in Hup, HE.
  set (E := if Float.ge_pow2 p q (Z.log2 p - Z.log2 q) then _ else _) in *.
  cbv zeta.
  set (e := Z.max (E - 52) (-1074)).
  assert (E - 52 <= e)%Z as He1 by lia.
  assert (e <= Z.max (N - 52) 0)%Z as He2 by lia.
  set (m := if (0 <=? e)%Z then _ else _).
  assert (0 <= m <= 2 ^ 53)%Z as Hm.
  { subst m. unfold lt_pow2 in Hup. destruct (Z.leb_spec 0 e) as [He|He].
    - apply round_half_even_le; [lia| |].
      + apply Z.mul_pos_pos; [lia|apply pow2_pos; lia].
      + assert (e = E - 52)%Z as Ee by lia.
        destruct (Z.leb_spec 0 (E + 1)); [|lia].
        replace (E + 1)%Z with (e + 53)%Z in Hup by lia.
        rewrite pow2_split in Hup by lia. lia.
    - apply round_half_even_le; [|lia|].
      + apply Z.mul_nonneg_nonneg; [lia|]. apply Z.pow_nonneg. lia.
      + destruct (Z.leb_spec 0 (E + 1)) as [HE1|HE1].
        * assert (2 ^ (E + 1) * 2 ^ (- e) <= 2 ^ 53)%Z.
          { rewrite <- pow2_split by lia. apply Z.pow_le_mono_r; lia. }
          pose proof (pow2_pos (- e) ltac:(lia)).
          pose proof (pow2_pos (E + 1) ltac:(lia)). nia.
        * destruct (Z.le_gt_cases e (E + 1)) as [Hc|Hc].
          -- replace (- e)%Z with (- (E + 1) + (E + 1 - e))%Z by lia.
             rewrite pow2_split by lia.
             assert (2 ^ (E + 1 - e) <= 2 ^ 53)%Z by (apply Z.pow_le_mono_r; lia).
             pose proof (pow2_pos (E + 1 - e) ltac:(lia)). nia.
          -- assert (2 ^ (- e) <= 2 ^ (- (E + 1)))%Z by (apply Z.pow_le_mono_r; lia).
             pose proof (pow2_pos (- e) ltac:(lia)). nia. }
  exists m, e.
  replace ((0 <? m)%Z && (1024 <=? Z.log2 m + e)%Z) with false; [auto|].
  symmetry. apply andb_false_iff. right. apply Z.leb_gt.
  assert (Z.log2 m <= 53)%Z.
  { destruct (Z.eq_dec m 0) as [->|]; [simpl; lia|].
    replace 53%Z with (Z.log2 (2 ^ 53)) by reflexivity.
    apply Z.log2_le_mono. lia. }
  lia.
Qed.

Lemma digits_value_acc_lt l acc :
  forallb Str.is_decimal l = true -> (0 <= acc)%Z ->
  (fold_left (fun a c => 10 * a + (Str.code c - 48)) l acc
   < (acc + 1) * 10 ^ Z.of_nat (length l))%Z.
Proof.
  revert acc. induction l as [|c l IH]; intros acc Hd Hacc.
  - simpl. lia.
  - cbn [fold_left forallb length] in *. apply andb_true_iff in Hd as [Hc Hl].
    pose proof (decimal_code c Hc).
    specialize (IH (10 * acc + (Str.code c - 48))%Z Hl ltac:(lia)).
    rewrite Nat2Z.inj_succ, Z.pow_succ_r by lia.
    assert (0 < 10 ^ Z.of_nat (length l))%Z by (apply Z.pow_pos_nonneg; lia).
    nia.
Qed.

Lemma digits_value_lt l :
  forallb Str.is_decimal l = true ->
  (Str.digits_value l < 10 ^ Z.of_nat (length l))%Z.
Proof.
  intros H. pose proof (digits_value_acc_lt l 0 H ltac:(lia)) as P.
  unfold Str.digits_value. lia.
Qed.


Lemma split_chars_length sep l :
  (length (concat (Str.split_chars sep l)) <= length l)%nat.
Proof.
  induction l as [|c l IH]; simpl; [lia|].
  destruct (Ascii.eqb c sep); simpl; [lia|].
  destruct (Str.split_chars sep l) as [|w ws]; simpl in *; lia.
Qed.

Lemma pow10_300 : (10 ^ 300 < 2 ^ 997)%Z.
Proof. vm_compute. reflexivity. Qed.

Lemma pow10_le n : (n <= 300)%nat -> (10 ^ Z.of_nat n < 2 ^ 997)%Z.
Proof.
  intros H. eapply Z.le_lt_trans; [|exact pow10_300].
  apply Z.pow_le_mono_r; lia.
Qed.

Lemma of_string_small s x :
  (String.length s <= 300)%nat -> Float.of_string s = Ok x -> float_small x.
Proof.
  intros Hlen. unfold Float.of_string, Str.split.
  pose proof (split_chars_length "."%char (Str.chars s)) as Hsum.
  assert (length (Str.chars s) = String.length s) as El.
  { unfold Str.chars. clear. induction s; simpl; congruence. }
  rewrite El in Hsum.
  destruct (Str.split_chars "." (Str.chars s)) as [|ip [|fp [|? ?]]]; simpl;
    try discriminate.
  - unfold Str.all_decimal. rewrite chars_of_chars.
    destruct (forallb Str.is_decimal ip) eqn:Hd; simpl; [|discriminate].
    destruct (negb _); [|discriminate]. intros [= <-].
    simpl in Hsum. rewrite app_nil_r in Hsum.
    pose proof (digits_value_lt ip Hd). pose proof (digits_value_nonneg ip Hd).
    pose proof (pow10_le (length ip) ltac:(lia)).
    destruct (of_ratio_finite (Str.digits_value ip) 1 997) as (m & e & -> & Hm & He);
      [lia|lia|lia|lia|]. simpl. lia.
  - unfold Str.all_decimal. rewrite !chars_of_chars.
    destruct (forallb Str.is_decimal ip) eqn:Hi; simpl; [|discriminate].
    destruct (forallb Str.is_decimal fp) eqn:Hf; simpl; [|discriminate].
    destruct (negb _); [|discriminate]. intros [= <-].
    simpl in Hsum. rewrite app_nil_r, length_app in Hsum.
    assert (forallb Str.is_decimal (ip ++ fp) = true) as Hd
      by (rewrite forallb_app, Hi, Hf; reflexivity).
    pose proof (digits_value_lt _ Hd) as Hv. pose proof (digits_value_nonneg _ Hd).
    rewrite length_app in Hv.
    pose proof (pow10_le (length ip + length fp) ltac:(lia)).
    assert (0 < 10 ^ Z.of_nat (String.length (Str.of_chars fp)))%Z
      by (apply Z.pow_pos_nonneg; lia).
    destruct (of_ratio_finite (Str.digits_value (ip ++ fp))
                (10 ^ Z.of_nat (String.length (Str.of_chars fp))) 997)
      as (m & e & -> & Hm & He); [lia|lia|lia| |simpl; lia].
    pose proof (pow2_pos 997 ltac:(lia)). nia.
Qed.

Lemma mul_int_small x k :
  float_small x -> (0 <= k <= 2 ^ 20)%Z ->
  exists m e, Float.mul_int x k = Float.Finite m e.
Proof.
  destruct x as [m e|]; [|intros []]. intros [Hm He] Hk. unfold Float.mul_int.
  assert (0 <= m * k <= 2 ^ 53 * 2 ^ 20)%Z as Hmk by nia.
  destruct (Z.leb_spec 0 e) as [H0|H0].
  - pose proof (pow2_pos e H0) as Hpos.
    assert (2 ^ e <= 2 ^ 945)%Z as Hle by (apply Z.pow_le_mono_r; lia).
    assert (0 <= m * k * 2 ^ e)%Z as Hp by nia.
    assert (m * k * 2 ^ e < 1 * 2 ^ 1019)%Z as Hlt.
    { replace (2 ^ 1019)%Z with (2 ^ 53 * 2 ^ 20 * 2 ^ 945 * 2)%Z by reflexivity.
      nia. }
    destruct (of_ratio_finite (m * k * 2 ^ e) 1 1019 Hp ltac:(lia) ltac:(lia) Hlt)
      as (m' & e' & -> & _). eauto.
  - pose proof (pow2_pos (- e) ltac:(lia)) as Hpos.
    assert (m * k < 2 ^ (- e) * 2 ^ 74)%Z as Hlt.
    { replace (2 ^ 74)%Z with (2 ^ 53 * 2 ^ 20 * 2)%Z by reflexivity. nia. }
    destruct (of_ratio_finite (m * k) (2 ^ (- e)) 74 ltac:(lia) Hpos ltac:(lia) Hlt)
      as (m' & e' & -> & _). eauto.
Qed.

Lemma scaled_int_short s k :
  (String.length s <= 300)%nat ->
  (forall k', k = Some k' -> (0 <= k' <= 2 ^ 20)%Z) ->
  exists n, scaled_int s k = Ok n.
Proof.
  intros Hlen Hk. unfold scaled_int.
  destruct (Float.of_string s) as [x|] eqn:E; [|eauto].
  apply of_string_small in E; [|exact Hlen].
  destruct k as [k|].
  - destruct (mul_int_small x k E (Hk k eq_refl)) as (m & e & ->). simpl. eauto.
  - destruct x; [simpl; eauto|destruct E].
Qed.

Lemma length_of_chars l : String.length (Str.of_chars l) = length l.
Proof. induction l; simpl; congruence. Qed.

Lemma length_chars s : length (Str.chars s) = String.length s.
Proof. induction s; simpl; congruence. Qed.

Lemma clean_number_text_length text :
  (String.length (clean_number_text text) <= String.length text)%nat.
Proof.
  unfold clean_number_text. rewrite length_of_chars.
  etransitivity; [apply List.filter_length_le|].
  rewrite List.length_map, length_chars. lia.
Qed.

Lemma remove_char_length c s :
  (String.length (Str.remove_char c s) <= String.length s)%nat.
Proof.
  unfold Str.remove_char. rewrite length_of_chars.
  etransitivity; [apply List.filter_length_le|]. rewrite length_chars. lia.
Qed.

(** X3: a text of at most 300 characters never makes the parser raise:
    the overflow of the float conversion needs more digits than that. *)
Theorem parse_number_short_text text :
  (String.length text <= 300)%nat -> exists n, parse_number text = Ok n.
Proof.
  intros Hlen. unfold parse_number.
  destruct (String.eqb text ""); [eauto|]. cbv zeta.
  pose proof (clean_number_text_length text) as Hc.
  destruct (String.eqb (clean_number_text text) ""); [eauto|].
  destruct (Str.contains "K" (clean_number_text text)).
  { apply scaled_int_short.
    - pose proof (remove_char_length "K" (clean_number_text text)). lia.
    - intros k' [= <-]. split; [lia|vm_compute; discriminate]. }
  destruct (Str.contains "M" (clean_number_text text)).
  { apply scaled_int_short.
    - pose proof (remove_char_length "M" (clean_number_text text)). lia.
    - intros k' [= <-]. split; [lia|vm_compute; discriminate]. }
  apply scaled_int_short; [lia|discriminate].
Qed.

Lemma parse_number_short_text_witness : exists n, parse_number "12.5K claps" = Ok n.
Proof. apply parse_number_short_text. vm_compute. lia. Defined.

(** ** One failing node never stops a snapshot *)

Lemma urlsplit_raises ok url0 scheme0 e :
  Urllib.urlsplit ok url0 scheme0 = Raise e -> e = ValueError.
Proof.
  unfold Urllib.urlsplit.
  repeat match goal with
         | |- context [match ?x with _ => _ end] => destruct x
         end; congruence.
Qed.

Lemma urlparse_raises ok url0 scheme0 e :
  Urllib.urlparse ok url0 scheme0 = Raise e -> e = ValueError.
Proof.
  unfold Urllib.urlparse.
  destruct (Urllib.urlsplit ok url0 scheme0) eqn:E.
  - match goal with |- context [let '(_, _) := ?x in _] => destruct x end.
    discriminate.
  - intros [= <-]. eapply urlsplit_raises, E.
Qed.

Lemma urljoin_raises ok base u e :
  Urllib.urljoin ok base u = Raise e -> e = ValueError.
Proof.
  unfold Urllib.urljoin.
  destruct (String.eqb base ""); [discriminate|].
  destruct (String.eqb u ""); [discriminate|].
  destruct (Urllib.urlparse ok base "") as [b|e1] eqn:E1.
  2:{ intros [= <-]. eapply urlparse_raises, E1. }
  destruct (Urllib.urlparse ok u (Urllib.scheme b)) as [p|e2] eqn:E2.
  2:{ intros [= <-]. eapply urlparse_raises, E2. }
  repeat match goal with |- context [if ?c then _ else _] => destruct c end;
    discriminate.
Qed.

Lemma library_benign ok : benign_urljoin (urljoin_with ok).
Proof. intros base u e H. apply urljoin_raises in H. subst e. reflexivity. Qed.

Section Snapshot.

Variable urljoin : string -> string -> py_result string.
Variable env : Env.

Lemma extract_fields_raises now el e :
  benign_urljoin urljoin ->
  extract_fields urljoin now el = Raise e -> is_Exception e = true.
Proof.
  intros Hlib. unfold extract_fields.
  destruct (match el_responses el with Some t => _ | None => _ end) as [r|e1] eqn:Er.
  - destruct (match data_href_of el with Some h => _ | None => _ end) as [u|e2] eqn:Eu;
      [discriminate|]. intros [= <-].
    destruct (data_href_of el) as [h|]; [|discriminate].
    unfold extract_url in Eu.
    repeat match type of Eu with context [if ?c then _ else _] => destruct c end;
      try discriminate. eapply Hlib, Eu.
  - intros [= <-]. destruct (el_responses el) as [t|]; [|discriminate].
    apply parse_number_raises_only_overflow in Er. subst e1. reflexivity.
Qed.

Lemma process_node_counts n w f t w' f' t' :
  process_node urljoin env n (w, f, t) = (None, (w', f', t')) ->
  tally_total t' = S (tally_total t).
Proof.
  unfold process_node, tally_total.
  destruct (probe_fault n) as [e|].
  { destruct (is_Exception e); [|discriminate]. intros [= <- <- <-]. simpl. lia. }
  destruct (probed_known n w).
  { intros [= <- <- <-]. simpl. lia. }
  destruct (_extract_article_data urljoin env n w) as [[[a|]|e] w1].
  - destruct (bool_decide _); intros [= <- <- <-]; simpl; lia.
  - intros [= <- <- <-]. simpl. lia.
  - destruct (is_Exception e); [|discriminate]. intros [= <- <- <-]. simpl. lia.
Qed.

Lemma process_nodes_counts nodes w f t w' f' t' :
  process_nodes urljoin env nodes (w, f, t) = (None, (w', f', t')) ->
  tally_total t' = (tally_total t + length nodes)%nat.
Proof.
  revert w f t. induction nodes as [|n nodes IH]; simpl; intros w f t.
  - intros [= <- <- <-]. lia.
  - destruct (process_node urljoin env n (w, f, t)) as [[e|] [[w1 f1] t1]] eqn:E;
      [discriminate|].
    apply process_node_counts in E. intros H. apply IH in H. lia.
Qed.

Lemma process_node_completes n b :
  benign_urljoin urljoin -> benign_node n ->
  exists b', process_node urljoin env n b = (None, b').
Proof.
  intros Hlib [Hp He]. destruct b as [[w f] t]. unfold process_node.
  destruct (probe_fault n) as [e|].
  { rewrite (Hp e eq_refl). eauto. }
  destruct (probed_known n w); [eauto|].
  unfold _extract_article_data.
  destruct (extract_fault n) as [e|].
  { rewrite (He e eq_refl). eauto. }
  destruct (extract_fields urljoin (env_now env) (node_el n)) as [a|e] eqn:E.
  - destruct (bool_decide _); eauto.
  - rewrite (extract_fields_raises _ _ _ Hlib E). eauto.
Qed.

Lemma process_nodes_completes nodes b :
  benign_urljoin urljoin -> Forall benign_node nodes ->
  exists b', process_nodes urljoin env nodes b = (None, b').
Proof.
  intros Hlib H. revert b. induction H as [|n nodes Hn _ IH]; intros b; simpl.
  - eauto.
  - destruct (process_node_completes n b Hlib Hn) as [b' ->]. apply IH.
Qed.

End Snapshot.

(** X4: a node that fails does not stop the pass over a snapshot.  When
    the library and the nodes raise ordinary exceptions only, the pass goes
    through every node, and each node is counted exactly once, as extracted,
    as already known or as failed. *)
Theorem snapshot_accounting urljoin env nodes w f t :
  benign_urljoin urljoin -> Forall benign_node nodes ->
  exists w' f' t',
    process_nodes urljoin env nodes (w, f, t) = (None, (w', f', t'))
    /\ tally_total t' = (tally_total t + length nodes)%nat.
Proof.
  intros Hlib Hn.
  destruct (process_nodes_completes urljoin env nodes (w, f, t) Hlib Hn)
    as [[[w' f'] t'] E].
  exists w', f', t'. split; [exact E|].
  eapply process_nodes_counts, E.
Qed.

Lemma snapshot_accounting_witness :
  exists w' f' t',
    process_nodes sample_urljoin static_env
      [plain_node "/n1"; mkNode (node_el unlinked_node) (Some DriverError) None;
       mkNode (node_el (plain_node "/n2")) None (Some ValueError); plain_node "/n1"]
      (fresh_scraper Missing, [], mkTally 0 0 0)
    = (None, (w', f', t'))
    /\ tally_total t' = (tally_total (mkTally 0 0 0) + 4)%nat.
Proof.
  apply (snapshot_accounting sample_urljoin static_env
           [plain_node "/n1"; mkNode (node_el unlinked_node) (Some DriverError) None;
            mkNode (node_el (plain_node "/n2")) None (Some ValueError); plain_node "/n1"]).
  - apply library_benign.
  - repeat constructor; simpl; intros e [= <-]; reflexivity.
Defined.

(** ** The checkpoint during the loop *)

Lemma file_untouched_refl w : file_untouched w w.
Proof. repeat split. Qed.

Lemma file_untouched_trans w1 w2 w3 :
  file_untouched w1 w2 -> file_untouched w2 w3 -> file_untouched w1 w3.
Proof. intros (A & B & C) (D & E & F). repeat split; congruence. Qed.

Lemma file_untouched_log e w : is_checkpoint e = false -> file_untouched w (log e w).
Proof.
  intros H. repeat split. apply checkpoints_written_log, H.
Qed.

Lemma file_untouched_record u w : file_untouched w (record_url u w).
Proof. repeat split. Qed.

Section Checkpointing.

Variable urljoin : string -> string -> py_result string.
Variable env : Env.

Lemma extract_article_data_file n w r w' :
  _extract_article_data urljoin env n w = (r, w') -> file_untouched w w'.
Proof.
  intros H. apply extract_article_data_steps in H.
  destruct r as [[a|]|e]; subst w'.
  - eapply file_untouched_trans; [apply file_untouched_record|].
    apply file_untouched_log. reflexivity.
  - apply file_untouched_log. reflexivity.
  - apply file_untouched_log. reflexivity.
Qed.

Lemma process_node_file n w f t o w' f' t' :
  process_node urljoin env n (w, f, t) = (o, (w', f', t')) -> file_untouched w w'.
Proof.
  unfold process_node.
  destruct (probe_fault n) as [e|].
  { destruct (is_Exception e); intros [= <- <- <- <-]; apply file_untouched_refl. }
  destruct (probed_known n w).
  { intros [= <- <- <- <-]. apply file_untouched_refl. }
  destruct (_extract_article_data urljoin env n w) as [r w1] eqn:E.
  apply extract_article_data_file in E.
  destruct r as [[a|]|e].
  - destruct (bool_decide _); intros [= <- <- <- <-]; exact E.
  - intros [= <- <- <- <-]. exact E.
  - destruct (is_Exception e); intros [= <- <- <- <-]; exact E.
Qed.

Lemma process_nodes_file nodes w f t o w' f' t' :
  process_nodes urljoin env nodes (w, f, t) = (o, (w', f', t')) -> file_untouched w w'.
Proof.
  revert w f t. induction nodes as [|n nodes IH]; simpl; intros w f t.
  - intros [= <- <- <- <-]. apply file_untouched_refl.
  - destruct (process_node urljoin env n (w, f, t)) as [[e|] [[w1 f1] t1]] eqn:E;
      apply process_node_file in E.
    + intros [= <- <- <- <-]. exact E.
    + intros H. apply IH in H. eapply file_untouched_trans; eassumption.
Qed.

Lemma save_progress_file f w : file_untouched w (_save_progress f w).
Proof.
  unfold _save_progress. destruct f; [apply file_untouched_refl|].
  apply file_untouched_log. reflexivity.
Qed.

(** The iteration of a scraper whose save interval is 0. *)
Lemma scroll_iteration_zero_interval K w ls :
  save_interval w = 0%nat ->
  exists e w' ls',
    scroll_iteration urljoin env K w ls = (Throw e, w', ls')
    /\ file_untouched w w'
    /\ forall nodes, env_feed env (scroll_attempts ls) = Ok nodes ->
                     benign_urljoin urljoin -> Forall benign_node nodes ->
                     e = ZeroDivisionError.
Proof.
  intros Hz. unfold scroll_iteration.
  destruct (env_feed env (scroll_attempts ls)) as [nodes|e].
  2:{ exists e, w, ls. split; [reflexivity|]. split; [apply file_untouched_refl|].
      discriminate. }
  destruct (process_nodes urljoin env nodes _) as [o [[w1 f1] t1]] eqn:E.
  pose proof (process_nodes_file _ _ _ _ _ _ _ _ E) as Hf.
  assert (file_untouched w w1) as Hf1.
  { eapply file_untouched_trans; [|exact Hf]. apply file_untouched_log. reflexivity. }
  destruct o as [e|].
  - eexists _, _, _. split; [reflexivity|]. split; [exact Hf1|].
    intros nodes' [= <-] Hlib Hn.
    destruct (process_nodes_completes urljoin env nodes
                (log (EvQuery (length nodes)) w, articles_found ls, mkTally 0 0 0)
                Hlib Hn) as [b' E']. congruence.
  - unfold save_steps. destruct Hf1 as (_ & Hi & _). rewrite Hi, Hz.
    eexists _, _, _. split; [reflexivity|]. split; [|reflexivity].
    eapply file_untouched_trans; [|exact Hf]. apply file_untouched_log. reflexivity.
Qed.

Lemma scroll_loop_S fuel K w ls :
  scroll_loop urljoin (S fuel) env K w ls
  = if while_cond K ls then
      match scroll_iteration urljoin env K w ls with
      | (Continue, w', ls') => scroll_loop urljoin fuel env K w' ls'
      | (Break r, w', ls') => (Halted r, w', ls')
      | (Throw e, w', ls') => (Raised e, w', ls')
      end
    else (Halted MaxAttempts, w, ls).
Proof. reflexivity. Qed.

Lemma initial_while_cond n f : while_cond (dynamic_limit n) (mkLoop f 0 0 0 0 0) = true.
Proof.
  unfold while_cond. simpl.
  pose proof (dynamic_limit_ge n).
  destruct (Nat.ltb_spec 0 (dynamic_limit n)); [|lia]. reflexivity.
Qed.

Lemma scroll_and_load_content_zero_interval existing w :
  save_interval w = 0%nat ->
  exists e w' ls',
    _scroll_and_load_content urljoin env existing w = (Raised e, w', ls')
    /\ file_untouched w w'
    /\ forall nodes, env_feed env 0 = Ok nodes ->
                     benign_urljoin urljoin -> Forall benign_node nodes ->
                     e = ZeroDivisionError.
Proof.
  intros Hz. rewrite scroll_and_load_content_unfold.
  change max_scroll_attempts with (S 4999). rewrite scroll_loop_S.
  rewrite initial_while_cond.
  destruct (scroll_iteration_zero_interval (dynamic_limit (length existing)) w
              (mkLoop existing 0 0 0 0 0) Hz) as (e & w' & ls' & -> & Hf & He).
  exists e, w', ls'. auto.
Qed.

End Checkpointing.


Section Freshness.

Variable urljoin : string -> string -> py_result string.
Variable env : Env.

Lemma scrape_list_zero_interval (resume : bool) (w : World) :
  save_interval w = 0%nat -> env_init env = None -> env_nav env = Ok true ->
  exists e w', scrape_list urljoin env resume w = (Raise e, w')
               /\ checkpoint_file w' = checkpoint_file w.
Proof.
  intros Hz Hi Hn. unfold scrape_list.
  destruct (if resume then _load_checkpoint w else ([], w)) as [articles w1] eqn:El.
  assert (save_interval w1 = 0%nat /\ checkpoint_file w1 = checkpoint_file w) as [Hz1 Hf1].
  { destruct resume.
    - unfold _load_checkpoint in El.
      destruct (checkpoint_file w) eqn:Ef; injection El as <- <-; simpl; auto.
    - injection El as <- <-. auto. }
  unfold session. rewrite Hi. unfold _navigate_to_list. rewrite Hn. cbv zeta.
  destruct (scroll_and_load_content_zero_interval urljoin env articles
              (log EvNavigate (log EvInitBrowser w1)) Hz1)
    as (e & w' & ls' & E & (A & _) & _).
  rewrite E. eexists _, _. split; [reflexivity|]. simpl. rewrite A. exact Hf1.
Qed.

Lemma save_steps_file n f w w' :
  save_steps env n f w = (None, w') ->
  if (0 <? n)%nat && (0 <? length f)%nat
  then exists cp, checkpoint_file w' = Stored cp /\ cp_articles cp = f
  else checkpoint_file w' = checkpoint_file w.
Proof.
  unfold save_steps. destruct (save_interval w); [discriminate|].
  intros [= <-].
  destruct (_ =? _)%nat; destruct (_ && _); simpl.
  - eexists. split; reflexivity.
  - destruct (save_progress_file f w) as (A & _). exact A.
  - eexists. split; reflexivity.
  - reflexivity.
Qed.

Lemma nothing_new (f new : list Article) :
  (0 <? length (f ++ new) - length f)%nat && (0 <? length (f ++ new))%nat = false ->
  new = [].
Proof.
  rewrite length_app. intros H. apply andb_false_iff in H as [H|H].
  - apply Nat.ltb_ge in H. destruct new; [reflexivity|simpl in H; lia].
  - apply Nat.ltb_ge in H. destruct new; [reflexivity|simpl in H; lia].
Qed.

Lemma scroll_iteration_file K w ls r w' ls' :
  scroll_iteration urljoin env K w ls = (r, w', ls') ->
  (forall e, r <> Throw e) ->
  (articles_found ls' = articles_found ls /\ checkpoint_file w' = checkpoint_file w)
  \/ (exists cp, checkpoint_file w' = Stored cp /\ cp_articles cp = articles_found ls').
Proof.
  unfold scroll_iteration.
  destruct (env_feed env (scroll_attempts ls)) as [nodes|e].
  2:{ intros [= <- <- <-] H. destruct (H e eq_refl). }
  destruct (process_nodes urljoin env nodes _) as [o [[w1 f1] t1]] eqn:E.
  pose proof (process_nodes_file _ _ _ _ _ _ _ _ _ _ E) as (Hf & _).
  simpl in Hf.
  destruct (process_nodes_appends _ _ _ _ _ _ _ _ _ _ E) as (new & -> & _).
  destruct o as [e|].
  { intros [= <- <- <-] H. destruct (H e eq_refl). }
  destruct (save_steps env _ _ w1) as [o w2] eqn:Es.
  destruct o as [e|].
  { intros [= <- <- <-] H. destruct (H e eq_refl). }
  apply save_steps_file in Es.
  assert (forall ls0 : LoopState,
             articles_found ls0 = articles_found ls ++ new ->
             (articles_found ls0 = articles_found ls
              /\ checkpoint_file w2 = checkpoint_file w)
             \/ (exists cp, checkpoint_file w2 = Stored cp
                            /\ cp_articles cp = articles_found ls0)) as Hgoal.
  { intros ls0 E0. rewrite E0.
    destruct (_ && _) eqn:C.
    - right. exact Es.
    - left. apply nothing_new in C. subst new. rewrite app_nil_r.
      split; [reflexivity|congruence]. }
  pose proof (counted_found (length nodes)
                (length (articles_found ls ++ new) - length (articles_found ls))
                (articles_already_known t1) (articles_found ls ++ new) ls) as Hc.
  unfold counted in Hc.
  destruct (stop_check K _) as [reason|].
  { intros [= <- <- <-] _. apply Hgoal, Hc. }
  destruct (env_scroll env _) as [e|]; [destruct (is_Exception e)|];
    intros [= <- <- <-] H; try (destruct (H e eq_refl)); apply (Hgoal _ Hc).
Qed.

Lemma scroll_loop_saved fuel K w0 existing w ls r w' ls' :
  saved_or_unchanged w0 existing w (articles_found ls) ->
  scroll_loop urljoin fuel env K w ls = (Halted r, w', ls') ->
  saved_or_unchanged w0 existing w' (articles_found ls').
Proof.
  revert w ls. induction fuel as [|fuel IH]; simpl; intros w ls Hinv.
  - destruct (while_cond K ls); [discriminate|]. intros [= <- <- <-]. exact Hinv.
  - destruct (while_cond K ls); [|intros [= <- <- <-]; exact Hinv].
    destruct (scroll_iteration urljoin env K w ls) as [[it w1] ls1] eqn:E.
    assert ((forall e, it <> Throw e) ->
            saved_or_unchanged w0 existing w1 (articles_found ls1)) as Hnext.
    { intros Hne. destruct (scroll_iteration_file _ _ _ _ _ _ E Hne) as [[A B]|C].
      - rewrite A. destruct Hinv as [[I1 I2]|(cp & I1 & I2)].
        + left. split; congruence.
        + right. exists cp. split; congruence.
      - right. exact C. }
    destruct it.
    + intros H. eapply IH; [|exact H]. apply Hnext. discriminate.
    + intros [= <- <- <-]. apply Hnext. discriminate.
    + discriminate.
Qed.

End Freshness.

(** X5: a scraper whose save interval is 0 cannot get through an
    iteration of the loop: the progress test divides by the interval.  The
    loop ends in an exception (the division error, when nothing else is raised
    before), no checkpoint is written, and so a session that reaches the list
    page raises and leaves the checkpoint file as it was. *)
Theorem zero_save_interval urljoin env :
  (forall existing w,
      save_interval w = 0%nat ->
      exists e w' ls',
        _scroll_and_load_content urljoin env existing w = (Raised e, w', ls')
        /\ checkpoint_file w' = checkpoint_file w
        /\ checkpoints_written (events w') = checkpoints_written (events w)
        /\ forall nodes, env_feed env 0 = Ok nodes ->
                         benign_urljoin urljoin -> Forall benign_node nodes ->
                         e = ZeroDivisionError)
  /\ (forall (resume : bool) (w : World),
         save_interval w = 0%nat -> env_init env = None -> env_nav env = Ok true ->
         exists e w', scrape_list urljoin env resume w = (Raise e, w')
                      /\ checkpoint_file w' = checkpoint_file w).
Proof.
  split.
  - intros existing w Hz.
    destruct (scroll_and_load_content_zero_interval urljoin env existing w Hz)
      as (e & w' & ls' & E & (A & _ & C) & He).
    exists e, w', ls'. auto.
  - intros resume w. apply scrape_list_zero_interval.
Qed.

Lemma zero_save_interval_witness :
  (exists w' ls',
      _scroll_and_load_content sample_urljoin static_env [] (mkWorld 0 ∅ Missing [])
      = (Raised ZeroDivisionError, w', ls')
      /\ checkpoint_file w' = Missing)
  /\ exists e w',
      scrape_list sample_urljoin static_env false (mkWorld 0 ∅ Missing []) = (Raise e, w')
      /\ checkpoint_file w' = Missing.
Proof.
  destruct (zero_save_interval sample_urljoin static_env) as [H1 H2]. split.
  - destruct (H1 [] (mkWorld 0 ∅ Missing []) eq_refl) as (e & w' & ls' & E & A & _ & He).
    exists w', ls'. split; [|exact A].
    rewrite (He [plain_node "/a"] eq_refl (library_benign _)) in E; [exact E|].
    repeat constructor; simpl; discriminate.
  - apply (H2 false (mkWorld 0 ∅ Missing [])); reflexivity.
Defined.

(** X6: when the loop halts, every record it holds is in the checkpoint
    file: the file holds exactly the list found, unless the run added nothing
    to the list it started from, in which case the file is as it was. *)
Theorem halt_leaves_checkpoint urljoin env existing w r w' ls' :
  _scroll_and_load_content urljoin env existing w = (Halted r, w', ls') ->
  (articles_found ls' = existing /\ checkpoint_file w' = checkpoint_file w)
  \/ (exists cp, checkpoint_file w' = Stored cp /\ cp_articles cp = articles_found ls').
Proof.
  rewrite scroll_and_load_content_unfold. intros H.
  apply (scroll_loop_saved urljoin env _ _ w existing) in H; [exact H|].
  left. split; reflexivity.
Qed.


Lemma halt_leaves_checkpoint_witness :
  exists cp,
    checkpoint_file
      (_scroll_and_load_content sample_urljoin repeating_env [] (fresh_scraper Missing)).1.2
    = Stored cp
    /\ cp_articles cp
       = articles_found
           (_scroll_and_load_content sample_urljoin repeating_env []
              (fresh_scraper Missing)).2.
Proof.
  destruct (_scroll_and_load_content sample_urljoin repeating_env []
              (fresh_scraper Missing)) as [[r w'] ls'] eqn:E.
  assert (r = Halted ActualEnd) as ->.
  { transitivity
      (_scroll_and_load_content sample_urljoin repeating_env []
         (fresh_scraper Missing)).1.1;
      [rewrite E; reflexivity|vm_compute; reflexivity]. }
  destruct (halt_leaves_checkpoint _ _ _ _ _ _ _ E) as [[A _]|C]; [|exact C].
  exfalso.
  assert (length (articles_found ls') = 1%nat) as Hl.
  { transitivity
      (length (articles_found
         (_scroll_and_load_content sample_urljoin repeating_env []
            (fresh_scraper Missing)).2));
      [rewrite E; reflexivity|vm_compute; reflexivity]. }
  rewrite A in Hl. discriminate.
Defined.

(** ** Resuming *)

(** X7: a resumed session gives nothing up: the records of the checkpoint
    it loads are the first records of the list it returns, in the same
    order, the ledger it ends with has every url of the checkpoint, and the
    total [main] reports is at least the number of records loaded. *)
Theorem resume_keeps_records urljoin env cp :
  (forall w res w',
      checkpoint_file w = Stored cp ->
      scrape_list urljoin env true w = (Ok res, w') ->
      cp_articles cp `prefix_of` res
      /\ forall u, u ∈ cp_scraped_urls cp -> u ∈ scraped_urls w')
  /\ (forall total w',
         main urljoin env (Stored cp) = (Ok (Completed total), w') ->
         (length (cp_articles cp) <= total)%nat).
Proof.
  assert (forall w res w',
      checkpoint_file w = Stored cp ->
      scrape_list urljoin env true w = (Ok res, w') ->
      cp_articles cp `prefix_of` res
      /\ forall u, u ∈ cp_scraped_urls cp -> u ∈ scraped_urls w') as Hmain.
  { intros w res w' Hf H.
    destruct (scrape_list_steps urljoin env true w _ _ H)
      as (articles & w1 & f' & El & Hs & Hr).
    rewrite <- (Hr res eq_refl) in Hs.
    unfold _load_checkpoint in El. rewrite Hf in El. injection El as <- <-.
    apply steps_grows in Hs. destruct Hs as [Hl Hp _ _]. split; [exact Hp|].
    intros u Hu. apply Hl. simpl. apply elem_of_list_to_set, Hu. }
  split; [exact Hmain|].
  intros total w'. unfold main.
  destruct (scrape_list urljoin env true (fresh_scraper (Stored cp))) as [[res|e] w1] eqn:E.
  - intros [= <- <-].
    destruct (Hmain (fresh_scraper (Stored cp)) _ _ eq_refl E) as [Hp _].
    apply prefix_length, Hp.
  - destruct e; simpl; discriminate.
Qed.

Lemma resume_keeps_records_witness :
  [article_a] `prefix_of`
    (match (scrape_list sample_urljoin repeating_env true
              (fresh_scraper (Stored (mkCheckpoint "" 1 [url_a] [article_a])))).1 with
     | Ok res => res
     | Raise _ => []
     end).
Proof.
  destruct (resume_keeps_records sample_urljoin repeating_env
              (mkCheckpoint "" 1 [url_a] [article_a])) as [H _].
  destruct (scrape_list sample_urljoin repeating_env true
              (fresh_scraper (Stored (mkCheckpoint "" 1 [url_a] [article_a]))))
    as [[res|e] w'] eqn:E.
  - exact (proj1 (H (fresh_scraper (Stored (mkCheckpoint "" 1 [url_a] [article_a])))
                     _ _ eq_refl E)).
  - exfalso.
    assert (match (scrape_list sample_urljoin repeating_env true
              (fresh_scraper (Stored (mkCheckpoint "" 1 [url_a] [article_a])))).1 with
            | Ok _ => true | Raise _ => false end = true) as Hok
        by (vm_compute; reflexivity).
    rewrite E in Hok. discriminate.
Defined.

(** ** Probe and extractor *)

Section Probe.

Variable urljoin : string -> string -> py_result string.
Variable env : Env.

Lemma record_of_url n h a :
  data_href_of (node_el n) = Some h ->
  Str.startswith "/" h || Str.startswith "http" h = true ->
  record_of urljoin env n = Some a -> url a = probe_url h.
Proof.
  intros Hh Hs. unfold record_of.
  destruct (extract_fault n); [discriminate|].
  unfold extract_fields. rewrite Hh, (probe_agrees_off_library urljoin h Hs).
  destruct (match el_responses (node_el n) with Some t => _ | None => _ end);
    [|discriminate].
  intros [= <-]. reflexivity.
Qed.

End Probe.

(** X8: a node is extracted at most once a run, when its link is rooted
    ("/...") or absolute ("http..."): for such a link the probe computes the
    url the extractor gave the record, so once that url is in the ledger the
    node is counted as known, the extractor is not called again and the state
    is left as it is. *)
Theorem extracted_node_is_known urljoin env n h a w f t :
  probe_fault n = None ->
  data_href_of (node_el n) = Some h ->
  Str.startswith "/" h || Str.startswith "http" h = true ->
  record_of urljoin env n = Some a ->
  url a ∈ scraped_urls w ->
  process_node urljoin env n (w, f, t) = (None, (w, f, count_known t)).
Proof.
  intros Hp Hh Hs Hr Hu. unfold process_node. rewrite Hp.
  unfold probed_known. rewrite Hh.
  rewrite <- (record_of_url urljoin env n h a Hh Hs Hr).
  rewrite bool_decide_eq_true_2 by exact Hu. reflexivity.
Qed.

Lemma extracted_node_is_known_witness :
  process_node sample_urljoin static_env (plain_node "/a")
    (world_a, [], mkTally 0 0 0)
  = (None, (world_a, [], mkTally 0 1 0)).
Proof.
  apply (extracted_node_is_known sample_urljoin static_env (plain_node "/a") "/a"
           (mkArticle "A title" "" "" "" "" 0 0 url_a "2025-01-01T00:00:00"));
    [reflexivity|reflexivity|reflexivity|vm_compute; reflexivity|].
  change (url_a ∈@{gset string} {[ url_a ]}). apply elem_of_singleton_2. reflexivity.
Defined.


(** ** The effort of the loop *)

Lemma count_events_log p e w :
  count_events p (log e w) = (count_events p w + if p e then 1 else 0)%nat.
Proof.
  unfold count_events, log. simpl. rewrite List.filter_app, length_app. simpl.
  destruct (p e); reflexivity.
Qed.

Section Effort.

Variable urljoin : string -> string -> py_result string.
Variable env : Env.
Variable p : event -> bool.
Hypothesis Hp : loop_event p.

Lemma process_node_events n w f t o w' f' t' :
  process_node urljoin env n (w, f, t) = (o, (w', f', t')) ->
  count_events p w' = count_events p w.
Proof.
  destruct Hp as (He & _ & _). unfold process_node.
  destruct (probe_fault n) as [e|].
  { destruct (is_Exception e); intros [= <- <- <- <-]; reflexivity. }
  destruct (probed_known n w).
  { intros [= <- <- <- <-]. reflexivity. }
  destruct (_extract_article_data urljoin env n w) as [r w1] eqn:E.
  apply extract_article_data_steps in E.
  assert (count_events p w1 = count_events p w) as Hc.
  { destruct r as [[a|]|e]; subst w1; rewrite count_events_log, He; simpl;
      unfold count_events; simpl; lia. }
  destruct r as [[a|]|e].
  - destruct (bool_decide _); intros [= <- <- <- <-]; exact Hc.
  - intros [= <- <- <- <-]. exact Hc.
  - destruct (is_Exception e); intros [= <- <- <- <-]; exact Hc.
Qed.

Lemma process_nodes_events nodes w f t o w' f' t' :
  process_nodes urljoin env nodes (w, f, t) = (o, (w', f', t')) ->
  count_events p w' = count_events p w.
Proof.
  revert w f t. induction nodes as [|n nodes IH]; simpl; intros w f t.
  - intros [= <- <- <- <-]. reflexivity.
  - destruct (process_node urljoin env n (w, f, t)) as [[e|] [[w1 f1] t1]] eqn:E;
      apply process_node_events in E.
    + intros [= <- <- <- <-]. exact E.
    + intros H. apply IH in H. congruence.
Qed.

Lemma save_steps_events n f w o w' :
  save_steps env n f w = (o, w') -> count_events p w' = count_events p w.
Proof.
  destruct Hp as (_ & Hprog & Hcp).
  unfold save_steps. destruct (save_interval w); intros [= <- <-]; [reflexivity|].
  assert (count_events p (_save_progress f w) = count_events p w) as Hs.
  { unfold _save_progress. destruct f; [reflexivity|].
    rewrite count_events_log, Hprog. lia. }
  assert (forall w0, count_events p (_save_checkpoint env f w0) = count_events p w0) as Hc.
  { intros w0. unfold _save_checkpoint, count_events. simpl.
    rewrite List.filter_app, length_app. simpl. rewrite Hcp. simpl. lia. }
  destruct (_ =? _)%nat; destruct (_ && _); rewrite ?Hc, ?Hs; reflexivity.
Qed.

End Effort.

Lemma scroll_is_loop_event : loop_event is_scroll.
Proof. repeat split. Qed.

Lemma query_is_loop_event : loop_event is_query.
Proof. repeat split. Qed.

Section Bounds.

Variable urljoin : string -> string -> py_result string.
Variable env : Env.

(** What one iteration adds to the calls and to the number of attempts. *)
Lemma scroll_iteration_effort K w ls it w' ls' :
  scroll_iteration urljoin env K w ls = (it, w', ls') ->
  (count_events is_scroll w' + scroll_attempts ls
   = count_events is_scroll w + scroll_attempts ls')%nat
  /\ (count_events is_query w' <= count_events is_query w + 1)%nat
  /\ (scroll_attempts ls <= scroll_attempts ls' <= S (scroll_attempts ls))%nat
  /\ (it = Continue -> scroll_attempts ls' = S (scroll_attempts ls)).
Proof.
  unfold scroll_iteration.
  destruct (env_feed env (scroll_attempts ls)) as [nodes|e].
  2:{ intros [= <- <- <-]. repeat split; try lia. discriminate. }
  destruct (process_nodes urljoin env nodes _) as [o [[w1 f1] t1]] eqn:E.
  pose proof (process_nodes_events urljoin env is_scroll scroll_is_loop_event
                _ _ _ _ _ _ _ _ E) as Hs1.
  pose proof (process_nodes_events urljoin env is_query query_is_loop_event
                _ _ _ _ _ _ _ _ E) as Hq1.
  rewrite count_events_log in Hs1, Hq1. simpl in Hs1, Hq1.
  destruct o as [e|].
  { intros [= <- <- <-]. simpl. repeat split; try lia. discriminate. }
  destruct (save_steps env _ f1 w1) as [o w2] eqn:Es.
  pose proof (save_steps_events env is_scroll scroll_is_loop_event _ _ _ _ _ Es) as Hs2.
  pose proof (save_steps_events env is_query query_is_loop_event _ _ _ _ _ Es) as Hq2.
  pose proof (counted_attempts (length nodes) (length f1 - length (articles_found ls))
                (articles_already_known t1) f1 ls) as Hc.
  unfold counted in Hc.
  destruct o as [e|].
  { intros [= <- <- <-]. rewrite Hc. repeat split; try lia. discriminate. }
  destruct (stop_check K _) as [reason|].
  { intros [= <- <- <-]. rewrite Hc. repeat split; try lia. discriminate. }
  assert (forall fast ls0,
             scroll_attempts ls0 = scroll_attempts ls ->
             (count_events is_scroll (log (EvScroll fast) w2) + scroll_attempts ls
              = count_events is_scroll w + scroll_attempts (next_attempt ls0))%nat
             /\ (count_events is_query (log (EvScroll fast) w2)
                 <= count_events is_query w + 1)%nat
             /\ (scroll_attempts ls <= scroll_attempts (next_attempt ls0)
                 <= S (scroll_attempts ls))%nat
             /\ scroll_attempts (next_attempt ls0) = S (scroll_attempts ls)) as Hgo.
  { intros fast ls0 E0. rewrite !count_events_log. simpl. rewrite E0. lia. }
  destruct (env_scroll env _) as [e|]; [destruct (is_Exception e)|];
    intros [= <- <- <-]; destruct (Hgo
      ((0 <? articles_already_known t1)%nat && (articles_extracted t1 =? 0)%nat) _ Hc)
      as (A & B & C & D); auto.
Qed.

Lemma scroll_loop_effort fuel K w ls r w' ls' :
  scroll_loop urljoin fuel env K w ls = (r, w', ls') ->
  (scroll_attempts ls <= max_scroll_attempts)%nat ->
  (count_events is_scroll w' + scroll_attempts ls
   = count_events is_scroll w + scroll_attempts ls')%nat
  /\ (scroll_attempts ls' <= max_scroll_attempts)%nat
  /\ (count_events is_query w' + scroll_attempts ls
      <= count_events is_query w + max_scroll_attempts)%nat.
Proof.
  revert w ls. induction fuel as [|fuel IH]; simpl; intros w ls.
  - destruct (while_cond K ls); intros [= <- <- <-] H; lia.
  - destruct (while_cond K ls) eqn:Hw; [|intros [= <- <- <-] H; lia].
    apply while_cond_true in Hw as (_ & _ & Hlt).
    destruct (scroll_iteration urljoin env K w ls) as [[it w1] ls1] eqn:E.
    destruct (scroll_iteration_effort _ _ _ _ _ _ E) as (A & B & C & D).
    assert (scroll_attempts ls1 <= max_scroll_attempts)%nat as Hle by lia.
    destruct it.
    + intros H _. specialize (D eq_refl).
      destruct (IH _ _ H Hle) as (A' & B' & C'). lia.
    + intros [= <- <- <-] _. lia.
    + intros [= <- <- <-] _. lia.
Qed.

End Bounds.

(** X9: the effort of a run of the loop is bounded, however it ends.
    The page is scrolled exactly [scroll_attempts] times, which is at most
    5000, and it is queried for its article nodes at most 5000 times. *)
Theorem loop_effort_bounded urljoin env existing w r w' ls' :
  _scroll_and_load_content urljoin env existing w = (r, w', ls') ->
  count_events is_scroll w' = (count_events is_scroll w + scroll_attempts ls')%nat
  /\ (scroll_attempts ls' <= 5000)%nat
  /\ (count_events is_query w' <= count_events is_query w + 5000)%nat.
Proof.
  rewrite scroll_and_load_content_unfold. intros H.
  apply scroll_loop_effort in H; [|simpl; lia].
  simpl in H. change max_scroll_attempts with 5000%nat in H. lia.
Qed.

Lemma loop_effort_bounded_witness :
  count_events is_scroll
    (_scroll_and_load_content sample_urljoin repeating_env [] (fresh_scraper Missing)).1.2
  = scroll_attempts
      (_scroll_and_load_content sample_urljoin repeating_env [] (fresh_scraper Missing)).2.
Proof.
  destruct (_scroll_and_load_content sample_urljoin repeating_env []
              (fresh_scraper Missing)) as [[r w'] ls'] eqn:E.
  destruct (loop_effort_bounded _ _ _ _ _ _ _ E) as (A & _). exact A.
Defined.


(** ** What the parser reads *)

Lemma upper_char_twice c : Str.upper_char (Str.upper_char c) = Str.upper_char c.
Proof.
  destruct ((97 <=? Str.code c)%Z && (Str.code c <=? 122)%Z) eqn:E.
  - assert (Str.upper_char c = ascii_of_N (Z.to_N (Str.code c - 32))) as ->
      by (unfold Str.upper_char; rewrite E; reflexivity).
    apply andb_true_iff in E as [H1 H2]. apply Z.leb_le in H1, H2.
    assert (Str.code (ascii_of_N (Z.to_N (Str.code c - 32))) = Str.code c - 32)%Z as Ec.
    { unfold Str.code at 1. rewrite N_ascii_embedding; [lia|].
      apply N2Z.inj_lt. rewrite Z2N.id by lia. simpl. lia. }
    unfold Str.upper_char. rewrite Ec.
    destruct (Z.leb_spec 97 (Str.code c - 32)); [lia|reflexivity].
  - assert (Str.upper_char c = c) as -> by (unfold Str.upper_char; rewrite E; reflexivity).
    unfold Str.upper_char. rewrite E. reflexivity.
Qed.

Lemma clean_number_chars_twice l :
  List.filter keeps_number_char
    (List.map Str.upper_char (List.filter keeps_number_char (List.map Str.upper_char l)))
  = List.filter keeps_number_char (List.map Str.upper_char l).
Proof.
  induction l as [|c l IH]; [reflexivity|]. cbn [List.map List.filter].
  destruct (keeps_number_char (Str.upper_char c)) eqn:E; [|exact IH].
  cbn [List.map List.filter]. rewrite upper_char_twice, E, IH. reflexivity.
Qed.

Lemma clean_number_text_twice text :
  clean_number_text (clean_number_text text) = clean_number_text text.
Proof.
  unfold clean_number_text. rewrite chars_of_chars, clean_number_chars_twice.
  reflexivity.
Qed.

(** X10: the parser reads nothing of a text but its digits, its dots and
    its letters K and M of either case: a text and what is left of it when
    everything else is taken out give the same result.  Separators and words
    are therefore ignored, except that a k or an m anywhere in a word counts
    as the unit. *)
Theorem parse_number_reads_cleaned_text :
  (forall text, parse_number text = parse_number (clean_number_text text))
  /\ parse_number "1,234 claps" = Ok 1234%Z
  /\ parse_number "5 comments" = Ok 5000000%Z.
Proof.
  split; [|split; vm_compute; reflexivity].
  intros text. unfold parse_number at 2. rewrite clean_number_text_twice.
  unfold parse_number.
  destruct (String.eqb_spec text "") as [->|Hne]; [reflexivity|]. cbv zeta.
  destruct (String.eqb (clean_number_text text) ""); reflexivity.
Qed.

(** ** No duplicates in the result *)

(** X11: a session never returns two records with the same url, as long
    as the checkpoint it starts from, if any, has no two such records; a
    session that does not resume always returns records with distinct
    urls. *)
Theorem scrape_list_no_duplicates urljoin env :
  (forall w res w',
      scrape_list urljoin env false w = (Ok res, w') -> NoDup (urls_of res))
  /\ (forall w res w',
         (forall cp, checkpoint_file w = Stored cp -> NoDup (urls_of (cp_articles cp))) ->
         scrape_list urljoin env true w = (Ok res, w') -> NoDup (urls_of res)).
Proof.
  split.
  - intros w res w' H.
    destruct (scrape_list_steps urljoin env false w _ _ H)
      as (articles & w1 & f' & El & Hs & Hr).
    injection El as <- <-. rewrite (Hr res eq_refl).
    eapply steps_nodup; [exact Hs|]. constructor.
  - intros w res w' Hcp H.
    destruct (scrape_list_steps urljoin env true w _ _ H)
      as (articles & w1 & f' & El & Hs & Hr).
    rewrite (Hr res eq_refl). eapply steps_nodup; [exact Hs|].
    unfold _load_checkpoint in El.
    destruct (checkpoint_file w) as [| |cp] eqn:Ef; injection El as <- <-;
      [constructor|constructor|].
    apply (Hcp cp eq_refl).
Qed.

Lemma scrape_list_no_duplicates_witness :
  NoDup (urls_of
           (match (scrape_list sample_urljoin repeating_env true
                     (fresh_scraper (Stored (mkCheckpoint "" 1 [url_a] [article_a])))).1 with
            | Ok res => res
            | Raise _ => []
            end)).
Proof.
  destruct (scrape_list_no_duplicates sample_urljoin repeating_env) as [_ H].
  destruct (scrape_list sample_urljoin repeating_env true
              (fresh_scraper (Stored (mkCheckpoint "" 1 [url_a] [article_a]))))
    as [[res|e] w'] eqn:E.
  - apply (H (fresh_scraper (Stored (mkCheckpoint "" 1 [url_a] [article_a]))) res w');
      [|exact E].
    intros cp [= <-]. simpl. apply NoDup_singleton.
  - constructor.
Defined.


(** ** The statistics of the summary *)

Lemma insert_desc_perm {A} (key : A -> Z) x l : insert_desc key x l ≡ₚ x :: l.
Proof.
  induction l as [|y l IH]; simpl; [reflexivity|].
  destruct (key y <=? key x)%Z; [reflexivity|].
  rewrite IH. apply Permutation_swap.
Qed.

Lemma sorted_desc_perm {A} (key : A -> Z) l : sorted_desc key l ≡ₚ l.
Proof.
  induction l as [|x l IH]; simpl; [reflexivity|].
  rewrite insert_desc_perm, IH. reflexivity.
Qed.

Lemma insert_desc_descending {A} (key : A -> Z) x l :
  descending key l -> descending key (insert_desc key x l).
Proof.
  induction l as [|y l IH]; simpl; [auto|]. intros [Hy Hl].
  destruct (Z.leb_spec (key y) (key x)) as [Hle|Hlt]; simpl.
  - split; [|split; assumption]. constructor; [exact Hle|].
    eapply Forall_impl; [exact Hy|]. intros z Hz. simpl in Hz. lia.
  - split; [|apply IH, Hl].
    rewrite insert_desc_perm. constructor; [lia|exact Hy].
Qed.

Lemma sorted_desc_descending {A} (key : A -> Z) l : descending key (sorted_desc key l).
Proof.
  induction l as [|x l IH]; simpl; [exact I|]. apply insert_desc_descending, IH.
Qed.

Lemma descending_app {A} (key : A -> Z) l1 l2 :
  descending key (l1 ++ l2) ->
  descending key l1 /\ forall a b, a ∈ l1 -> b ∈ l2 -> (key b <= key a)%Z.
Proof.
  induction l1 as [|x l1 IH]; simpl.
  { intros _. split; [exact I|]. intros a b Ha. apply elem_of_nil in Ha. destruct Ha. }
  intros [Hx Hl]. destruct (IH Hl) as [Hd Hcross].
  apply Forall_app in Hx as [Hx1 Hx2]. split; [split; assumption|].
  intros a b Ha Hb. apply elem_of_cons in Ha as [->|Ha]; [|apply Hcross; assumption].
  rewrite Forall_forall in Hx2. apply Hx2, Hb.
Qed.

Lemma insert_desc_filter {A} (key : A -> Z) k x s :
  List.filter (fun a => (key a =? k)%Z) (insert_desc key x s)
  = if (key x =? k)%Z then x :: List.filter (fun a => (key a =? k)%Z) s
    else List.filter (fun a => (key a =? k)%Z) s.
Proof.
  induction s as [|y s IHs]; [reflexivity|]. cbn [insert_desc].
  destruct (Z.leb_spec (key y) (key x)) as [Hle|Hlt]; [reflexivity|].
  cbn [List.filter]. rewrite IHs.
  destruct (Z.eqb_spec (key x) k) as [Ex|Ex]; [|reflexivity].
  destruct (Z.eqb_spec (key y) k) as [Ey|Ey]; [lia|reflexivity].
Qed.

(** Entries with the same key stay in the order they had. *)
Lemma sorted_desc_stable {A} (key : A -> Z) k l :
  List.filter (fun a => (key a =? k)%Z) (sorted_desc key l)
  = List.filter (fun a => (key a =? k)%Z) l.
Proof.
  induction l as [|x l IH]; [reflexivity|].
  change (sorted_desc key (x :: l)) with (insert_desc key x (sorted_desc key l)).
  rewrite insert_desc_filter, IH. reflexivity.
Qed.

(** The first ten of a list sorted largest key first. *)
Lemma top_ten {A} (key : A -> Z) (l : list A) :
  let top := firstn 10 (sorted_desc key l) in
  length top = Nat.min 10 (length l)
  /\ descending key top
  /\ exists rest, top ++ rest ≡ₚ l
                  /\ forall a b, a ∈ top -> b ∈ rest -> (key b <= key a)%Z.
Proof.
  cbv zeta. split; [|split].
  - rewrite length_firstn, (Permutation_length (sorted_desc_perm key l)). reflexivity.
  - pose proof (sorted_desc_descending key l) as H.
    rewrite <- (firstn_skipn 10 (sorted_desc key l)) in H.
    apply descending_app in H. apply H.
  - exists (skipn 10 (sorted_desc key l)). split.
    + rewrite firstn_skipn. apply sorted_desc_perm.
    + pose proof (sorted_desc_descending key l) as H.
      rewrite <- (firstn_skipn 10 (sorted_desc key l)) in H.
      apply descending_app in H. apply H.
Qed.

(** X12: the two rankings of the summary.  The articles listed "by
    claps" are ten of the articles (all of them when there are fewer), listed
    with the most clapped first, and no article left out has more claps than a
    listed one; articles with as many claps as each other keep the order of
    the list.  The same holds for the authors listed by article count. *)
Theorem summary_rankings articles :
  (length (top_claps articles) = Nat.min 10 (length articles)
   /\ descending claps (top_claps articles)
   /\ (exists rest, top_claps articles ++ rest ≡ₚ articles
                    /\ forall a b, a ∈ top_claps articles -> b ∈ rest ->
                                   (claps b <= claps a)%Z)
   /\ forall k, List.filter (fun a => (claps a =? k)%Z) (sorted_desc claps articles)
                = List.filter (fun a => (claps a =? k)%Z) articles)
  /\ (length (top_authors articles) = Nat.min 10 (length (author_counts articles))
      /\ descending snd (top_authors articles)
      /\ exists rest, top_authors articles ++ rest ≡ₚ author_counts articles
                      /\ forall a b, a ∈ top_authors articles -> b ∈ rest ->
                                     (snd b <= snd a)%Z).
Proof.
  split.
  - destruct (top_ten claps articles) as (A & B & C).
    split; [exact A|]. split; [exact B|]. split; [exact C|].
    intros k. apply sorted_desc_stable.
  - apply (top_ten snd (author_counts articles)).
Qed.


Lemma bump_count k k' c :
  count_of k' (bump k c) = (count_of k' c + if String.eqb k k' then 1 else 0)%Z.
Proof.
  induction c as [|[k0 n] c IH]; simpl.
  - destruct (String.eqb k k'); reflexivity.
  - destruct (String.eqb_spec k0 k) as [->|Hne]; simpl.
    + destruct (String.eqb k k'); lia.
    + rewrite IH. destruct (String.eqb_spec k0 k') as [->|Hne'].
      * destruct (String.eqb_spec k k'); [congruence|lia].
      * reflexivity.
Qed.

Lemma bump_keys k c k0 :
  k0 ∈ List.map fst (bump k c) <-> k0 = k \/ k0 ∈ List.map fst c.
Proof.
  induction c as [|[k1 n] c IH]; simpl.
  - rewrite list_elem_of_singleton. split; [auto|]. intros [H|H]; [exact H|].
    apply elem_of_nil in H. destruct H.
  - destruct (String.eqb_spec k1 k) as [->|Hne]; simpl.
    + rewrite elem_of_cons. tauto.
    + rewrite !elem_of_cons, IH. tauto.
Qed.

Lemma bump_nodup k c : NoDup (List.map fst c) -> NoDup (List.map fst (bump k c)).
Proof.
  induction c as [|[k1 n] c IH]; simpl; intros H.
  - apply NoDup_singleton.
  - apply NoDup_cons in H as [Hn Hd].
    destruct (String.eqb_spec k1 k) as [->|Hne]; simpl.
    + apply NoDup_cons. auto.
    + apply NoDup_cons. split; [|apply IH, Hd].
      rewrite bump_keys. intros [E|E]; [congruence|auto].
Qed.

Lemma bump_total k c : total_count (bump k c) = (total_count c + 1)%Z.
Proof.
  unfold total_count. induction c as [|[k1 n] c IH]; simpl; [reflexivity|].
  destruct (String.eqb k1 k); simpl; lia.
Qed.

Lemma counts_member c k n :
  NoDup (List.map fst c) ->
  ((k, n) ∈ c <-> k ∈ List.map fst c /\ count_of k c = n).
Proof.
  induction c as [|[k1 n1] c IH]; simpl; intros H.
  { split; [intros E; apply elem_of_nil in E; destruct E|].
    intros [E _]. apply elem_of_nil in E. destruct E. }
  apply NoDup_cons in H as [Hn Hd]. rewrite !elem_of_cons, (IH Hd).
  destruct (String.eqb_spec k1 k) as [->|Hne].
  - split.
    + intros [[= <-]|[Hk _]]; [auto|contradiction].
    + intros [_ <-]. left. reflexivity.
  - split.
    + intros [[= E _]|[Hk Hc]]; [congruence|auto].
    + intros [[E|Hk] Hc]; [congruence|auto].
Qed.

Lemma articles_by_cons k a l :
  articles_by k (a :: l)
  = ((if String.eqb (author a) k then 1 else 0) + articles_by k l)%Z.
Proof.
  unfold articles_by. simpl. destruct (String.eqb (author a) k); simpl; lia.
Qed.

Lemma articles_by_positive k l :
  (1 <= articles_by k l)%Z <-> exists a, a ∈ l /\ author a = k.
Proof.
  induction l as [|a l IH].
  { unfold articles_by. simpl. split; [lia|].
    intros (a & Ha & _). apply elem_of_nil in Ha. destruct Ha. }
  rewrite articles_by_cons.
  assert (0 <= articles_by k l)%Z by (unfold articles_by; lia).
  destruct (String.eqb_spec (author a) k) as [E|Hne].
  - split; [|lia]. intros _. exists a. split; [apply list_elem_of_here|exact E].
  - rewrite Z.add_0_l, IH. split.
    + intros (b & Hb & E). exists b. split; [apply list_elem_of_further, Hb|exact E].
    + intros (b & Hb & E). apply elem_of_cons in Hb as [->|Hb]; [congruence|eauto].
Qed.

(** The dictionary after the loop, from any dictionary before it. *)
Lemma count_authors_spec l c :
  NoDup (List.map fst c) ->
  let c' := fold_left count_author l c in
  NoDup (List.map fst c')
  /\ (forall k, k ∈ List.map fst c'
                <-> k ∈ List.map fst c \/ (k <> "" /\ exists a, a ∈ l /\ author a = k))
  /\ (forall k, k <> "" -> count_of k c' = (count_of k c + articles_by k l)%Z)
  /\ total_count c' = (total_count c + signed_articles l)%Z.
Proof.
  cbv zeta. revert c. induction l as [|a l IH]; intros c Hd.
  { simpl. split; [exact Hd|]. split; [|split].
    - intros k. split; [auto|]. intros [H|(_ & b & Hb & _)]; [exact H|].
      apply elem_of_nil in Hb. destruct Hb.
    - intros k _. unfold articles_by. simpl. lia.
    - unfold signed_articles. simpl. lia. }
  cbn [fold_left].
  assert (NoDup (List.map fst (count_author c a))) as Hd1.
  { unfold count_author. destruct (String.eqb (author a) ""); [exact Hd|].
    apply bump_nodup, Hd. }
  destruct (IH _ Hd1) as (A & B & C & D). split; [exact A|]. split; [|split].
  - intros k. rewrite B. unfold count_author.
    destruct (String.eqb_spec (author a) "") as [E|Hne].
    + split.
      * intros [H|(Hk & b & Hb & Eb)]; [auto|]. right. split; [exact Hk|].
        exists b. split; [apply list_elem_of_further, Hb|exact Eb].
      * intros [H|(Hk & b & Hb & Eb)]; [auto|]. right. split; [exact Hk|].
        apply elem_of_cons in Hb as [->|Hb]; [congruence|eauto].
    + rewrite bump_keys. split.
      * intros [[->|H]|(Hk & b & Hb & Eb)]; [| auto |].
        -- right. split; [exact Hne|]. exists a. split; [apply list_elem_of_here|reflexivity].
        -- right. split; [exact Hk|]. exists b.
           split; [apply list_elem_of_further, Hb|exact Eb].
      * intros [H|(Hk & b & Hb & Eb)]; [auto|].
        apply elem_of_cons in Hb as [->|Hb]; [left; left; auto|].
        right. split; [exact Hk|]. eauto.
  - intros k Hk. rewrite (C k Hk), articles_by_cons. unfold count_author.
    destruct (String.eqb_spec (author a) "") as [E|Hne].
    + destruct (String.eqb_spec (author a) k); [congruence|lia].
    + rewrite bump_count. lia.
  - rewrite D. unfold count_author, signed_articles. simpl.
    destruct (String.eqb (author a) ""); simpl; [lia|]. rewrite bump_total. lia.
Qed.

(** X13: the per-author counts of the summary.  Every author that signs
    an article has one entry, with the number of articles signed; the
    anonymous articles (empty author) are not counted; the number of entries is
    the number of unique authors of the summary, and the counts add up to the
    number of signed articles. *)
Theorem author_counts_correct articles :
  NoDup (List.map fst (author_counts articles))
  /\ (forall k n, (k, n) ∈ author_counts articles
                  <-> k <> "" /\ n = articles_by k articles /\ (1 <= n)%Z)
  /\ length (author_counts articles) = unique_authors articles
  /\ total_count (author_counts articles) = signed_articles articles
  /\ (signed_articles articles <= Z.of_nat (total_articles articles))%Z.
Proof.
  destruct (count_authors_spec articles [] (NoDup_nil_2 (A:=string))) as (A & B & C & D).
  change (fold_left count_author articles []) with (author_counts articles) in *.
  assert (forall k, k ∈ List.map fst (author_counts articles)
                    <-> k <> "" /\ (1 <= articles_by k articles)%Z) as Hkeys.
  { intros k. rewrite B, articles_by_positive. split.
    - intros [H|H]; [apply elem_of_nil in H; destruct H|exact H].
    - auto. }
  split; [exact A|]. split; [|split; [|split]].
  - intros k n. rewrite (counts_member _ k n A), Hkeys. split.
    + intros [[Hk Hp] <-]. rewrite (C k Hk). simpl. auto.
    + intros (Hk & -> & Hp). rewrite (C k Hk). simpl. auto.
  - unfold unique_authors.
    rewrite <- (length_map fst (author_counts articles)).
    rewrite <- (size_list_to_set (C:=gset string) _ A). f_equal.
    apply set_eq. intros k. rewrite !elem_of_list_to_set, Hkeys, articles_by_positive.
    rewrite list_elem_of_In, filter_In, in_map_iff.
    split.
    + intros (Hk & a & Ha & E). split; [exists a; split; [exact E|]|].
      * apply list_elem_of_In, Ha.
      * apply negb_true_iff. destruct (String.eqb_spec k ""); congruence.
    + intros ((a & E & Ha) & Hk). split; [|exists a; split; [|exact E]].
      * apply negb_true_iff in Hk. destruct (String.eqb_spec k ""); congruence.
      * apply list_elem_of_In, Ha.
  - rewrite D. change (total_count []) with 0%Z. apply Z.add_0_l.
  - unfold signed_articles, total_articles.
    pose proof (List.filter_length_le (fun a => negb (String.eqb (author a) "")) articles).
    lia.
Qed.

Lemma summary_sample :
  author_counts sample_records = [("Ada", 2%Z); ("Bob", 1%Z)]
  /\ unique_authors sample_records = 2%nat
  /\ List.map title (top_claps sample_records) = ["t2"; "t3"; "t1"; "t4"].
Proof. repeat split; vm_compute; reflexivity. Qed.

(** * Properties of the code of [utils.py] *)

(** ** Cleaning a text *)

Lemma is_word_cons c w :
  Str.is_space c = false -> (w = [] \/ is_word w) -> is_word (c :: w).
Proof.
  intros Hc Hw. split; [discriminate|]. simpl. rewrite Hc. simpl.
  destruct Hw as [->|[_ H]]; [reflexivity|exact H].
Qed.

Lemma words_good l : Forall is_word (Text.words l).
Proof.
  induction l as [|c l IH]; simpl; [constructor|].
  destruct (Str.is_space c) eqn:Hc; [exact IH|].
  destruct l as [|d l'].
  { constructor; [|constructor]. apply is_word_cons; auto. }
  destruct (Str.is_space d) eqn:Hd.
  { constructor; [|exact IH]. apply is_word_cons; auto. }
  destruct (Text.words (d :: l')) as [|w ws].
  { constructor; [|constructor]. apply is_word_cons; auto. }
  inversion IH as [|? ? Hw Hws]; subst.
  constructor; [|exact Hws]. apply is_word_cons; auto.
Qed.

Lemma is_word_head w :
  is_word w -> exists c w', w = c :: w' /\ Str.is_space c = false
                            /\ (w' = [] \/ is_word w').
Proof.
  intros [Hne H]. destruct w as [|c w']; [congruence|].
  simpl in H. apply andb_true_iff in H as [Hc Hw]. apply negb_true_iff in Hc.
  exists c, w'. split; [reflexivity|]. split; [exact Hc|].
  destruct w' as [|d w'']; [left; reflexivity|right; split; [discriminate|exact Hw]].
Qed.

Lemma space_is_space : Str.is_space " " = true.
Proof. reflexivity. Qed.

Lemma words_word w rest :
  is_word w -> Text.words (w ++ " "%char :: rest) = w :: Text.words rest.
Proof.
  induction w as [|c w IH]; intros Hw; [destruct Hw; congruence|].
  destruct (is_word_head _ Hw) as (c0 & w0 & [= <- <-] & Hc & Hrest).
  cbn [app Text.words]. rewrite Hc.
  destruct Hrest as [->|Hw'].
  - cbn [app]. rewrite space_is_space. reflexivity.
  - destruct (is_word_head _ Hw') as (d & w1 & -> & Hd & _).
    cbn [app]. rewrite Hd.
    change (d :: w1 ++ " "%char :: rest) with ((d :: w1) ++ " "%char :: rest).
    rewrite (IH Hw'). reflexivity.
Qed.

Lemma words_single w : is_word w -> Text.words w = [w].
Proof.
  induction w as [|c w IH]; intros Hw; [destruct Hw; congruence|].
  destruct (is_word_head _ Hw) as (c0 & w0 & [= <- <-] & Hc & Hrest).
  cbn [Text.words]. rewrite Hc.
  destruct Hrest as [->|Hw']; [reflexivity|].
  destruct (is_word_head _ Hw') as (d & w1 & -> & Hd & _).
  rewrite Hd, (IH Hw'). reflexivity.
Qed.

Lemma join_cons w w' ws :
  Text.join (w :: w' :: ws) = w ++ " "%char :: Text.join (w' :: ws).
Proof. reflexivity. Qed.

(** Splitting undoes joining. *)
Lemma words_join ws : Forall is_word ws -> Text.words (Text.join ws) = ws.
Proof.
  induction ws as [|w ws IH]; intros H; [reflexivity|].
  inversion H as [|? ? Hw Hws]; subst.
  destruct ws as [|w' ws].
  - simpl. apply words_single, Hw.
  - rewrite join_cons, (words_word _ _ Hw), (IH Hws). reflexivity.
Qed.

Lemma join_head w ws :
  Forall is_word (w :: ws) ->
  exists c l, Text.join (w :: ws) = c :: l /\ Str.is_space c = false.
Proof.
  intros H. inversion H as [|? ? Hw Hws]; subst.
  destruct (is_word_head _ Hw) as (c & w' & -> & Hc & _).
  destruct ws; simpl; eauto.
Qed.

Lemma join_last w ws :
  Forall is_word (w :: ws) ->
  exists c l, rev (Text.join (w :: ws)) = c :: l /\ Str.is_space c = false.
Proof.
  revert w. induction ws as [|w' ws IH]; intros w H;
    inversion H as [|? ? Hw Hws]; subst.
  - simpl. destruct Hw as [Hne Hall].
    destruct (rev w) as [|c l] eqn:E.
    { apply (f_equal (@rev _)) in E. rewrite rev_involutive in E. simpl in E. congruence. }
    exists c, l. split; [reflexivity|].
    assert (In c w) as Hin by (apply in_rev; rewrite E; left; reflexivity).
    rewrite forallb_forall in Hall. apply negb_true_iff, Hall, Hin.
  - rewrite join_cons, rev_app_distr. cbn [rev].
    destruct (IH w' Hws) as (c & l & -> & Hc).
    exists c. eexists. split; [|exact Hc]. simpl. reflexivity.
Qed.

Lemma squeeze_word p w rest :
  (forall c, p c = true -> Str.is_space c = true) -> is_word w ->
  Text.squeeze p (w ++ rest) = w ++ Text.squeeze p rest.
Proof.
  intros Hp [_ Hw]. induction w as [|c w IH]; [reflexivity|].
  simpl in Hw. apply andb_true_iff in Hw as [Hc Hw]. apply negb_true_iff in Hc.
  cbn [app Text.squeeze].
  destruct (p c) eqn:E; [apply Hp in E; congruence|].
  rewrite (IH Hw). reflexivity.
Qed.

Lemma squeeze_join p ws :
  (forall c, p c = true -> Str.is_space c = true) -> Forall is_word ws ->
  Text.squeeze p (Text.join ws) = Text.join ws.
Proof.
  intros Hp. induction ws as [|w ws IH]; intros H; [reflexivity|].
  inversion H as [|? ? Hw Hws]; subst.
  destruct ws as [|w' ws].
  - simpl. rewrite <- (app_nil_r w) at 1. rewrite (squeeze_word p w [] Hp Hw).
    simpl. apply app_nil_r.
  - rewrite join_cons, (squeeze_word p w _ Hp Hw). f_equal.
    destruct (join_head w' ws Hws) as (d & l & E & Hd).
    specialize (IH Hws). rewrite E in *.
    cbn [Text.squeeze]. cbn [Text.squeeze] in IH.
    destruct (p " "%char); destruct (p d) eqn:Ed;
      try (apply Hp in Ed; congruence); rewrite IH; reflexivity.
Qed.

Lemma strip_join ws : Forall is_word ws -> Str.strip_chars (Text.join ws) = Text.join ws.
Proof.
  intros H. destruct ws as [|w ws]; [reflexivity|].
  destruct (join_head w ws H) as (c & l & E & Hc).
  destruct (join_last w ws H) as (d & l' & E' & Hd).
  unfold Str.strip_chars. rewrite E. cbn [Str.lstrip_chars]. rewrite Hc.
  rewrite <- E, E'. cbn [Str.lstrip_chars]. rewrite Hd.
  rewrite <- E'. apply rev_involutive.
Qed.

Lemma line_break_is_space c : is_line_break c = true -> Str.is_space c = true.
Proof.
  unfold is_line_break, Str.is_space. intros H.
  apply orb_true_iff in H as [H|H]; [apply orb_true_iff in H as [H|H]|];
    apply Z.eqb_eq in H; rewrite H; reflexivity.
Qed.

(** The cleaned text, before any truncation. *)
Lemma cleaned_text l :
  Str.strip_chars
    (Text.squeeze is_line_break (Text.squeeze Str.is_space (Text.join (Text.words l))))
  = Text.join (Text.words l).
Proof.
  pose proof (words_good l) as H.
  rewrite (squeeze_join Str.is_space _ (fun c Hc => Hc) H).
  rewrite (squeeze_join is_line_break _ line_break_is_space H).
  apply strip_join, H.
Qed.

Lemma clean_text_plain text :
  Str.chars (clean_text text None) = Text.join (Text.words (Str.chars text)).
Proof.
  unfold clean_text. destruct (String.eqb_spec text "") as [->|_]; [reflexivity|].
  cbv zeta. rewrite cleaned_text. apply chars_of_chars.
Qed.

Lemma join_chars ws c :
  In c (Text.join ws) -> c = " "%char \/ exists w, In w ws /\ In c w.
Proof.
  induction ws as [|w ws IH]; [intros []|].
  destruct ws as [|w' ws].
  - simpl. intros H. right. exists w. auto.
  - rewrite join_cons. intros H. apply in_app_or in H as [H|[H|H]].
    + right. exists w. split; [left; reflexivity|exact H].
    + left. symmetry. exact H.
    + destruct (IH H) as [->|(w0 & Hw0 & Hc)]; [left; reflexivity|].
      right. exists w0. split; [right; exact Hw0|exact Hc].
Qed.

Lemma join_words_length l :
  (length (Text.join (Text.words l))
   + match l with
     | c :: _ => if Str.is_space c then 1 else 0
     | [] => 0
     end <= length l)%nat.
Proof.
  induction l as [|c l IH]; [simpl; lia|].
  cbn [Text.words]. destruct (Str.is_space c) eqn:Hc.
  { destruct l as [|d l]; [simpl; lia|]. destruct (Str.is_space d); simpl in *; lia. }
  destruct l as [|d l]; [simpl; lia|].
  destruct (Str.is_space d) eqn:Hd.
  - destruct (Text.words (d :: l)) as [|w ws] eqn:Ew; [simpl; lia|].
    rewrite join_cons. cbn [app length] in *. lia.
  - destruct (Text.words (d :: l)) as [|w ws] eqn:Ew; [simpl; lia|].
    destruct ws; [simpl in *; lia|]. rewrite !join_cons in *.
    cbn [app length] in *. lia.
Qed.

Lemma join_no_double_space ws l1 l2 :
  Forall is_word ws -> Text.join ws <> l1 ++ " "%char :: " "%char :: l2.
Proof.
  intros H E.
  assert (Text.words (l1 ++ " "%char :: " "%char :: l2)
          = Text.words (l1 ++ " "%char :: l2)) as Hsame.
  { clear. induction l1 as [|c l1 IH]; [reflexivity|].
    cbn [app Text.words]. destruct (Str.is_space c); [exact IH|].
    destruct l1 as [|d l1]; [reflexivity|].
    cbn [app] in *. destruct (Str.is_space d); rewrite IH; reflexivity. }
  assert (Text.join (Text.words (l1 ++ " "%char :: l2)) = Text.join ws) as Hj.
  { rewrite <- Hsame, <- E, (words_join ws H). reflexivity. }
  pose proof (join_words_length (l1 ++ " "%char :: l2)) as Hlen.
  rewrite Hj, E, !length_app in Hlen. simpl in Hlen. lia.
Qed.


(** X14: what [clean_text] returns when it does not truncate is the words
    of the text, in order, with one space between two of them: it does not
    start or end with whitespace, its only whitespace characters are single
    spaces, it has the words of the text, and cleaning it again changes
    nothing. *)
Theorem clean_text_normal_form text :
  let r := clean_text text None in
  Str.chars r = Text.join (Text.words (Str.chars text))
  /\ clean_text r None = r
  /\ Str.strip r = r
  /\ (forall c, In c (Str.chars r) -> Str.is_space c = true -> c = " "%char)
  /\ (forall l1 l2, Str.chars r <> l1 ++ " "%char :: " "%char :: l2)
  /\ Text.words (Str.chars r) = Text.words (Str.chars text).
Proof.
  cbv zeta. pose proof (clean_text_plain text) as E.
  pose proof (words_good (Str.chars text)) as Hw.
  split; [exact E|]. split; [|split; [|split; [|split]]].
  - rewrite <- (of_chars_chars (clean_text (clean_text text None) None)).
    rewrite clean_text_plain, E, (words_join _ Hw), <- E. apply of_chars_chars.
  - unfold Str.strip. rewrite E, (strip_join _ Hw), <- E. apply of_chars_chars.
  - intros c Hin Hc. rewrite E in Hin.
    destruct (join_chars _ _ Hin) as [->|(w & Hww & Hcw)]; [reflexivity|].
    destruct (proj1 (List.Forall_forall _ _) Hw w Hww) as [_ Hall].
    rewrite forallb_forall in Hall. apply Hall in Hcw. rewrite Hc in Hcw. discriminate.
  - intros l1 l2. rewrite E. apply join_no_double_space, Hw.
  - rewrite E. apply words_join, Hw.
Qed.

Lemma length_append s1 s2 :
  String.length (s1 +:+ s2) = (String.length s1 + String.length s2)%nat.
Proof. rewrite <- !length_chars, chars_app, length_app. reflexivity. Qed.

Lemma before_last_prefix sep l h :
  Text.before_last sep l = Some h -> h `prefix_of` l.
Proof.
  revert h. induction l as [|c l IH]; intros h; [discriminate|]. simpl.
  destruct (Text.before_last sep l) as [h'|].
  - intros [= <-]. apply prefix_cons, IH. reflexivity.
  - destruct (Ascii.eqb c sep); [|discriminate]. intros [= <-]. apply prefix_nil.
Qed.

Lemma rsplit_head_prefix sep l : Text.rsplit_head sep l `prefix_of` l.
Proof.
  unfold Text.rsplit_head. destruct (Text.before_last sep l) eqn:E.
  - eapply before_last_prefix, E.
  - reflexivity.
Qed.

Lemma firstn_prefix {A} k (l : list A) : firstn k l `prefix_of` l.
Proof. exists (skipn k l). symmetry. apply firstn_skipn. Qed.

Lemma slice_to_prefix n l : Text.slice_to n l `prefix_of` l.
Proof. unfold Text.slice_to. destruct (0 <=? n)%Z; apply firstn_prefix. Qed.

Lemma truncated_text text n :
  text <> "" ->
  too_long (Some n) (Text.join (Text.words (Str.chars text))) = true ->
  clean_text text (Some n)
  = Str.of_chars (Text.rsplit_head " "
                    (Text.slice_to n (Text.join (Text.words (Str.chars text)))))
    +:+ "...".
Proof.
  intros Hne Hl. unfold clean_text. rewrite (eqb_nonempty _ Hne). cbv zeta.
  rewrite cleaned_text, Hl. reflexivity.
Qed.

Lemma untruncated_text text n :
  too_long (Some n) (Text.join (Text.words (Str.chars text))) = false ->
  clean_text text (Some n) = clean_text text None.
Proof.
  intros Hl. unfold clean_text. destruct (String.eqb text ""); [reflexivity|].
  cbv zeta. rewrite cleaned_text, Hl. reflexivity.
Qed.

Lemma kept_text n l :
  let kept := Str.of_chars (Text.rsplit_head " " (Text.slice_to n l)) in
  Str.chars kept `prefix_of` l
  /\ ((0 <= n)%Z -> (Z.of_nat (String.length kept) <= n)%Z).
Proof.
  cbv zeta. rewrite chars_of_chars, length_of_chars. split.
  - etransitivity; [apply rsplit_head_prefix|apply slice_to_prefix].
  - intros Hn. pose proof (prefix_length _ _ (rsplit_head_prefix " " (Text.slice_to n l))).
    unfold Text.slice_to in *. destruct (Z.leb_spec 0 n); [|lia].
    rewrite length_firstn in H. lia.
Qed.

(** X15: truncation by [clean_text].  A positive [max_length] leaves a
    cleaned text that fits as it is; a longer one is cut to a beginning of at
    most [max_length] characters, followed by three dots, so the result can be
    up to three characters longer than [max_length].  A [max_length] of 0
    means no limit, and a negative one always cuts. *)
Theorem clean_text_truncation text :
  (forall n, (0 < n)%Z ->
     let full := clean_text text None in
     ((Z.of_nat (String.length full) <= n)%Z -> clean_text text (Some n) = full)
     /\ ((n < Z.of_nat (String.length full))%Z ->
         exists kept, clean_text text (Some n) = kept +:+ "..."
                      /\ Str.chars kept `prefix_of` Str.chars full
                      /\ (Z.of_nat (String.length kept) <= n)%Z)
     /\ (Z.of_nat (String.length (clean_text text (Some n))) <= n + 3)%Z)
  /\ clean_text text (Some 0%Z) = clean_text text None
  /\ (forall n, (n < 0)%Z -> text <> "" ->
        exists kept, clean_text text (Some n) = kept +:+ "..."
                     /\ Str.chars kept `prefix_of` Str.chars (clean_text text None)).
Proof.
  pose proof (clean_text_plain text) as E.
  assert (String.length (clean_text text None)
          = length (Text.join (Text.words (Str.chars text)))) as El
      by (rewrite <- length_chars, E; reflexivity).
  split; [|split].
  - intros n Hn. cbv zeta.
    assert ((Z.of_nat (String.length (clean_text text None)) <= n)%Z ->
            clean_text text (Some n) = clean_text text None) as Hfit.
    { intros Hle. apply untruncated_text. unfold too_long.
      apply andb_false_iff. right. apply Z.ltb_ge. lia. }
    assert ((n < Z.of_nat (String.length (clean_text text None)))%Z ->
            exists kept, clean_text text (Some n) = kept +:+ "..."
                         /\ Str.chars kept `prefix_of` Str.chars (clean_text text None)
                         /\ (Z.of_nat (String.length kept) <= n)%Z) as Hcut.
    { intros Hlt.
      assert (text <> "") as Hne by (intros ->; simpl in Hlt; lia).
      eexists. split; [apply truncated_text; [exact Hne|]|].
      - unfold too_long. apply andb_true_iff. split.
        + apply negb_true_iff, Z.eqb_neq. lia.
        + apply Z.ltb_lt. lia.
      - rewrite E.
        destruct (kept_text n (Text.join (Text.words (Str.chars text)))) as [A B].
        split; [exact A|apply B; lia]. }
    split; [exact Hfit|]. split; [exact Hcut|].
    destruct (Z.le_gt_cases (Z.of_nat (String.length (clean_text text None))) n) as [Hle|Hgt].
    + rewrite (Hfit Hle). lia.
    + destruct (Hcut Hgt) as (kept & -> & _ & Hk). rewrite length_append. simpl. lia.
  - apply untruncated_text. reflexivity.
  - intros n Hn Hne. eexists. split; [apply truncated_text; [exact Hne|]|].
    + unfold too_long. apply andb_true_iff. split.
      * apply negb_true_iff, Z.eqb_neq. lia.
      * apply Z.ltb_lt. lia.
    + rewrite E. apply kept_text.
Qed.

Lemma clean_text_truncation_witness :
  clean_text "  a   tidy  text " (Some 11%Z) = "a tidy text"
  /\ (exists kept, clean_text "one two three" (Some 9%Z) = kept +:+ "..."
                   /\ (Z.of_nat (String.length kept) <= 9)%Z)
  /\ exists kept, clean_text "word" (Some (-1)%Z) = kept +:+ "...".
Proof.
  destruct (clean_text_truncation "  a   tidy  text ") as (H1 & _).
  destruct (clean_text_truncation "one two three") as (H2 & _).
  destruct (clean_text_truncation "word") as (_ & _ & H3).
  split; [|split].
  - destruct (H1 11%Z ltac:(lia)) as (A & _).
    transitivity (clean_text "  a   tidy  text " None); [|vm_compute; reflexivity].
    apply A. vm_compute. discriminate.
  - destruct (H2 9%Z ltac:(lia)) as (_ & B & _).
    destruct B as (kept & E & _ & Hk); [vm_compute; reflexivity|].
    exists kept. split; assumption.
  - destruct (H3 (-1)%Z ltac:(lia) ltac:(discriminate)) as (kept & E & _).
    exists kept. exact E.
Defined.


(** ** Removing duplicates *)

Lemma seen_of_empty : seen_of (mkSeen ∅ ∅ []).
Proof.
  split; intros x; split.
  - intros H. apply not_elem_of_empty in H. destruct H.
  - intros (a & Ha & _). apply elem_of_nil in Ha. destruct Ha.
  - intros H. apply not_elem_of_empty in H. destruct H.
  - intros (a & Ha & _). apply elem_of_nil in Ha. destruct Ha.
Qed.

Lemma seen_of_add st article h :
  seen_of st -> content_hash article = Some h ->
  seen_of (mkSeen ({[ dict_get article "url" ]} ∪ seen_urls st)
             ({[ h ]} ∪ seen_hashes st) (unique_articles st ++ [article])).
Proof.
  intros [Hu Hh] Hc. split; simpl; intros x; split.
  - intros H. apply elem_of_union in H as [H|H].
    + apply elem_of_singleton in H. subst x. exists article. split; [|reflexivity].
      apply elem_of_app. right. apply list_elem_of_singleton. reflexivity.
    + apply Hu in H as (a & Ha & E). exists a. split; [|exact E].
      apply elem_of_app. left. exact Ha.
  - intros (a & Ha & E). apply elem_of_app in Ha as [Ha|Ha].
    + apply elem_of_union. right. apply Hu. eauto.
    + apply list_elem_of_singleton in Ha. subst a. apply elem_of_union. left.
      apply elem_of_singleton. symmetry. exact E.
  - intros H. apply elem_of_union in H as [H|H].
    + apply elem_of_singleton in H. subst x. exists article. split; [|exact Hc].
      apply elem_of_app. right. apply list_elem_of_singleton. reflexivity.
    + apply Hh in H as (a & Ha & E). exists a. split; [|exact E].
      apply elem_of_app. left. exact Ha.
  - intros (a & Ha & E). apply elem_of_app in Ha as [Ha|Ha].
    + apply elem_of_union. right. apply Hh. eauto.
    + apply list_elem_of_singleton in Ha. subst a. apply elem_of_union. left.
      apply elem_of_singleton. congruence.
Qed.

Lemma distinct_snoc l article :
  distinct l ->
  (forall a, a ∈ l -> dict_get a "url" <> dict_get article "url"
                      /\ content_hash a <> content_hash article) ->
  distinct (l ++ [article]).
Proof.
  intros Hd Hnew i j a b Hi Hj Hij.
  destruct (lookup_app_Some l [article] i a) as [Hia _].
  destruct (lookup_app_Some l [article] j b) as [Hjb _].
  destruct (Hia Hi) as [Ha|[Hli Ha]]; destruct (Hjb Hj) as [Hb|[Hlj Hb]].
  - eapply Hd; eassumption.
  - apply list_lookup_singleton_Some in Hb as [_ <-].
    apply Hnew. eapply list_elem_of_lookup_2, Ha.
  - apply list_lookup_singleton_Some in Ha as [_ <-].
    destruct (Hnew b) as [A B]; [eapply list_elem_of_lookup_2, Hb|].
    split; congruence.
  - apply list_lookup_singleton_Some in Ha as [Ei _].
    apply list_lookup_singleton_Some in Hb as [Ej _]. lia.
Qed.

(** What one turn of the loop does. *)
Lemma dedup_step_spec st article st' :
  dedup_step st article = Some st' ->
  seen_of st -> distinct (unique_articles st) ->
  seen_of st' /\ distinct (unique_articles st')
  /\ (unique_articles st' = unique_articles st
      \/ unique_articles st' = unique_articles st ++ [article]
         /\ is_Some (content_hash article))
  /\ exists b, b ∈ unique_articles st'
               /\ (dict_get b "url" = dict_get article "url"
                   \/ content_hash b = content_hash article
                      /\ is_Some (content_hash article)).
Proof.
  unfold dedup_step. intros H Hs Hd. cbv zeta in H.
  destruct (bool_decide (dict_get article "url" ∈ seen_urls st)) eqn:Du.
  { injection H as <-. apply bool_decide_eq_true in Du.
    apply Hs in Du as (b & Hb & E).
    split; [exact Hs|]. split; [exact Hd|]. split; [left; reflexivity|].
    exists b. auto. }
  apply bool_decide_eq_false in Du.
  destruct (content_hash article) as [h|] eqn:Eh; [|discriminate].
  destruct (bool_decide (h ∈ seen_hashes st)) eqn:Dh.
  { injection H as <-. apply bool_decide_eq_true in Dh.
    apply Hs in Dh as (b & Hb & E).
    split; [exact Hs|]. split; [exact Hd|]. split; [left; reflexivity|].
    exists b. split; [exact Hb|]. right. split; [exact E|eauto]. }
  apply bool_decide_eq_false in Dh. injection H as <-. simpl.
  split; [apply seen_of_add; assumption|]. split; [|split].
  - apply distinct_snoc; [exact Hd|]. intros a Ha. split.
    + intros E. apply Du, Hs. eauto.
    + intros E. apply Dh, Hs. exists a. split; [exact Ha|congruence].
  - right. split; [reflexivity|eauto].
  - exists article. split; [|left; reflexivity].
    apply elem_of_app. right. apply list_elem_of_singleton. reflexivity.
Qed.

Lemma dedup_loop_spec articles st st' :
  dedup_loop articles st = Some st' ->
  seen_of st -> distinct (unique_articles st) ->
  seen_of st' /\ distinct (unique_articles st')
  /\ (exists new, unique_articles st' = unique_articles st ++ new
                  /\ sublist new articles
                  /\ Forall (fun a => is_Some (content_hash a)) new)
  /\ forall a, a ∈ articles ->
       exists b, b ∈ unique_articles st'
                 /\ (dict_get b "url" = dict_get a "url"
                     \/ content_hash b = content_hash a /\ is_Some (content_hash a)).
Proof.
  revert st. induction articles as [|article rest IH]; simpl; intros st H Hs Hd.
  { injection H as <-. split; [exact Hs|]. split; [exact Hd|]. split.
    - exists []. rewrite app_nil_r. split; [reflexivity|]. split; constructor.
    - intros a Ha. apply elem_of_nil in Ha. destruct Ha. }
  destruct (dedup_step st article) as [st1|] eqn:E1; [|discriminate].
  destruct (dedup_step_spec _ _ _ E1 Hs Hd) as (Hs1 & Hd1 & Hgrow & b & Hb & Hcov).
  destruct (IH _ H Hs1 Hd1) as (Hs' & Hd' & (new & En & Hsub & Hall) & Hcov').
  split; [exact Hs'|]. split; [exact Hd'|]. split.
  - destruct Hgrow as [E|[E Hsome]]; rewrite E in En.
    + exists new. split; [exact En|]. split; [apply sublist_cons, Hsub|exact Hall].
    + exists (article :: new). rewrite <- app_assoc in En. split; [exact En|].
      split; [apply sublist_skip, Hsub|constructor; assumption].
  - intros a Ha. apply elem_of_cons in Ha as [->|Ha]; [|apply Hcov', Ha].
    exists b. split; [|exact Hcov]. rewrite En. apply elem_of_app. left. exact Hb.
Qed.

Lemma distinct_nil : distinct [].
Proof. intros i j a b Hi. rewrite lookup_nil in Hi. discriminate. Qed.

(** A list without repetition goes through the loop whole. *)
Lemma dedup_loop_distinct l st :
  seen_of st -> distinct (unique_articles st ++ l) ->
  Forall (fun a => is_Some (content_hash a)) l ->
  exists st', dedup_loop l st = Some st'
              /\ unique_articles st' = unique_articles st ++ l.
Proof.
  revert st. induction l as [|a l IH]; intros st Hs Hd Hall; simpl.
  { exists st. rewrite app_nil_r. auto. }
  inversion Hall as [|? ? [h Eh] Hall']; subst.
  assert (forall b, b ∈ unique_articles st ->
                    dict_get b "url" <> dict_get a "url"
                    /\ content_hash b <> content_hash a) as Hnew.
  { intros b Hb. apply list_elem_of_lookup in Hb as [i Hi].
    apply (Hd i (length (unique_articles st)) b a).
    - apply lookup_app_l_Some, Hi.
    - rewrite lookup_app_r by lia. rewrite Nat.sub_diag. reflexivity.
    - apply lookup_lt_Some in Hi. lia. }
  unfold dedup_step. cbv zeta.
  rewrite bool_decide_eq_false_2.
  2:{ intros H. apply Hs in H as (b & Hb & E). apply (proj1 (Hnew b Hb)). exact E. }
  rewrite Eh. rewrite bool_decide_eq_false_2.
  2:{ intros H. apply Hs in H as (b & Hb & E). apply (proj2 (Hnew b Hb)). congruence. }
  destruct (IH (mkSeen ({[ dict_get a "url" ]} ∪ seen_urls st)
                  ({[ h ]} ∪ seen_hashes st) (unique_articles st ++ [a])))
    as (st' & E' & Eu).
  - apply seen_of_add; assumption.
  - simpl. rewrite <- app_assoc. exact Hd.
  - exact Hall'.
  - exists st'. split; [exact E'|]. rewrite Eu. simpl. rewrite <- app_assoc. reflexivity.
Qed.

Lemma text_fields_hash a : text_fields a -> is_Some (content_hash a).
Proof.
  intros (t & au & u & Ht & Ha & Hu). unfold content_hash.
  rewrite Ht, Ha, Hu. simpl. eauto.
Qed.

Lemma hash_text_fields a : is_Some (content_hash a) -> text_fields a.
Proof.
  unfold content_hash, generate_article_hash, text_fields. intros [h H].
  destruct (dict_get a "title") as [t|]; [|discriminate].
  destruct (dict_get a "author") as [au|]; [|discriminate].
  destruct (dict_get a "url") as [u|]; [|discriminate].
  exists t, au, u. auto.
Qed.

Lemma dedup_loop_total articles st :
  Forall text_fields articles -> is_Some (dedup_loop articles st).
Proof.
  intros H. revert st. induction H as [|a l Ha _ IH]; intros st; simpl; [eauto|].
  unfold dedup_step. cbv zeta.
  destruct (bool_decide _); [apply IH|].
  destruct (text_fields_hash a Ha) as [h ->].
  destruct (bool_decide _); apply IH.
Qed.

Lemma dedup_loop_grows articles st st' :
  dedup_loop articles st = Some st' ->
  exists new, unique_articles st' = unique_articles st ++ new.
Proof.
  revert st. induction articles as [|a rest IH]; simpl; intros st H.
  { injection H as <-. exists []. rewrite app_nil_r. reflexivity. }
  destruct (dedup_step st a) as [st1|] eqn:E1; [|discriminate].
  destruct (IH _ H) as [new En]. rewrite En.
  unfold dedup_step in E1. cbv zeta in E1.
  destruct (bool_decide _); [injection E1 as <-; eauto|].
  destruct (content_hash a); [|discriminate].
  destruct (bool_decide _); injection E1 as <-; [eauto|].
  simpl. rewrite <- app_assoc. eauto.
Qed.

Lemma deduplicate_articles_kept articles out :
  deduplicate_articles articles = Some out -> distinct out /\ Forall text_fields out.
Proof.
  unfold deduplicate_articles.
  destruct (dedup_loop articles (mkSeen ∅ ∅ [])) as [st|] eqn:E; [|discriminate].
  intros [= <-].
  destruct (dedup_loop_spec _ _ _ E seen_of_empty distinct_nil)
    as (_ & Hd & (new & En & _ & Hall) & _).
  simpl in En. rewrite En in *. split; [exact Hd|].
  eapply Forall_impl; [exact Hall|]. intros a. apply hash_text_fields.
Qed.

(** X16: what [deduplicate_articles] returns is the input with some
    articles left out, in the order of the input; no url and no content hash
    occurs twice in it; every article left out has the url or the content
    hash of an article that is kept; and the first article is always kept. *)
Theorem deduplicate_articles_result articles out :
  deduplicate_articles articles = Some out ->
  sublist out articles
  /\ distinct out
  /\ Forall text_fields out
  /\ (forall a, a ∈ articles ->
        exists b, b ∈ out
                  /\ (dict_get b "url" = dict_get a "url"
                      \/ content_hash b = content_hash a /\ is_Some (content_hash a)))
  /\ (forall a rest, articles = a :: rest -> exists out', out = a :: out').
Proof.
  unfold deduplicate_articles.
  destruct (dedup_loop articles (mkSeen ∅ ∅ [])) as [st|] eqn:E; [|discriminate].
  intros [= <-].
  destruct (dedup_loop_spec _ _ _ E seen_of_empty distinct_nil)
    as (_ & Hd & (new & En & Hsub & Hall) & Hcov).
  simpl in En. rewrite En in *.
  split; [exact Hsub|]. split; [exact Hd|]. split; [|split; [exact Hcov|]].
  - eapply Forall_impl; [exact Hall|]. intros a. apply hash_text_fields.
  - intros a rest ->. simpl in E. unfold dedup_step in E. cbv zeta in E.
    rewrite bool_decide_eq_false_2 in E by apply not_elem_of_empty.
    destruct (content_hash a) as [h|]; [|discriminate].
    rewrite bool_decide_eq_false_2 in E by apply not_elem_of_empty.
    destruct (dedup_loop_grows _ _ _ E) as [new' En'].
    rewrite En in En'. simpl in En'. eauto.
Qed.

Lemma deduplicate_articles_result_witness :
  sublist [article_one; article_four] sample_articles
  /\ distinct [article_one; article_four].
Proof.
  destruct (deduplicate_articles_result sample_articles [article_one; article_four])
    as (A & B & _); [vm_compute; reflexivity|].
  split; assumption.
Defined.

(** X17: removing duplicates twice is removing them once; and a list in
    which no url and no content hash occurs twice, all read fields being
    texts, comes back as it is. *)
Theorem deduplicate_articles_idempotent :
  (forall l, distinct l -> Forall text_fields l -> deduplicate_articles l = Some l)
  /\ (forall articles out,
         deduplicate_articles articles = Some out ->
         deduplicate_articles out = Some out).
Proof.
  assert (forall l, distinct l -> Forall text_fields l ->
                    deduplicate_articles l = Some l) as H.
  { intros l Hd Ht. unfold deduplicate_articles.
    destruct (dedup_loop_distinct l (mkSeen ∅ ∅ []) seen_of_empty Hd)
      as (st' & -> & Eu).
    - eapply Forall_impl; [exact Ht|]. intros a. apply text_fields_hash.
    - simpl. rewrite Eu. reflexivity. }
  split; [exact H|].
  intros articles out E.
  destruct (deduplicate_articles_kept articles out E) as (Hd & Ht).
  apply H; assumption.
Qed.

Lemma deduplicate_articles_idempotent_witness :
  deduplicate_articles [article_one; article_four] = Some [article_one; article_four].
Proof.
  apply (proj2 deduplicate_articles_idempotent sample_articles).
  vm_compute. reflexivity.
Defined.

(** X18: [deduplicate_articles] returns a list whenever title, author and
    url of every article are texts or absent; and it raises when one of these
    is not a text in the first article. *)
Theorem deduplicate_articles_total articles :
  (Forall text_fields articles -> is_Some (deduplicate_articles articles))
  /\ (forall a rest, articles = a :: rest -> ~ text_fields a ->
                     deduplicate_articles articles = None).
Proof.
  split.
  - intros H. unfold deduplicate_articles.
    destruct (dedup_loop_total articles (mkSeen ∅ ∅ []) H) as [st ->]. simpl. eauto.
  - intros a rest -> Hn. unfold deduplicate_articles. simpl.
    unfold dedup_step. cbv zeta.
    rewrite bool_decide_eq_false_2 by apply not_elem_of_empty.
    destruct (content_hash a) as [h|] eqn:Eh; [|reflexivity].
    destruct Hn. apply hash_text_fields. eauto.
Qed.

Lemma deduplicate_articles_total_witness :
  is_Some (deduplicate_articles sample_articles)
  /\ deduplicate_articles [ {[ "title" := PStr "Proofs"; "url" := PInt 7 ]} ] = None.
Proof.
  split.
  - apply deduplicate_articles_total.
    repeat constructor; vm_compute; eexists _, _, _; repeat split; reflexivity.
  - apply (proj2 (deduplicate_articles_total _) _ [] eq_refl).
    intros (t & au & u & _ & _ & Hu). vm_compute in Hu. discriminate.
Defined.

(** X19: what counts as a duplicate.  Of two articles with the same url
    the second is dropped; and so is the second of two articles whose title,
    author and url, put in lower case, stripped of outer blanks and written one
    after the other, give the same text, whatever their urls. *)
Theorem deduplicate_articles_similar a b :
  text_fields a ->
  (dict_get b "url" = dict_get a "url"
   \/ exists t1 a1 u1 t2 a2 u2,
        dict_get a "title" = PStr t1 /\ dict_get a "author" = PStr a1
        /\ dict_get a "url" = PStr u1
        /\ dict_get b "title" = PStr t2 /\ dict_get b "author" = PStr a2
        /\ dict_get b "url" = PStr u2
        /\ Str.strip (Text.lower t1) +:+ Str.strip (Text.lower a1)
           +:+ Str.strip (Text.lower u1)
           = Str.strip (Text.lower t2) +:+ Str.strip (Text.lower a2)
             +:+ Str.strip (Text.lower u2)) ->
  deduplicate_articles [a; b] = Some [a].
Proof.
  intros Ha Hsame.
  destruct (text_fields_hash a Ha) as [h Eh].
  assert (dedup_step (mkSeen ∅ ∅ []) a
          = Some (mkSeen ({[ dict_get a "url" ]} ∪ ∅) ({[ h ]} ∪ ∅) ([] ++ [a]))) as S1.
  { unfold dedup_step. cbv zeta. simpl.
    rewrite bool_decide_eq_false_2 by apply not_elem_of_empty. rewrite Eh.
    rewrite bool_decide_eq_false_2 by apply not_elem_of_empty. reflexivity. }
  assert (dedup_step (mkSeen ({[ dict_get a "url" ]} ∪ ∅) ({[ h ]} ∪ ∅) ([] ++ [a])) b
          = Some (mkSeen ({[ dict_get a "url" ]} ∪ ∅) ({[ h ]} ∪ ∅) ([] ++ [a]))) as S2.
  { unfold dedup_step. cbv zeta. simpl.
    destruct (bool_decide (dict_get b "url" ∈ _)) eqn:Du; [reflexivity|].
    apply bool_decide_eq_false in Du.
    destruct Hsame
      as [E|(t1 & a1 & u1 & t2 & a2 & u2 & T1 & A1 & U1 & T2 & A2 & U2 & E)].
    { destruct Du. rewrite E. apply elem_of_union. left.
      apply elem_of_singleton. reflexivity. }
    assert (content_hash b = Some h) as Eb.
    { rewrite <- Eh. unfold content_hash. rewrite T1, A1, U1, T2, A2, U2. simpl.
      rewrite E. reflexivity. }
    rewrite Eb. rewrite bool_decide_eq_true_2; [reflexivity|].
    apply elem_of_union. left. apply elem_of_singleton. reflexivity. }
  unfold deduplicate_articles. cbn [dedup_loop]. rewrite S1, S2. reflexivity.
Qed.

Lemma deduplicate_articles_similar_witness :
  deduplicate_articles [article_one; article_three] = Some [article_one]
  /\ deduplicate_articles [article_one; article_two] = Some [article_one].
Proof.
  split.
  - apply deduplicate_articles_similar.
    + exists "Proofs", "Ada", "https://medium.com/p/1". repeat split; reflexivity.
    + right.
      exists "Proofs", "Ada", "https://medium.com/p/1",
             " PROOFS", "ada ", "HTTPS://medium.com/p/1 ".
      repeat split; vm_compute; reflexivity.
  - apply deduplicate_articles_similar.
    + exists "Proofs", "Ada", "https://medium.com/p/1". repeat split; reflexivity.
    + left. reflexivity.
Defined.
